(** * mineflayer-replay: the binary replay container and the playback projection

    A shallow embedding of [varint.ts], [chunk.ts] (payload normalizer),
    [utils.ts], [format.ts] (container writers and reader), [server.ts]
    (the replay player) and [recorder.ts] (the recorder), followed by the
    properties proved about them.

    Conventions of the embedding:
    - a JavaScript number that the code uses as an integer (timestamps, offsets,
      bytes, entity ids) is a [Z]; the 32-bit behaviour of the bitwise
      operators is written out ([to_int32], [to_uint32]);
    - a number that the player takes from its caller or from the clock (seek
      targets, speeds, the current time) is a [number]: a rational, [NaN] or
      an infinity;
    - a [Buffer] is a [list Z] of bytes;
    - a call either returns or throws: a [completion], or an [outcome] when
      the object it is called on has a state;
    - the functions the code is given are parameters: the schema-less codec,
      the viewers' protocol encoders, and the listeners of the player's
      events, which are taken to return. *)

From Stdlib Require Import String Ascii.
From Stdlib Require Import ZArith List Lia Bool DecimalString.
From Stdlib Require Import QArith Qminmax.
Import ListNotations.
Open Scope Z_scope.

(* ================================================================== *)
(** * Part I: the program *)
(* ================================================================== *)

Set Warnings "-register-all".

(** ** Errors raised by the code ([throw new Error(...)] and runtime errors) *)

Inductive exn : Type :=
| VarintEndOfBuffer            (* "Unexpected end of buffer while decoding varint" *)
| HeaderAlreadyWritten         (* "Header already written" *)
| HeaderNotWritten             (* "Must write header before packets" *)
| UnknownPacketName (name : string)
| ValueOutOfRange              (* RangeError of Buffer.writeUInt32LE *)
| BadMagic
| UnsupportedVersion (version : Z)
| UnknownPacketId (id : Z) (offset : Z)
| DecodeFailed                 (* the schema-less decoder rejected the blob *)
| ShortRead                    (* a read past the end of the file: the bytes the
                                  code would use are uninitialised memory *)
| SinkError                    (* a viewer's [client.write] failed *)
| TypeError.                   (* property access on null/undefined, failed
                                  conversion, call of a non-function *)

Inductive completion (A : Type) : Type :=
| Ok (a : A)
| Throw (e : exn).
Arguments Ok {A} a.
Arguments Throw {A} e.

Definition bind {A B : Type} (r : completion A) (k : A -> completion B) : completion B :=
  match r with
  | Ok a => k a
  | Throw e => Throw e
  end.

Notation "x <- r ;; k" := (bind r (fun x => k))
  (at level 61, r at next level, right associativity).

(** ** JavaScript's 32-bit integer operators on numbers that hold integers *)

Module JS.

(** ToUint32 and ToInt32 of the language specification. *)
Definition to_uint32 (z : Z) : Z := z mod 2 ^ 32.

Definition to_int32 (z : Z) : Z :=
  let u := z mod 2 ^ 32 in
  if u <? 2 ^ 31 then u else u - 2 ^ 32.

(** [a & b] *)
Definition and (a b : Z) : Z := Z.land (to_int32 a) (to_int32 b).

(** [a | b] *)
Definition or (a b : Z) : Z := Z.lor (to_int32 a) (to_int32 b).

(** [a << s]: the shift count is taken modulo 32, the result is an int32. *)
Definition shl (a s : Z) : Z :=
  to_int32 (Z.shiftl (to_int32 a) (to_uint32 s mod 32)).

(** [a >>> s]: the operand is read as a uint32. *)
Definition ushr (a s : Z) : Z :=
  Z.shiftr (to_uint32 a) (to_uint32 s mod 32).

End JS.

(** ** varint.ts *)

Module Varint.

(** The loop of [encodeVarint]. After one turn [value] is below [2^25]
    (it went through [>>>]), so five turns always reach the final [push];
    [encodeVarint_unfold] below shows that the bound is never hit. *)
Fixpoint encodeVarint_loop (turns : nat) (value : Z) : list Z :=
  match turns with
  | O => [JS.and value 0x7F]
  | S turns' =>
      if 0x80 <=? value
      then JS.or (JS.and value 0x7F) 0x80 :: encodeVarint_loop turns' (JS.ushr value 7)
      else [JS.and value 0x7F]
  end.

Definition encodeVarint (value : Z) : list Z := encodeVarint_loop 5 value.

(** The loop of [decodeVarint], on the bytes of the buffer from
    [offset + bytesRead] on: an empty rest is
    [offset + bytesRead >= buffer.length]. *)
Fixpoint decodeVarint_loop (rest : list Z) (value shift : Z) (bytesRead : nat)
  : completion (Z * nat) :=
  match rest with
  | [] => Throw VarintEndOfBuffer
  | byte :: rest' =>
      let value := JS.or value (JS.shl (JS.and byte 0x7F) shift) in
      let bytesRead := S bytesRead in
      if JS.and byte 0x80 =? 0
      then Ok (value, bytesRead)
      else decodeVarint_loop rest' value (shift + 7) bytesRead
  end.

(** [decodeVarint(buffer, offset)] returns [(value, bytesRead)]. *)
Definition decodeVarint (buffer : list Z) (offset : nat) : completion (Z * nat) :=
  decodeVarint_loop (skipn offset buffer) 0 0 0.

(** A byte whose continuation bit (the MSB) is set. *)
Definition continues (byte : Z) : Prop := (JS.and byte 0x80 =? 0) = false.

End Varint.

(** ** Node's base64 codec ([buf.toString("base64")], [Buffer.from(s, "base64")]) *)

Module Base64.

Local Open Scope string_scope.
Local Open Scope Z_scope.

Definition alphabet : string :=
  "ABCDEFGHIJKLMNOPQRSTUVWXYZabcdefghijklmnopqrstuvwxyz0123456789+/".

(** The character of a sextet. *)
Definition digit (sextet : Z) : ascii :=
  nth (Z.to_nat sextet) (list_ascii_of_string alphabet) "="%char.

(** Encoding: three bytes give four characters; a rest of one or two bytes is
    padded with [=]. *)
Fixpoint toBase64 (bytes : list Z) : string :=
  match bytes with
  | [] => ""
  | [a] =>
      String (digit (a / 4)) (String (digit (a mod 4 * 16)) "==")
  | [a; b] =>
      String (digit (a / 4)) (String (digit (a mod 4 * 16 + b / 16))
        (String (digit (b mod 16 * 4)) "="))
  | a :: b :: c :: rest =>
      String (digit (a / 4)) (String (digit (a mod 4 * 16 + b / 16))
        (String (digit (b mod 16 * 4 + c / 64)) (String (digit (c mod 64))
          (toBase64 rest))))
  end.

(** The decoder's table: the standard alphabet and the URL-safe [-] and [_]. *)
Definition unbase64 (c : ascii) : option Z :=
  let n := Z.of_N (N_of_ascii c) in
  if (65 <=? n) && (n <=? 90) then Some (n - 65)
  else if (97 <=? n) && (n <=? 122) then Some (n - 71)
  else if (48 <=? n) && (n <=? 57) then Some (n + 4)
  else if (n =? 43) || (n =? 45) then Some 62
  else if (n =? 47) || (n =? 95) then Some 63
  else None.

(** Decoding is lenient: characters outside the table are skipped and the first
    [=] ends the input. *)
Fixpoint sextets (s : string) : list Z :=
  match s with
  | "" => []
  | String c s' =>
      if Ascii.eqb c "="%char then []
      else match unbase64 c with
           | Some v => v :: sextets s'
           | None => sextets s'
           end
  end.

Fixpoint bytes_of_sextets (l : list Z) : list Z :=
  match l with
  | a :: b :: c :: d :: rest =>
      (a * 4 + b / 16) mod 256 :: (b mod 16 * 16 + c / 4) mod 256
        :: (c mod 4 * 64 + d) mod 256 :: bytes_of_sextets rest
  | [a; b; c] => [(a * 4 + b / 16) mod 256; (b mod 16 * 16 + c / 4) mod 256]
  | [a; b] => [(a * 4 + b / 16) mod 256]
  | _ => []
  end.

Definition fromBase64 (s : string) : list Z := bytes_of_sextets (sextets s).

End Base64.

(** ** Payload trees: the JavaScript values a packet carries *)

Module Payload.

Local Open Scope string_scope.
Local Open Scope Z_scope.

(** An object is the list of its own enumerable properties in iteration order,
    keys distinct. Functions, symbols and prototypes other than the built-in
    ones are outside the model; numbers are integers. *)
Inductive value : Type :=
| VUndefined
| VNull
| VBool (b : bool)
| VNum (n : Z)
| VStr (s : string)
| VBuf (bytes : list Z)
| VArr (items : list value)
| VObj (props : list (string * value)).

Definition string_of_Z (n : Z) : string := NilZero.string_of_int (Z.to_int n).

(** Own-property lookup. *)
Fixpoint obj_get (props : list (string * value)) (key : string) : option value :=
  match props with
  | [] => None
  | (k, v) :: props' => if String.eqb k key then Some v else obj_get props' key
  end.

Definition has_own (props : list (string * value)) (key : string) : bool :=
  match obj_get props key with Some _ => true | None => false end.

Fixpoint obj_replace (key : string) (v : value) (props : list (string * value))
  : list (string * value) :=
  match props with
  | [] => [(key, v)]
  | (k, w) :: props' =>
      if String.eqb k key then (k, v) :: props'
      else (k, w) :: obj_replace key v props'
  end.

(** [result[key] = v] on a plain object: an existing property keeps its place,
    a new one goes last. Assigning to [__proto__] runs the prototype setter and
    creates no own property. *)
Definition obj_set (key : string) (v : value) (props : list (string * value))
  : list (string * value) :=
  if String.eqb key "__proto__" then props else obj_replace key v props.

(** [base.name] for the names the code reads ([entityId], [entityIds], [x],
    [z], [__type], [__data]), none of which is a built-in property of a
    string, array or buffer: a [TypeError] on [null] and [undefined]. *)
Definition get_prop (base : value) (name : string) : completion value :=
  match base with
  | VUndefined | VNull => Throw TypeError
  | VObj props =>
      match obj_get props name with Some v => Ok v | None => Ok VUndefined end
  | _ => Ok VUndefined
  end.

(** The properties of a [Buffer] that [for ... in] visits: its indices. *)
Fixpoint indexed (i : nat) (bytes : list Z) : list (string * value) :=
  match bytes with
  | [] => []
  | b :: bytes' => (string_of_Z (Z.of_nat i), VNum b) :: indexed (S i) bytes'
  end.

(** *** chunk.ts *)

(** [obj.hasOwnProperty(key)] inside [for (const key in obj)]: the call is made
    once the loop has a key, and it fails when an own property of that name
    hides the method (no value of the model is callable). *)
Definition hasOwnProperty_callable (props : list (string * value)) : bool :=
  match props with
  | [] => true
  | _ :: _ => negb (has_own props "hasOwnProperty")
  end.

(** The two traversals of [chunk.ts]: [obj.map(f)] on an array, and the
    [for ... in] loop that copies an object property by property, either of
    which stops at the first error. *)
Section Traverse.

Variable f : value -> completion value.

Fixpoint map_items (l : list value) : completion (list value) :=
  match l with
  | [] => Ok []
  | x :: l' =>
      x' <- f x ;;
      l'' <- map_items l' ;;
      Ok (x' :: l'')
  end.

Fixpoint copy_props (l result : list (string * value))
  : completion (list (string * value)) :=
  match l with
  | [] => Ok result
  | (key, v) :: l' =>
      v' <- f v ;;
      copy_props l' (obj_set key v' result)
  end.

End Traverse.

Fixpoint serializeData (obj : value) : completion value :=
  match obj with
  | VNull | VUndefined => Ok obj
  | VBuf bytes =>
      Ok (VObj [("__type", VStr "Buffer"); ("__data", VStr (Base64.toBase64 bytes))])
  | VArr items =>
      items' <- map_items serializeData items ;;
      Ok (VArr items')
  | VObj props =>
      if hasOwnProperty_callable props then
        result <- copy_props serializeData props [] ;;
        Ok (VObj result)
      else Throw TypeError
  | _ => Ok obj
  end.

(** [obj.__type === "Buffer" && typeof obj.__data === "string"] *)
Definition marked_buffer (props : list (string * value)) : option string :=
  match obj_get props "__type", obj_get props "__data" with
  | Some (VStr t), Some (VStr d) => if String.eqb t "Buffer" then Some d else None
  | _, _ => None
  end.

Fixpoint deserializeData (obj : value) : completion value :=
  match obj with
  | VNull | VUndefined => Ok obj
  | VArr items =>
      items' <- map_items deserializeData items ;;
      Ok (VArr items')
  | VBuf bytes =>
      (* a Buffer is an object without [__type]: its indices are copied *)
      Ok (VObj (fold_left (fun result kv => obj_set (fst kv) (snd kv) result)
                          (indexed 0 bytes) []))
  | VObj props =>
      match marked_buffer props with
      | Some data => Ok (VBuf (Base64.fromBase64 data))
      | None =>
          if hasOwnProperty_callable props then
            result <- copy_props deserializeData props [] ;;
            Ok (VObj result)
          else Throw TypeError
      end
  | _ => Ok obj
  end.

(** *** utils.ts *)

(** [mapToObject]: the [Map] and typed-array branches have no value of the
    model to act on; the own-property test is
    [Object.prototype.hasOwnProperty.call], which cannot be hidden. *)
Fixpoint mapToObject (v : value) : value :=
  match v with
  | VArr items => VArr (map mapToObject items)
  | VObj props =>
      VObj ((fix copy (l obj : list (string * value)) : list (string * value) :=
               match l with
               | [] => obj
               | (key, val) :: l' => copy l' (obj_set key (mapToObject val) obj)
               end) props [])
  | _ => v
  end.

End Payload.

(** *** Payloads that the normalizer reproduces *)

Module Faithful.

Import Payload.
Local Open Scope string_scope.
Local Open Scope Z_scope.

Definition is_byte (b : Z) : bool := (0 <=? b) && (b <? 256).

(** Property names the copying loops treat specially. *)
Definition ordinary_key (k : string) : bool :=
  negb (String.eqb k "__proto__") && negb (String.eqb k "hasOwnProperty").

Fixpoint distinct (keys : list string) : bool :=
  match keys with
  | [] => true
  | k :: keys' => negb (existsb (String.eqb k) keys') && distinct keys'
  end.

Definition unmarked (props : list (string * value)) : bool :=
  match marked_buffer props with Some _ => false | None => true end.

(** A payload tree of scalars, byte blobs, sequences and string-keyed maps
    (bytes in range, keys distinct) in which no map has the shape of the blob
    envelope ([__type] equal to ["Buffer"] with a string [__data]) and no map
    has a key [__proto__] or [hasOwnProperty]. *)
Fixpoint faithful (v : value) : bool :=
  match v with
  | VBuf bytes => forallb is_byte bytes
  | VArr items => forallb faithful items
  | VObj props =>
      distinct (map fst props) && forallb ordinary_key (map fst props)
      && unmarked props
      && forallb (fun kv => faithful (snd kv)) props
  | _ => true
  end.

(** [s] is the normalized form of [v], and denormalizes to it. *)
Definition normalizes (v s : value) : Prop :=
  serializeData v = Ok s /\ deserializeData s = Ok v.

End Faithful.

(** ** format.ts: the binary container *)

Module Format.

Import Payload.
Local Open Scope string_scope.
Local Open Scope Z_scope.

Definition MAGIC : string := "MCREPLAY".
Definition VERSION : Z := 0x01.

Definition PACKET_IDS : list (string * Z) :=
  [ ("map_chunk", 1); ("map_chunk_bulk", 2); ("block_change", 3);
    ("multi_block_change", 4); ("named_entity_spawn", 5);
    ("spawn_entity_living", 6); ("spawn_entity", 7); ("entity_velocity", 8);
    ("entity_teleport", 9); ("entity_move_look", 10); ("rel_entity_move", 11);
    ("entity_look", 12); ("entity_head_rotation", 13); ("entity_destroy", 14);
    ("chat", 15); ("player_info", 16); ("update_sign", 17); ("explosion", 18);
    ("entity_equipment", 19); ("player_abilities", 20); ("entity_metadata", 21) ].

Definition ID_TO_PACKET : list (Z * string) :=
  map (fun entry => (snd entry, fst entry)) PACKET_IDS.

(** The own entry of a table under a name, if it has one. *)
Fixpoint lookup_name (table : list (string * Z)) (name : string) : option Z :=
  match table with
  | [] => None
  | (n, id) :: table' => if String.eqb n name then Some id else lookup_name table' name
  end.

(** The property names an object literal inherits from [Object.prototype]. *)
Definition OBJECT_PROTOTYPE : list string :=
  [ "constructor"; "__defineGetter__"; "__defineSetter__"; "hasOwnProperty";
    "__lookupGetter__"; "__lookupSetter__"; "isPrototypeOf";
    "propertyIsEnumerable"; "toString"; "valueOf"; "__proto__";
    "toLocaleString" ].

(** [PACKET_IDS[name]], as the byte [writeUInt8] then stores; [None] is
    [undefined]. [PACKET_IDS] is an object literal, so the lookup follows the
    prototype chain: under a name inherited from [Object.prototype] it finds a
    function (the prototype object itself under [__proto__]), which is not
    [undefined] and which [writeUInt8] stores as [0] ([+packetId] is [NaN]). *)
Definition packet_id_of (name : string) : option Z :=
  match lookup_name PACKET_IDS name with
  | Some id => Some id
  | None => if existsb (String.eqb name) OBJECT_PROTOTYPE then Some 0 else None
  end.

(** [ID_TO_PACKET[id]] *)
Fixpoint lookup_id (table : list (Z * string)) (id : Z) : option string :=
  match table with
  | [] => None
  | (i, n) :: table' => if i =? id then Some n else lookup_id table' id
  end.

Record ReplayMetadata : Type := {
  spawnPosition : Z * Z * Z;
  startTime : Z;
  endTime : Z;
  botUsername : string;
  mcVersion : string
}.

Record PacketRecord : Type := {
  timestamp : Z;
  name : string;
  data : value
}.

(** The metadata object as the recorder builds it and the encoder sees it. *)
Definition metadata_value (m : ReplayMetadata) : value :=
  let '(x, y, z) := spawnPosition m in
  VObj [ ("spawnPosition", VObj [("x", VNum x); ("y", VNum y); ("z", VNum z)]);
         ("startTime", VNum (startTime m));
         ("endTime", VNum (endTime m));
         ("botUsername", VStr (botUsername m));
         ("mcVersion", VStr (mcVersion m)) ].

(** *** Buffers *)

(** [Buffer.from(s, "ascii")] *)
Definition bytes_of_string (s : string) : list Z :=
  map (fun c => Z.of_N (N_of_ascii c)) (list_ascii_of_string s).

(** The text of a buffer, a character per byte. *)
Definition string_of_bytes (bytes : list Z) : string :=
  string_of_list_ascii (map (fun b => ascii_of_N (Z.to_N b)) bytes).

(** [buf.toString("ascii")] compared with a string: decoding clears the high
    bit of every byte. *)
Definition ascii_equals (bytes : list Z) (s : string) : bool :=
  if list_eq_dec Z.eq_dec (map (fun b => b mod 128) bytes) (bytes_of_string s)
  then true else false.

(** [buf.writeUInt32LE(value, 0)] on a fresh four-byte buffer. *)
Definition writeUInt32LE (value : Z) : completion (list Z) :=
  if (0 <=? value) && (value <=? 0xFFFFFFFF)
  then Ok [value mod 256; value / 256 mod 256; value / 65536 mod 256;
           value / 16777216 mod 256]
  else Throw ValueOutOfRange.

(** [buf.readUInt32LE(0)] *)
Definition readUInt32LE (bytes : list Z) : Z :=
  nth 0 bytes 0 + nth 1 bytes 0 * 256 + nth 2 bytes 0 * 65536
  + nth 3 bytes 0 * 16777216.

(** A call that returns or throws, with the object's state afterwards. *)
Inductive outcome (S : Type) : Type :=
| Returns (s : S)
| Throws (e : exn) (s : S).
Arguments Returns {S} s.
Arguments Throws {S} e s.

Definition state_of {S : Type} (o : outcome S) : S :=
  match o with Returns s => s | Throws _ s => s end.

Definition thrown {S : Type} (o : outcome S) : option exn :=
  match o with Returns _ => None | Throws e _ => Some e end.

(** The calls a recorder makes on a writer before it closes it. *)
Inductive call : Type :=
| WriteHeader
| WritePacket (record : PacketRecord).

(** The calls of the [ReplayWriter] interface, [close] among them. *)
Inductive operation : Type :=
| Call (c : call)
| Close (metadata : ReplayMetadata).

End Format.

(** *** BinaryReplayWriter: the file-backed writer *)

Module BinaryReplayWriter.

Import Payload Format.
Local Open Scope Z_scope.

Record state : Type := {
  stream : list (list Z);     (* the chunks the file stream accepted, in order *)
  ended : bool;               (* [stream.end] was called *)
  bytesWritten : Z;
  packetCount : Z;
  headerWritten : bool;
  lastTimestamp : Z
}.

(** [new BinaryReplayWriter(filePath)] *)
Definition create : state :=
  {| stream := []; ended := false; bytesWritten := 0; packetCount := 0;
     headerWritten := false; lastTimestamp := 0 |}.

(** [this.stream.write(chunk)]: an ended stream takes no more data. *)
Definition stream_write (chunk : list Z) (w : state) : state :=
  if ended w then w
  else {| stream := stream w ++ [chunk]; ended := ended w;
          bytesWritten := bytesWritten w; packetCount := packetCount w;
          headerWritten := headerWritten w; lastTimestamp := lastTimestamp w |}.

Definition add_bytesWritten (n : Z) (w : state) : state :=
  {| stream := stream w; ended := ended w;
     bytesWritten := bytesWritten w + n; packetCount := packetCount w;
     headerWritten := headerWritten w; lastTimestamp := lastTimestamp w |}.

Definition set_headerWritten (w : state) : state :=
  {| stream := stream w; ended := ended w;
     bytesWritten := bytesWritten w; packetCount := packetCount w;
     headerWritten := true; lastTimestamp := lastTimestamp w |}.

Definition set_lastTimestamp (t : Z) (w : state) : state :=
  {| stream := stream w; ended := ended w;
     bytesWritten := bytesWritten w; packetCount := packetCount w;
     headerWritten := headerWritten w; lastTimestamp := t |}.

Definition incr_packetCount (w : state) : state :=
  {| stream := stream w; ended := ended w;
     bytesWritten := bytesWritten w; packetCount := packetCount w + 1;
     headerWritten := headerWritten w; lastTimestamp := lastTimestamp w |}.

Definition stream_end (w : state) : state :=
  {| stream := stream w; ended := true;
     bytesWritten := bytesWritten w; packetCount := packetCount w;
     headerWritten := headerWritten w; lastTimestamp := lastTimestamp w |}.

Definition writeHeader (w : state) : outcome state :=
  if headerWritten w then Throws HeaderAlreadyWritten w
  else
    let w := stream_write (bytes_of_string MAGIC) w in
    let w := add_bytesWritten 8 w in
    let w := stream_write [VERSION] w in
    let w := add_bytesWritten 1 w in
    Returns (set_headerWritten w).

Section Codec.

(** [packer.encode] of the schema-less encoder the code is built on. *)
Variable encode : value -> list Z.

Definition writePacket (record : PacketRecord) (w : state) : outcome state :=
  if negb (headerWritten w) then Throws HeaderNotWritten w
  else
    match packet_id_of (name record) with
    | None => Throws (UnknownPacketName (name record)) w
    | Some packetId =>
        let delta := timestamp record - lastTimestamp w in
        let w := set_lastTimestamp (timestamp record) w in
        let timestampBuf := Varint.encodeVarint delta in
        let w := stream_write timestampBuf w in
        let w := add_bytesWritten (Z.of_nat (length timestampBuf)) w in
        let w := stream_write [packetId] w in
        let w := add_bytesWritten 1 w in
        match serializeData (data record) with
        | Throw e => Throws e w
        | Ok serialized =>
            let dataBuf := encode serialized in
            match writeUInt32LE (Z.of_nat (length dataBuf)) with
            | Throw e => Throws e w
            | Ok dataLengthBuf =>
                let w := stream_write dataLengthBuf w in
                let w := stream_write dataBuf w in
                let w := add_bytesWritten (4 + Z.of_nat (length dataBuf)) w in
                Returns (incr_packetCount w)
            end
        end
    end.

Definition close (metadata : ReplayMetadata) (w : state) : outcome state :=
  let metadataBuf := encode (metadata_value metadata) in
  match writeUInt32LE (Z.of_nat (length metadataBuf)) with
  | Throw e => Throws e w
  | Ok metadataLengthBuf =>
      let w := stream_write metadataBuf w in
      let w := stream_write metadataLengthBuf w in
      let w := add_bytesWritten (4 + Z.of_nat (length metadataBuf)) w in
      Returns (stream_end w)
  end.

Definition perform (c : call) (w : state) : outcome state :=
  match c with
  | WriteHeader => writeHeader w
  | WritePacket record => writePacket record w
  end.

(** A recording session: the calls in order, each on the state the previous
    one left (the recorder catches what [writePacket] throws and goes on),
    then [close]. The result lists what each call threw. *)
Fixpoint session (calls : list call) (metadata : ReplayMetadata) (w : state)
  : list (option exn) * state :=
  match calls with
  | [] => let o := close metadata w in ([thrown o], state_of o)
  | c :: calls' =>
      let o := perform c w in
      let '(errors, w') := session calls' metadata (state_of o) in
      (thrown o :: errors, w')
  end.

Definition operate (o : operation) (w : state) : outcome state :=
  match o with
  | Call c => perform c w
  | Close metadata => close metadata w
  end.

(** Any calls of the interface in order, [close] wherever it comes, each on
    the state the previous one left; the result lists what each call threw. *)
Fixpoint run (operations : list operation) (w : state) : list (option exn) * state :=
  match operations with
  | [] => ([], w)
  | o :: operations' =>
      let r := operate o w in
      let '(errors, w') := run operations' (state_of r) in
      (thrown r :: errors, w')
  end.

End Codec.

(** The bytes of the file once the stream is flushed. *)
Definition file_bytes (w : state) : list Z := concat (stream w).

End BinaryReplayWriter.

(** *** BinaryReplayMemoryWriter: the in-memory and the streaming writer *)

Module BinaryReplayMemoryWriter.

Import Payload Format.
Local Open Scope Z_scope.

Record state : Type := {
  buffers : list (list Z);
  bytesWritten : Z;
  packetCount : Z;
  headerWritten : bool;
  lastTimestamp : Z;
  (* [None]: no callback (memory mode); [Some chunks]: a callback, with the
     chunks it has been called with so far (stream mode) *)
  onPacketCallback : option (list (list Z))
}.

(** [new BinaryReplayMemoryWriter(onPacketCallback)] *)
Definition create (callback : bool) : state :=
  {| buffers := []; bytesWritten := 0; packetCount := 0; headerWritten := false;
     lastTimestamp := 0;
     onPacketCallback := if callback then Some [] else None |}.

(** The private [write(buffer)]. *)
Definition write (buffer : list Z) (w : state) : state :=
  {| buffers := buffers w ++ [buffer];
     bytesWritten := bytesWritten w + Z.of_nat (length buffer);
     packetCount := packetCount w;
     headerWritten := headerWritten w;
     lastTimestamp := lastTimestamp w;
     onPacketCallback :=
       match onPacketCallback w with
       | Some chunks => Some (chunks ++ [buffer])
       | None => None
       end |}.

Definition set_headerWritten (w : state) : state :=
  {| buffers := buffers w; bytesWritten := bytesWritten w;
     packetCount := packetCount w; headerWritten := true;
     lastTimestamp := lastTimestamp w; onPacketCallback := onPacketCallback w |}.

Definition set_lastTimestamp (t : Z) (w : state) : state :=
  {| buffers := buffers w; bytesWritten := bytesWritten w;
     packetCount := packetCount w; headerWritten := headerWritten w;
     lastTimestamp := t; onPacketCallback := onPacketCallback w |}.

Definition incr_packetCount (w : state) : state :=
  {| buffers := buffers w; bytesWritten := bytesWritten w;
     packetCount := packetCount w + 1; headerWritten := headerWritten w;
     lastTimestamp := lastTimestamp w; onPacketCallback := onPacketCallback w |}.

Definition writeHeader (w : state) : outcome state :=
  if headerWritten w then Throws HeaderAlreadyWritten w
  else
    let w := write (bytes_of_string MAGIC) w in
    let w := write [VERSION] w in
    Returns (set_headerWritten w).

Section Codec.

Variable encode : value -> list Z.

Definition writePacket (record : PacketRecord) (w : state) : outcome state :=
  if negb (headerWritten w) then Throws HeaderNotWritten w
  else
    match packet_id_of (name record) with
    | None => Throws (UnknownPacketName (name record)) w
    | Some packetId =>
        let delta := timestamp record - lastTimestamp w in
        let w := set_lastTimestamp (timestamp record) w in
        let timestampBuf := Varint.encodeVarint delta in
        let w := write timestampBuf w in
        let w := write [packetId] w in
        match serializeData (data record) with
        | Throw e => Throws e w
        | Ok serialized =>
            let dataBuf := encode serialized in
            match writeUInt32LE (Z.of_nat (length dataBuf)) with
            | Throw e => Throws e w
            | Ok dataLengthBuf =>
                let w := write dataLengthBuf w in
                let w := write dataBuf w in
                Returns (incr_packetCount w)
            end
        end
    end.

Definition close (metadata : ReplayMetadata) (w : state) : outcome state :=
  let metadataBuf := encode (metadata_value metadata) in
  match writeUInt32LE (Z.of_nat (length metadataBuf)) with
  | Throw e => Throws e w
  | Ok metadataLengthBuf =>
      let w := write metadataBuf w in
      let w := write metadataLengthBuf w in
      Returns w
  end.

Definition perform (c : call) (w : state) : outcome state :=
  match c with
  | WriteHeader => writeHeader w
  | WritePacket record => writePacket record w
  end.

Fixpoint session (calls : list call) (metadata : ReplayMetadata) (w : state)
  : list (option exn) * state :=
  match calls with
  | [] => let o := close metadata w in ([thrown o], state_of o)
  | c :: calls' =>
      let o := perform c w in
      let '(errors, w') := session calls' metadata (state_of o) in
      (thrown o :: errors, w')
  end.

Definition operate (o : operation) (w : state) : outcome state :=
  match o with
  | Call c => perform c w
  | Close metadata => close metadata w
  end.

Fixpoint run (operations : list operation) (w : state) : list (option exn) * state :=
  match operations with
  | [] => ([], w)
  | o :: operations' =>
      let r := operate o w in
      let '(errors, w') := run operations' (state_of r) in
      (thrown r :: errors, w')
  end.

End Codec.

(** [getBuffer()] *)
Definition getBuffer (w : state) : list Z := concat (buffers w).

(** What the stream-mode consumer has received, chunk after chunk. *)
Definition streamed (w : state) : list Z :=
  match onPacketCallback w with
  | Some chunks => concat chunks
  | None => []
  end.

End BinaryReplayMemoryWriter.

(** ** Vocabulary of the statements about the container *)

Module ContainerSpec.

Import Payload Format.
Local Open Scope Z_scope.

(** A file-backed and an in-memory writer that have produced the same bytes and
    hold the same counters, the file-backed one being [behind] in its count of
    bytes (it adds them up after writing); in stream mode the callback has
    received those bytes too. *)
Definition same_upto (behind : Z) (f : BinaryReplayWriter.state)
  (m : BinaryReplayMemoryWriter.state) : Prop :=
  BinaryReplayWriter.ended f = false /\
  BinaryReplayWriter.file_bytes f = BinaryReplayMemoryWriter.getBuffer m /\
  BinaryReplayWriter.bytesWritten f + behind = BinaryReplayMemoryWriter.bytesWritten m /\
  BinaryReplayWriter.packetCount f = BinaryReplayMemoryWriter.packetCount m /\
  BinaryReplayWriter.headerWritten f = BinaryReplayMemoryWriter.headerWritten m /\
  BinaryReplayWriter.lastTimestamp f = BinaryReplayMemoryWriter.lastTimestamp m /\
  match BinaryReplayMemoryWriter.onPacketCallback m with
  | Some chunks => concat chunks = BinaryReplayMemoryWriter.getBuffer m
  | None => True
  end.

Definition same_output := same_upto 0.

(** In stream mode the callback has received exactly the collected buffers. *)
Definition callback_in_step (m : BinaryReplayMemoryWriter.state) : Prop :=
  exists chunks,
    BinaryReplayMemoryWriter.onPacketCallback m = Some chunks /\
    concat chunks = BinaryReplayMemoryWriter.getBuffer m.

(** [close] is called at most once, and no call follows it. *)
Fixpoint close_last (operations : list operation) : bool :=
  match operations with
  | [] => true
  | Call _ :: operations' => close_last operations'
  | Close _ :: operations' =>
      match operations' with [] => true | _ :: _ => false end
  end.

End ContainerSpec.

(** *** BinaryReplayReader *)

Module BinaryReplayReader.

Import Payload Format.
Local Open Scope Z_scope.

(** [fs.readSync(fd, buf, 0, n, position)]: the bytes of the file that the
    call copies into [buf], fewer than [n] when the file ends before. *)
Definition readSync (file : list Z) (n : nat) (position : Z) : list Z :=
  firstn n (skipn (Z.to_nat position) file).

(** A read whose buffer the code then uses in full. The buffers come from
    [Buffer.allocUnsafe]: after a read that stops short (or starts before the
    file) the missing bytes are whatever the memory held, and the model stops
    there with [ShortRead]. *)
Definition read_exact (file : list Z) (n : nat) (position : Z) : completion (list Z) :=
  if position <? 0 then Throw ShortRead
  else
    let bytes := readSync file n position in
    if (length bytes =? n)%nat then Ok bytes else Throw ShortRead.

Record state : Type := {
  file : list Z;                (* the bytes behind the open descriptor *)
  metadata : option value;
  dataStartOffset : Z;
  dataEndOffset : Z
}.

Definition readHeader (file : list Z) : completion Z :=
  magicBuf <- read_exact file 8 0 ;;
  if negb (ascii_equals magicBuf MAGIC) then Throw BadMagic
  else
    versionBuf <- read_exact file 1 8 ;;
    let version := nth 0 versionBuf 0 in
    if negb (version =? VERSION) then Throw (UnsupportedVersion version)
    else Ok 9.

Section Codec.

(** [unpacker.decode] of the schema-less decoder; [None] when it throws. *)
Variable decode : list Z -> option value.

Definition readMetadata (file : list Z) : completion (value * Z) :=
  let fileSize := Z.of_nat (length file) in
  metadataLengthBuf <- read_exact file 4 (fileSize - 4) ;;
  let metadataLength := readUInt32LE metadataLengthBuf in
  metadataBuf <- read_exact file (Z.to_nat metadataLength)
                            (fileSize - 4 - metadataLength) ;;
  match decode metadataBuf with
  | None => Throw DecodeFailed
  | Some decoded => Ok (mapToObject decoded, fileSize - 4 - metadataLength)
  end.

(** [open()] on a reader that is not open yet. *)
Definition open (file : list Z) : completion state :=
  dataStart <- readHeader file ;;
  r <- readMetadata file ;;
  Ok {| file := file; metadata := Some (fst r);
        dataStartOffset := dataStart; dataEndOffset := snd r |}.

(** The loop of [readPackets], collecting what the generator yields. Every
    turn moves [position] forward, so [turns] bounds the loop without cutting
    it short when it is at least [dataEndOffset - position]. *)
Fixpoint readPackets_loop (r : state) (turns : nat) (position currentTimestamp : Z)
  : completion (list PacketRecord) :=
  match turns with
  | O => Ok []
  | S turns' =>
      if position <? dataEndOffset r then
        let varintBuf := readSync (file r) 5 position in
        if (length varintBuf =? 0)%nat then Ok []
        else
          match Varint.decodeVarint varintBuf 0 with
          | Throw e =>
              (* the decoder ran into the part of the buffer no read filled *)
              if (length varintBuf <? 5)%nat then Throw ShortRead else Throw e
          | Ok (delta, varintBytes) =>
              let position := position + Z.of_nat varintBytes in
              let currentTimestamp := currentTimestamp + delta in
              packetIdBuf <- read_exact (file r) 1 position ;;
              let position := position + 1 in
              let packetId := nth 0 packetIdBuf 0 in
              match lookup_id ID_TO_PACKET packetId with
              | None => Throw (UnknownPacketId packetId (position - 1))
              | Some name =>
                  dataLengthBuf <- read_exact (file r) 4 position ;;
                  let position := position + 4 in
                  let dataLength := readUInt32LE dataLengthBuf in
                  dataBuf <- read_exact (file r) (Z.to_nat dataLength) position ;;
                  let position := position + dataLength in
                  match decode dataBuf with
                  | None => Throw DecodeFailed
                  | Some decoded =>
                      data <- deserializeData decoded ;;
                      rest <- readPackets_loop r turns' position currentTimestamp ;;
                      Ok ({| timestamp := currentTimestamp; name := name;
                             data := data |} :: rest)
                  end
              end
          end
      else Ok []
  end.

(** [readAllSync()]: every record [readPackets()] yields. *)
Definition readAllSync (r : state) : completion (list PacketRecord) :=
  readPackets_loop r (Z.to_nat (dataEndOffset r - dataStartOffset r))
                   (dataStartOffset r) 0.

(** Loading a replay as [ReplayPlayer.initialize] does: [open()],
    [getMetadata()], [readAllSync()]. *)
Definition load (file : list Z) : completion (option value * list PacketRecord) :=
  r <- open file ;;
  packets <- readAllSync r ;;
  Ok (metadata r, packets).

End Codec.

End BinaryReplayReader.

(** ** A sample schema-less codec

    The encoder and decoder are parameters of the container (the code takes
    them from a library). To run the container on concrete inputs, this small
    tag-length-value codec stands in for them. *)

Module SampleCodec.

Import Payload Format.
Local Open Scope Z_scope.

Definition u32 (n : nat) : list Z :=
  let v := Z.of_nat n in
  [v mod 256; v / 256 mod 256; v / 65536 mod 256; v / 16777216 mod 256].

Definition text (s : string) : list Z := u32 (String.length s) ++ bytes_of_string s.

Fixpoint encode (v : value) : list Z :=
  match v with
  | VUndefined => [0]
  | VNull => [1]
  | VBool false => [2]
  | VBool true => [3]
  | VNum n => 4 :: text (string_of_Z n)
  | VStr s => 5 :: text s
  | VBuf bytes => 6 :: u32 (length bytes) ++ bytes
  | VArr items => 7 :: u32 (length items) ++ flat_map encode items
  | VObj props =>
      8 :: u32 (length props)
        ++ flat_map (fun kv => text (fst kv) ++ encode (snd kv)) props
  end.

Definition take_u32 (input : list Z) : option (nat * list Z) :=
  match input with
  | a :: b :: c :: d :: rest =>
      Some (Z.to_nat (a + b * 256 + c * 65536 + d * 16777216), rest)
  | _ => None
  end.

Definition take_bytes (input : list Z) : option (list Z * list Z) :=
  match take_u32 input with
  | Some (n, rest) =>
      if (n <=? length rest)%nat then Some (firstn n rest, skipn n rest) else None
  | None => None
  end.

Definition take_text (input : list Z) : option (string * list Z) :=
  match take_bytes input with
  | Some (bytes, rest) => Some (string_of_bytes bytes, rest)
  | None => None
  end.

Section Repeat.

Variable A : Type.
Variable one : list Z -> option (A * list Z).

Fixpoint repeated (count : nat) (input : list Z) : option (list A * list Z) :=
  match count with
  | O => Some ([], input)
  | S count' =>
      match one input with
      | Some (a, input') =>
          match repeated count' input' with
          | Some (l, input'') => Some (a :: l, input'')
          | None => None
          end
      | None => None
      end
  end.

End Repeat.
Arguments repeated {A} one count input.

Fixpoint parse (depth : nat) (input : list Z) : option (value * list Z) :=
  match depth, input with
  | O, _ => None
  | _, [] => None
  | S depth', tag :: rest =>
      if tag =? 0 then Some (VUndefined, rest)
      else if tag =? 1 then Some (VNull, rest)
      else if tag =? 2 then Some (VBool false, rest)
      else if tag =? 3 then Some (VBool true, rest)
      else if tag =? 4 then
        match take_text rest with
        | Some (s, rest') =>
            match NilZero.int_of_string s with
            | Some n => Some (VNum (Z.of_int n), rest')
            | None => None
            end
        | None => None
        end
      else if tag =? 5 then
        match take_text rest with
        | Some (s, rest') => Some (VStr s, rest')
        | None => None
        end
      else if tag =? 6 then
        match take_bytes rest with
        | Some (bytes, rest') => Some (VBuf bytes, rest')
        | None => None
        end
      else if tag =? 7 then
        match take_u32 rest with
        | Some (count, rest') =>
            match repeated (parse depth') count rest' with
            | Some (vs, rest'') => Some (VArr vs, rest'')
            | None => None
            end
        | None => None
        end
      else if tag =? 8 then
        match take_u32 rest with
        | Some (count, rest') =>
            match repeated (fun input =>
                              match take_text input with
                              | Some (key, input') =>
                                  match parse depth' input' with
                                  | Some (v, input'') => Some ((key, v), input'')
                                  | None => None
                                  end
                              | None => None
                              end) count rest' with
            | Some (kvs, rest'') => Some (VObj kvs, rest'')
            | None => None
            end
        | None => None
        end
      else None
  end.

Definition decode (input : list Z) : option value :=
  match parse (S (length input)) input with
  | Some (v, []) => Some v
  | _ => None
  end.

End SampleCodec.

(** ** Vocabulary of the statements about writing and reading back *)

Module RoundTripSpec.

Import Payload Format.
Local Open Scope Z_scope.

(** The packet name is one of the table. *)
Definition known (r : PacketRecord) : Prop :=
  lookup_name PACKET_IDS (name r) <> None.

(** Every record is at most [2^31 - 1] ms after the one before (the first one
    after [last]) and not before it. *)
Fixpoint deltas_ok (last : Z) (records : list PacketRecord) : Prop :=
  match records with
  | [] => True
  | r :: records' =>
      0 <= timestamp r - last < 2 ^ 31 /\ deltas_ok (timestamp r) records'
  end.

Section Codec.

Variable encode : value -> list Z.
Variable decode : list Z -> option value.

(** The contract the code relies on, for one value: the decoder gives back
    what the encoder was given, and the encoding fits a [u32] length. *)
Definition codec_carries (v : value) : Prop :=
  decode (encode v) = Some v /\ Z.of_nat (length (encode v)) <= 0xFFFFFFFF.

(** The same for the normalized form of a payload. *)
Definition carries_payload (P : value) : Prop :=
  match serializeData P with
  | Ok s => codec_carries s
  | Throw _ => True
  end.

(** The file a recording leaves: [writeHeader], [writePacket] for each record,
    [close(metadata)] on the file-backed writer. *)
Definition recording (records : list PacketRecord) (metadata : ReplayMetadata)
  : list (option exn) * BinaryReplayWriter.state :=
  BinaryReplayWriter.session encode (WriteHeader :: map WritePacket records)
    metadata BinaryReplayWriter.create.

Definition recorded (records : list PacketRecord) (metadata : ReplayMetadata)
  : list Z :=
  BinaryReplayWriter.file_bytes (snd (recording records metadata)).

(** The bytes [writePacket] emits for a record that follows one at [last]. *)
Definition frame (last : Z) (r : PacketRecord) : list Z :=
  match packet_id_of (name r), serializeData (data r) with
  | Some packetId, Ok serialized =>
      match writeUInt32LE (Z.of_nat (length (encode serialized))) with
      | Ok dataLengthBuf =>
          Varint.encodeVarint (timestamp r - last) ++ [packetId]
            ++ dataLengthBuf ++ encode serialized
      | Throw _ => []
      end
  | _, _ => []
  end.

Fixpoint frames (last : Z) (records : list PacketRecord) : list Z :=
  match records with
  | [] => []
  | r :: records' => frame last r ++ frames (timestamp r) records'
  end.

End Codec.

End RoundTripSpec.

(** ** Sample inputs, on which the statements below are run *)

Module Samples.

Import Payload Format.
Local Open Scope string_scope.
Local Open Scope Z_scope.

Definition sample_metadata : ReplayMetadata :=
  {| spawnPosition := (0, 64, 0); startTime := 1000; endTime := 2500;
     botUsername := "b"; mcVersion := "1.8.9" |}.

Definition chat_record : PacketRecord :=
  {| timestamp := 0; name := "chat"; data := VObj [("msg", VStr "hi")] |}.

Definition block_record : PacketRecord :=
  {| timestamp := 1500; name := "block_change";
     data := VObj [("x", VNum 1); ("y", VNum 2); ("z", VNum 3)] |}.

Definition image_record : PacketRecord :=
  {| timestamp := 1500; name := "map_chunk";
     data := VObj [("x", VNum 0); ("z", VNum (-1));
                   ("img", VBuf [0; 255; 16; 32; 7])] |}.

Definition sample_records : list PacketRecord :=
  [chat_record; block_record; image_record].

(** A payload that already has the shape of the blob envelope. *)
Definition envelope_record : PacketRecord :=
  {| timestamp := 0; name := "chat";
     data := VObj [("__type", VStr "Buffer"); ("__data", VStr "AQID")] |}.

(** A spawn record without [entityId] and a destroy record without
    [entityIds]. *)
Definition spawn_without_id : PacketRecord :=
  {| timestamp := 100; name := "spawn_entity"; data := VObj [("type", VNum 1)] |}.

Definition destroy_without_ids : PacketRecord :=
  {| timestamp := 500; name := "entity_destroy"; data := VObj [] |}.

(** A record older than the writer's last timestamp. *)
Definition late_record : PacketRecord :=
  {| timestamp := 5; name := "chat"; data := VObj [("msg", VStr "hi")] |}.

(** A file-backed writer after [writeHeader] and a record at 10 ms. *)
Definition writer_at_10 : BinaryReplayWriter.state :=
  {| BinaryReplayWriter.stream := [[77; 67; 82; 69; 80; 76; 65; 89]; [1];
                                   [10]; [15]; [1; 0; 0; 0]; [1]];
     BinaryReplayWriter.ended := false;
     BinaryReplayWriter.bytesWritten := 16;
     BinaryReplayWriter.packetCount := 1;
     BinaryReplayWriter.headerWritten := true;
     BinaryReplayWriter.lastTimestamp := 10 |}.

End Samples.

(** ** JavaScript numbers that hold times and speeds *)

Module Number.

Local Open Scope Z_scope.

(** A number as the player's clock, seek targets and speeds hold it: a finite
    value (every finite double is a rational), [NaN] or an infinity. The
    operations the player applies to these numbers (comparison, [Math.max],
    [Math.min]) are exact on doubles. *)
Inductive number : Type :=
| Finite (q : Q)
| NaN
| Infinity
| NegInfinity.

Definition of_Z (z : Z) : number := Finite (inject_Z z).

Coercion of_Z : Z >-> number.
Coercion Finite : Q >-> number.

(** [a > b]: [false] when either side is [NaN]. *)
Definition greater (a b : number) : bool :=
  match a with
  | NaN => false
  | NegInfinity => false
  | Infinity =>
      match b with
      | Finite _ | NegInfinity => true
      | NaN | Infinity => false
      end
  | Finite x =>
      match b with
      | Finite y => match (x ?= y)%Q with Gt => true | _ => false end
      | NegInfinity => true
      | NaN | Infinity => false
      end
  end.

Definition is_NaN (a : number) : bool :=
  match a with NaN => true | _ => false end.

(** [Math.max(a, b)] *)
Definition Math_max (a b : number) : number :=
  if is_NaN a || is_NaN b then NaN else if greater b a then b else a.

(** [Math.min(a, b)] *)
Definition Math_min (a b : number) : number :=
  if is_NaN a || is_NaN b then NaN else if greater a b then b else a.

End Number.

(** ** server.ts: the replay player *)

Module ReplayPlayer.

Import Payload Format Number.
Local Open Scope string_scope.
Local Open Scope list_scope.
Local Open Scope Z_scope.

(** *** JavaScript values as set elements and as parts of a template string *)

(** SameValueZero, the equality of [Set]. On scalars it is equality of the
    values; objects, which JavaScript compares by identity, are compared by
    structure here (a payload tree carries no identities). *)
Fixpoint value_eqb (a b : value) : bool :=
  match a, b with
  | VUndefined, VUndefined => true
  | VNull, VNull => true
  | VBool x, VBool y => Bool.eqb x y
  | VNum x, VNum y => x =? y
  | VStr x, VStr y => String.eqb x y
  | VBuf x, VBuf y =>
      if list_eq_dec Z.eq_dec x y then true else false
  | VArr x, VArr y =>
      (fix all2 (l1 l2 : list value) : bool :=
         match l1, l2 with
         | [], [] => true
         | u :: l1', v :: l2' => value_eqb u v && all2 l1' l2'
         | _, _ => false
         end) x y
  | VObj x, VObj y =>
      (fix all2 (l1 l2 : list (string * value)) : bool :=
         match l1, l2 with
         | [], [] => true
         | (j, u) :: l1', (k, v) :: l2' =>
             String.eqb j k && value_eqb u v && all2 l1' l2'
         | _, _ => false
         end) x y
  | _, _ => false
  end.

(** ToString, as a template literal applies it; [Throw TypeError] when the
    conversion finds no usable [toString] (an own property of that name hides
    the built-in method, and no value of the model is callable). A buffer's
    text is taken byte by byte, which is exact on ASCII contents; a number's
    text is its decimal digits, which is how JavaScript prints an integer
    below [10^21] (from there on it prints an exponent). *)
Fixpoint js_to_string (v : value) : completion string :=
  match v with
  | VUndefined => Ok "undefined"
  | VNull => Ok "null"
  | VBool true => Ok "true"
  | VBool false => Ok "false"
  | VNum n => Ok (string_of_Z n)
  | VStr s => Ok s
  | VBuf bytes => Ok (string_of_bytes bytes)
  | VArr items =>
      (fix join (l : list value) : completion string :=
         match l with
         | [] => Ok ""
         | x :: l' =>
             s <- match x with
                  | VUndefined | VNull => Ok ""
                  | _ => js_to_string x
                  end ;;
             match l' with
             | [] => Ok s
             | _ :: _ => s' <- join l' ;; Ok (s ++ "," ++ s')%string
             end
         end) items
  | VObj props =>
      if has_own props "toString" then Throw TypeError else Ok "[object Object]"
  end.

(** *** [Map] and [Set] *)

Section JsMap.

Variable V : Type.

Fixpoint map_get (m : list (string * V)) (key : string) : option V :=
  match m with
  | [] => None
  | (k, v) :: m' => if String.eqb k key then Some v else map_get m' key
  end.

(** [m.set(key, v)]: an existing key keeps its place. *)
Fixpoint map_set (key : string) (v : V) (m : list (string * V)) : list (string * V) :=
  match m with
  | [] => [(key, v)]
  | (k, w) :: m' =>
      if String.eqb k key then (k, v) :: m' else (k, w) :: map_set key v m'
  end.

Definition map_has (m : list (string * V)) (key : string) : bool :=
  match map_get m key with Some _ => true | None => false end.

End JsMap.
Arguments map_get {V} m key.
Arguments map_set {V} key v m.
Arguments map_has {V} m key.

Definition set_add (v : value) (s : list value) : list value :=
  if existsb (value_eqb v) s then s else s ++ [v].

Definition set_delete (v : value) (s : list value) : list value :=
  filter (fun w => negb (value_eqb v w)) s.

(** *** The world-state projection *)

Record Projection : Type := {
  recentPackets : list PacketRecord;
  worldState : list (string * list PacketRecord);
  activeEntityIds : list value;
  chunkMap : list (string * PacketRecord)
}.

(** The state after [seekToTime] has reset it. *)
Definition cleared : Projection :=
  {| recentPackets := []; worldState := []; activeEntityIds := []; chunkMap := [] |}.

Definition set_recentPackets (l : list PacketRecord) (w : Projection) : Projection :=
  {| recentPackets := l; worldState := worldState w;
     activeEntityIds := activeEntityIds w; chunkMap := chunkMap w |}.

Definition set_worldState (m : list (string * list PacketRecord)) (w : Projection)
  : Projection :=
  {| recentPackets := recentPackets w; worldState := m;
     activeEntityIds := activeEntityIds w; chunkMap := chunkMap w |}.

Definition set_activeEntityIds (s : list value) (w : Projection) : Projection :=
  {| recentPackets := recentPackets w; worldState := worldState w;
     activeEntityIds := s; chunkMap := chunkMap w |}.

Definition set_chunkMap (m : list (string * PacketRecord)) (w : Projection) : Projection :=
  {| recentPackets := recentPackets w; worldState := worldState w;
     activeEntityIds := activeEntityIds w; chunkMap := m |}.

(** [if (!this.worldState.has(key)) this.worldState.set(key, []);
     this.worldState.get(key)!.push(packet)] *)
Definition push_state (key : string) (packet : PacketRecord)
  (m : list (string * list PacketRecord)) : list (string * list PacketRecord) :=
  let m := if map_has m key then m else map_set key [] m in
  match map_get m key with
  | Some list => map_set key (list ++ [packet]) m
  | None => m
  end.

Definition is_spawn (name : string) : bool :=
  String.eqb name "named_entity_spawn" || String.eqb name "spawn_entity_living"
  || String.eqb name "spawn_entity".

Definition statePacketTypes : list string :=
  ["named_entity_spawn"; "spawn_entity_living"; "spawn_entity"; "player_info"].

Definition is_undefined (v : value) : bool :=
  match v with VUndefined => true | _ => false end.

(** [trackWorldStatePacket]. Reading a property of [packet.data] throws when
    the data is [null] or [undefined]; for every packet name the first such
    read comes before any update, so a call that throws leaves the projection
    as it was. *)
Definition trackWorldStatePacket (packet : PacketRecord) (w : Projection)
  : completion Projection :=
  w <- (if is_spawn (name packet) then
          entityId <- get_prop (data packet) "entityId" ;;
          if is_undefined entityId then Ok w
          else Ok (set_activeEntityIds (set_add entityId (activeEntityIds w)) w)
        else if String.eqb (name packet) "entity_destroy" then
          entityIds <- get_prop (data packet) "entityIds" ;;
          match entityIds with
          | VArr ids =>
              Ok (set_activeEntityIds
                    (fold_left (fun s id => set_delete id s) ids (activeEntityIds w)) w)
          | _ => Ok w
          end
        else Ok w) ;;
  w <- (if String.eqb (name packet) "map_chunk" then
          x <- get_prop (data packet) "x" ;;
          if is_undefined x then Ok w
          else
            z <- get_prop (data packet) "z" ;;
            if is_undefined z then Ok w
            else
              sx <- js_to_string x ;;
              sz <- js_to_string z ;;
              let chunkKey := (sx ++ "," ++ sz)%string in
              Ok (set_chunkMap (map_set chunkKey packet (chunkMap w)) w)
        else if String.eqb (name packet) "map_chunk_bulk" then
          Ok (set_worldState (push_state "map_chunk_bulk" packet (worldState w)) w)
        else Ok w) ;;
  if existsb (String.eqb (name packet)) statePacketTypes
  then Ok (set_worldState (push_state (name packet) packet (worldState w)) w)
  else Ok w.

(** [this.recentPackets.push(packet); if (length > max) this.recentPackets.shift()] *)
Definition push_recent (maxRecentPackets : nat) (packet : PacketRecord)
  (w : Projection) : Projection :=
  let recent := recentPackets w ++ [packet] in
  set_recentPackets
    (if (maxRecentPackets <? length recent)%nat then tl recent else recent) w.

(** *** Viewers and events *)

(** A connected viewer: what has been written to it, and which writes its
    protocol encoder refuses (then [client.write] throws). *)
Record Client : Type := {
  client_id : Z;
  write_throws : string -> value -> bool;
  written : list (string * value)
}.

Definition client_write (name : string) (data : value) (c : Client) : completion Client :=
  if write_throws c name data then Throw SinkError
  else Ok {| client_id := client_id c; write_throws := write_throws c;
             written := written c ++ [(name, data)] |}.

(** What [emit] is called with. The arguments of [PlaybackSpeed] are the
    first and the second argument of the ["playback:speed"] event. *)
Inductive event : Type :=
| PlaybackStart (currentTime : number)
| PlaybackPause (currentTime : number)
| PlaybackSeek (fromTime toTime : number)
| PlaybackSpeed (first second : number)
| PlaybackEnd
| PlaybackProgress (currentPacket totalPackets : nat) (currentTime : number)
| ErrorEvent (error : exn) (context : string).

(** *** The player *)

Record Player : Type := {
  metadata : option ReplayMetadata;
  packets : list PacketRecord;
  clients : list Client;            (* [this.clients.values()], in order *)
  onError : bool;                   (* a listener is registered for ["error"]
                                       ([player.on("error", ...)]) *)
  playing : bool;
  currentTime : number;
  playbackSpeed : number;
  packetIndex : nat;
  maxRecentPackets : nat;
  projection : Projection;          (* recentPackets, worldState,
                                       activeEntityIds, chunkMap *)
  emitted : list event              (* what [emit] has been called with *)
}.

(** A player that has loaded a replay and nothing else: no viewer, no
    listener. *)
Definition loaded (metadata : option ReplayMetadata) (packets : list PacketRecord)
  : Player :=
  {| metadata := metadata; packets := packets; clients := []; onError := false;
     playing := false; currentTime := 0; playbackSpeed := 1; packetIndex := 0;
     maxRecentPackets := 1000; projection := cleared; emitted := [] |}.

Definition set_clients (l : list Client) (p : Player) : Player :=
  {| metadata := metadata p; packets := packets p; clients := l;
     onError := onError p; playing := playing p; currentTime := currentTime p;
     playbackSpeed := playbackSpeed p; packetIndex := packetIndex p;
     maxRecentPackets := maxRecentPackets p; projection := projection p;
     emitted := emitted p |}.

(** [player.on("error", listener)] *)
Definition set_onError (b : bool) (p : Player) : Player :=
  {| metadata := metadata p; packets := packets p; clients := clients p;
     onError := b; playing := playing p; currentTime := currentTime p;
     playbackSpeed := playbackSpeed p; packetIndex := packetIndex p;
     maxRecentPackets := maxRecentPackets p; projection := projection p;
     emitted := emitted p |}.

Definition set_playing (b : bool) (p : Player) : Player :=
  {| metadata := metadata p; packets := packets p; clients := clients p;
     onError := onError p; playing := b; currentTime := currentTime p;
     playbackSpeed := playbackSpeed p; packetIndex := packetIndex p;
     maxRecentPackets := maxRecentPackets p; projection := projection p;
     emitted := emitted p |}.

Definition set_currentTime (t : number) (p : Player) : Player :=
  {| metadata := metadata p; packets := packets p; clients := clients p;
     onError := onError p; playing := playing p; currentTime := t;
     playbackSpeed := playbackSpeed p; packetIndex := packetIndex p;
     maxRecentPackets := maxRecentPackets p; projection := projection p;
     emitted := emitted p |}.

Definition set_playbackSpeed (s : number) (p : Player) : Player :=
  {| metadata := metadata p; packets := packets p; clients := clients p;
     onError := onError p; playing := playing p; currentTime := currentTime p;
     playbackSpeed := s; packetIndex := packetIndex p;
     maxRecentPackets := maxRecentPackets p; projection := projection p;
     emitted := emitted p |}.

Definition set_packetIndex (i : nat) (p : Player) : Player :=
  {| metadata := metadata p; packets := packets p; clients := clients p;
     onError := onError p; playing := playing p; currentTime := currentTime p;
     playbackSpeed := playbackSpeed p; packetIndex := i;
     maxRecentPackets := maxRecentPackets p; projection := projection p;
     emitted := emitted p |}.

Definition set_projection (w : Projection) (p : Player) : Player :=
  {| metadata := metadata p; packets := packets p; clients := clients p;
     onError := onError p; playing := playing p; currentTime := currentTime p;
     playbackSpeed := playbackSpeed p; packetIndex := packetIndex p;
     maxRecentPackets := maxRecentPackets p; projection := w;
     emitted := emitted p |}.

(** [this.emit(...)]. The listeners registered for an event are the caller's
    functions; they are taken to return. For the ["error"] event
    [EventEmitter.emit] throws the error it is given when no listener is
    registered: the functions below that report an error take [onError] as
    [listening] and say what is thrown. *)
Definition emit (e : event) (p : Player) : Player :=
  {| metadata := metadata p; packets := packets p; clients := clients p;
     onError := onError p; playing := playing p; currentTime := currentTime p;
     playbackSpeed := playbackSpeed p; packetIndex := packetIndex p;
     maxRecentPackets := maxRecentPackets p; projection := projection p;
     emitted := emitted p ++ [e] |}.

(** *** Writing to viewers *)

(** What a run of writes to a viewer leaves: the viewer, the ["error"] events
    emitted on the way, and the error that ended the run, if one did. *)
Definition writes : Type := Client * list event * option exn.

(** One [client.write] in its own [try]: a failure is reported with
    [emit("error", err, context)], which throws [err] when nobody listens. *)
Definition write_reported (listening : bool) (context : string)
  (c : Client) (evs : list event) (packet : PacketRecord) : writes :=
  match client_write (name packet) (data packet) c with
  | Ok c' => (c', evs, None)
  | Throw e =>
      (c, evs ++ [ErrorEvent e (context ++ name packet)],
       if listening then None else Some e)
  end.

(** A loop of such writes, from where the writes before it have left the
    viewer; an error that [emit] throws ends it. *)
Fixpoint write_each (listening : bool) (context : string)
  (packets : list PacketRecord) (r : writes) : writes :=
  match r with
  | (_, _, Some _) => r
  | (c, evs, None) =>
      match packets with
      | [] => r
      | packet :: packets' =>
          write_each listening context packets'
            (write_reported listening context c evs packet)
      end
  end.

(** Several [client.write] calls in one [try]: the first failure ends them. *)
Fixpoint write_block (frames : list (string * value)) (c : Client) : Client * option exn :=
  match frames with
  | [] => (c, None)
  | (name, data) :: frames' =>
      match client_write name data c with
      | Ok c' => write_block frames' c'
      | Throw e => (c, Some e)
      end
  end.

Definition respawn_frame (dimension : Z) : string * value :=
  ("respawn", VObj [("dimension", VNum dimension); ("difficulty", VNum 2);
                    ("gamemode", VNum 3); ("levelType", VStr "default")]).

Definition spawn_frames (m : ReplayMetadata) : list (string * value) :=
  let '(x, y, z) := spawnPosition m in
  [ ("spawn_position",
     VObj [("location", VObj [("x", VNum x); ("y", VNum y); ("z", VNum z)])]);
    ("position",
     VObj [("x", VNum x); ("y", VNum y); ("z", VNum z); ("yaw", VNum 0);
           ("pitch", VNum 0); ("flags", VNum 0)]) ].

(** [this.worldState.get(key) || []] *)
Definition state_list (w : Projection) (key : string) : list PacketRecord :=
  match map_get (worldState w) key with Some l => l | None => [] end.

(** [syncClientToCurrentState(client, clearEntities)]: the viewer afterwards,
    the error events emitted on the way and, when [emit] threw one of them,
    the error that ended the call. *)
Definition syncClientToCurrentState (p : Player) (client : Client)
  (clearEntities : bool) : writes :=
  let w := projection p in
  let listening := onError p in
  let r : writes :=
    if clearEntities then
      let frames :=
        [respawn_frame (-1); respawn_frame 0]
          ++ match metadata p with Some m => spawn_frames m | None => [] end in
      match write_block frames client with
      | (c, None) => (c, [], None)
      | (c, Some e) =>
          (c, [ErrorEvent e "dimension_switch"], if listening then None else Some e)
      end
    else (client, [], None) in
  let chunkPackets := map snd (chunkMap w) in
  let chunkBulkPackets := state_list w "map_chunk_bulk" in
  let playerInfoPackets := state_list w "player_info" in
  let entitySpawnPackets :=
    state_list w "named_entity_spawn" ++ state_list w "spawn_entity_living"
      ++ state_list w "spawn_entity" in
  let r := write_each listening "sync:" (chunkPackets ++ chunkBulkPackets) r in
  let r := write_each listening "sync:" playerInfoPackets r in
  let r := write_each listening "sync:" entitySpawnPackets r in
  if clearEntities then r
  else write_each listening "sync:" (recentPackets w) r.

(** The same for every viewer in turn, up to the first call that throws. *)
Fixpoint sync_all (p : Player) (cs : list Client) (clearEntities : bool)
  : list Client * list event * option exn :=
  match cs with
  | [] => ([], [], None)
  | c :: cs' =>
      match syncClientToCurrentState p c clearEntities with
      | (c', evs, Some e) => (c' :: cs', evs, Some e)
      | (c', evs, None) =>
          let '(cs'', evs', thrown) := sync_all p cs' clearEntities in
          (c' :: cs'', evs ++ evs', thrown)
      end
  end.

(** [replayPacket]'s loop over the viewers. *)
Fixpoint broadcast (listening : bool) (packet : PacketRecord) (cs : list Client)
  : list Client * list event * option exn :=
  match cs with
  | [] => ([], [], None)
  | c :: cs' =>
      match write_reported listening "packet_replay:" c [] packet with
      | (c', evs, Some e) => (c' :: cs', evs, Some e)
      | (c', evs, None) =>
          let '(cs'', evs', thrown) := broadcast listening packet cs' in
          (c' :: cs'', evs ++ evs', thrown)
      end
  end.

Definition emit_all (evs : list event) (p : Player) : Player :=
  fold_left (fun p e => emit e p) evs p.

(** *** Playback *)

(** What [replayPacket] does to the projection: the packet enters the ring of
    recent packets, then it is tracked. *)
Definition replay_projection (maxRecentPackets : nat) (packet : PacketRecord)
  (w : Projection) : Projection * option exn :=
  let w := push_recent maxRecentPackets packet w in
  match trackWorldStatePacket packet w with
  | Ok w' => (w', None)
  | Throw e => (w, Some e)
  end.

Definition replayPacket (packet : PacketRecord) (p : Player) : outcome Player :=
  match replay_projection (maxRecentPackets p) packet (projection p) with
  | (w, Some e) => Throws e (set_projection w p)
  | (w, None) =>
      let p := set_projection w p in
      let '(cs, evs, thrown) := broadcast (onError p) packet (clients p) in
      let p := emit_all evs (set_clients cs p) in
      match thrown with
      | None => Returns p
      | Some e => Throws e p
      end
  end.

(** The [while] loop of [playbackLoop], on the packets from [packetIndex] on;
    [processed] is whether [packetsProcessed > 0]. *)
Fixpoint playback_while (rest : list PacketRecord) (processed : bool) (p : Player)
  : outcome (bool * Player) :=
  match rest with
  | [] => Returns (processed, p)
  | packet :: rest' =>
      if greater (timestamp packet) (currentTime p) then Returns (processed, p)
      else
        match replayPacket packet p with
        | Throws e p' => Throws e (processed, p')
        | Returns p' =>
            playback_while rest' true (set_packetIndex (S (packetIndex p')) p')
        end
  end.

(** One turn of [playbackLoop]. The wall clock is outside the model: the turn
    is given [realElapsed], the virtual time it computes as
    [(Date.now() - startRealTime) * playbackSpeed] (any number: [NaN] once the
    speed or the current time is [NaN]). The next turn, scheduled with
    [setImmediate], is another call. *)
Definition playbackLoop (realElapsed : number) (p : Player) : outcome Player :=
  if negb (playing p) then Returns p
  else
    let p := set_currentTime realElapsed p in
    match playback_while (skipn (packetIndex p) (packets p)) false p with
    | Throws e (_, p') => Throws e p'
    | Returns (processed, p) =>
        let p :=
          if processed && (packetIndex p mod 100 =? 0)%nat
          then emit (PlaybackProgress (packetIndex p) (length (packets p))
                                      (currentTime p)) p
          else p in
        if (length (packets p) <=? packetIndex p)%nat
        then Returns (emit PlaybackEnd (set_playing false p))
        else Returns p
    end.

(** [startPlayback]; [realElapsed] is for the turn of [playbackLoop] it runs. *)
Definition startPlayback (realElapsed : number) (p : Player) : outcome Player :=
  if playing p then Returns p
  else
    let p := set_playing true p in
    let p := emit (PlaybackStart (currentTime p)) p in
    playbackLoop realElapsed p.

Definition pausePlayback (p : Player) : Player :=
  if negb (playing p) then p
  else
    let p := set_playing false p in
    emit (PlaybackPause (currentTime p)) p.

(** The double that the literal [0.1] denotes. *)
Definition tenth : Q := 3602879701896397 # 36028797018963968.

(** [Math.max(0.1, Math.min(10, speed))] *)
Definition clamp_speed (speed : number) : number :=
  Math_max tenth (Math_min 10%Q speed).

Definition setPlaybackSpeed (realElapsed : number) (speed : number) (p : Player)
  : outcome Player :=
  let wasPlaying := playing p in
  let p := if wasPlaying then pausePlayback p else p in
  let p := set_playbackSpeed (clamp_speed speed) p in
  let p := emit (PlaybackSpeed (playbackSpeed p) speed) p in
  if wasPlaying then startPlayback realElapsed p else Returns p.

(** The rebuilding loop of [seekToTime] from index [i] on: the new packet
    index and the projection. [newIndex] is assigned only where the loop
    breaks. *)
Fixpoint seek_scan (targetTime : number) (rest : list PacketRecord) (i : nat)
  (w : Projection) : nat * Projection * option exn :=
  match rest with
  | [] => (0%nat, w, None)
  | packet :: rest' =>
      if greater (timestamp packet) targetTime then (i, w, None)
      else
        match trackWorldStatePacket packet w with
        | Ok w' => seek_scan targetTime rest' (S i) w'
        | Throw e => (0%nat, w, Some e)
        end
  end.

(** [(this.metadata?.endTime || 0) - (this.metadata?.startTime || 0)] *)
Definition maxTime (p : Player) : Z :=
  match metadata p with
  | Some m => endTime m - startTime m
  | None => 0
  end.

Definition seekToTime (realElapsed : number) (targetTime : number) (p : Player)
  : outcome Player :=
  let wasPlaying := playing p in
  let fromTime := currentTime p in
  let p := if wasPlaying then pausePlayback p else p in
  let targetTime := Math_max 0 (Math_min (maxTime p) targetTime) in
  let p := set_currentTime targetTime p in
  let p := set_projection cleared p in
  match seek_scan targetTime (packets p) 0 (projection p) with
  | (_, w, Some e) => Throws e (set_projection w p)
  | (newIndex, w, None) =>
      let p := set_projection w p in
      let p := set_packetIndex newIndex p in
      let p := emit (PlaybackSeek fromTime targetTime) p in
      let '(cs, evs, thrown) := sync_all p (clients p) true in
      let p := emit_all evs (set_clients cs p) in
      match thrown with
      | Some e => Throws e p
      | None => if wasPlaying then startPlayback realElapsed p else Returns p
      end
  end.

End ReplayPlayer.


(** ** Vocabulary of the statements about the player *)

Module PlayerSpec.

Import Payload Format Number ReplayPlayer.
Local Open Scope string_scope.
Local Open Scope Z_scope.

(** The payload is neither [null] nor [undefined]. *)
Definition has_data (packet : PacketRecord) : bool :=
  match data packet with
  | VNull | VUndefined => false
  | _ => true
  end.

Definition converts (v : value) : bool :=
  match js_to_string v with Ok _ => true | Throw _ => false end.

(** A [map_chunk] whose [x] and [z] are both present has coordinates that
    convert to strings. *)
Definition chunk_key_converts (packet : PacketRecord) : bool :=
  negb (String.eqb (name packet) "map_chunk")
  || match get_prop (data packet) "x", get_prop (data packet) "z" with
     | Ok x, Ok z => is_undefined x || is_undefined z || (converts x && converts z)
     | _, _ => true
     end.

(** Tracking records one after the other, up to the first that throws. *)
Fixpoint track_all (records : list PacketRecord) (w : Projection)
  : completion Projection :=
  match records with
  | [] => Ok w
  | r :: records' =>
      w' <- trackWorldStatePacket r w ;;
      track_all records' w'
  end.

(** Applying records as playback does (ring of recent packets included). *)
Fixpoint apply_all (maxRecentPackets : nat) (records : list PacketRecord)
  (w : Projection) : Projection * option exn :=
  match records with
  | [] => (w, None)
  | r :: records' =>
      match replay_projection maxRecentPackets r w with
      | (w', None) => apply_all maxRecentPackets records' w'
      | (w', Some e) => (w', Some e)
      end
  end.



(** The target time as [seekToTime] clamps it. *)
Definition clamped (t : number) (p : Player) : number :=
  Math_max 0 (Math_min (maxTime p) t).

(** The index of the first record with timestamp [> t], if any. *)
Fixpoint first_after (t : number) (records : list PacketRecord) (i : nat) : option nat :=
  match records with
  | [] => None
  | r :: records' =>
      if greater (timestamp r) t then Some i else first_after t records' (S i)
  end.

End PlayerSpec.

(** ** Short names for the three classes of [format.ts] *)

Module FW := BinaryReplayWriter.
Module MW := BinaryReplayMemoryWriter.
Module RD := BinaryReplayReader.

(** ** Shapes of payload trees *)

Module PayloadShape.

Import Payload.
Local Open Scope string_scope.

(** No byte blob anywhere in the tree. *)
Fixpoint blob_free (v : value) : bool :=
  match v with
  | VBuf _ => false
  | VArr items => forallb blob_free items
  | VObj props => forallb (fun kv => blob_free (snd kv)) props
  | _ => true
  end.

(** Some map of the tree has an own property named [hasOwnProperty]. *)
Fixpoint shadows (v : value) : bool :=
  match v with
  | VArr items => existsb shadows items
  | VObj props =>
      has_own props "hasOwnProperty" || existsb (fun kv => shadows (snd kv)) props
  | _ => false
  end.

(** A tree of plain objects: in every map the keys are distinct and none is
    [__proto__]. *)
Fixpoint plain (v : value) : bool :=
  match v with
  | VArr items => forallb plain items
  | VObj props =>
      Faithful.distinct (map fst props)
      && forallb (fun k => negb (String.eqb k "__proto__")) (map fst props)
      && forallb (fun kv => plain (snd kv)) props
  | _ => true
  end.

End PayloadShape.

(** ** Vocabulary of the statements about the writers' sessions *)

Module WriterSpec.

Import Payload Format.
Local Open Scope Z_scope.

(** [getStats()] of the two writer classes: [bytesWritten] and [packetCount]. *)
Definition getStats_file (w : FW.state) : Z * Z :=
  (FW.bytesWritten w, FW.packetCount w).

Definition getStats_memory (w : MW.state) : Z * Z :=
  (MW.bytesWritten w, MW.packetCount w).

(** The number of [writePacket] calls of a session that returned, given what
    each call threw. *)
Fixpoint packets_returned (calls : list call) (errors : list (option exn)) : Z :=
  match calls, errors with
  | WritePacket _ :: calls', None :: errors' => 1 + packets_returned calls' errors'
  | _ :: calls', _ :: errors' => packets_returned calls' errors'
  | _, _ => 0
  end.

(** The records of the [writePacket] calls under whose packet name
    [PACKET_IDS] holds something: the names of the table and the names
    inherited from [Object.prototype]. *)
Fixpoint accepted (calls : list call) : list PacketRecord :=
  match calls with
  | [] => []
  | WriteHeader :: calls' => accepted calls'
  | WritePacket r :: calls' =>
      match packet_id_of (name r) with
      | Some _ => r :: accepted calls'
      | None => accepted calls'
      end
  end.

(** What a call made after the header throws for a reason of protocol. *)
Definition verdict (c : call) : option exn :=
  match c with
  | WriteHeader => Some HeaderAlreadyWritten
  | WritePacket r =>
      match packet_id_of (name r) with
      | Some _ => None
      | None => Some (UnknownPacketName (name r))
      end
  end.

(** The id byte of the frame written for a packet name: the id of the table
    for a name of the table, [0] for a name that only [Object.prototype]
    has. *)
Definition id_byte (n : string) (id : Z) : Prop :=
  lookup_name PACKET_IDS n = Some id \/
  (lookup_name PACKET_IDS n = None /\ In n OBJECT_PROTOTYPE /\ id = 0).

Section Codec.

Variable encode : value -> list Z.

(** The payload normalizes and its encoding fits the [u32] length field. *)
Definition writable (r : PacketRecord) : Prop :=
  exists s, serializeData (data r) = Ok s /\
            Z.of_nat (length (encode s)) <= 0xFFFFFFFF.

End Codec.

(** The four bytes of [writeUInt32LE]. *)
Definition u32le (n : Z) : list Z :=
  [n mod 256; n / 256 mod 256; n / 65536 mod 256; n / 16777216 mod 256].

End WriterSpec.

(** *** BinaryReplayReader.getStats *)

Module ReaderStats.

Import Payload Format.
Local Open Scope string_scope.
Local Open Scope Z_scope.

Record Stats : Type := {
  fileSize : Z;
  packetCount : Z;
  byPacketType : list (string * (Z * Z));     (* name -> (count, bytes) *)
  totalPlayers : list value;                   (* the [Set], in insertion order *)
  chatMessages : Z
}.

(** What [getStats] throws: the error it builds in its [catch], or one of
    the errors of the reading steps. *)
Inductive failure : Type :=
| FailedToDecode (name : string) (offset : Z)
| Failed (e : exn).

(** ToBoolean. *)
Definition truthy (v : value) : bool :=
  match v with
  | VUndefined | VNull => false
  | VBool b => b
  | VNum n => negb (n =? 0)
  | VStr s => negb (String.eqb s "")
  | VBuf _ | VArr _ | VObj _ => true
  end.

(** [totalPlayers.add(v)]. A primitive is added once; an object
    that the decoder has just built is a new element of the set. *)
Definition players_add (v : value) (players : list value) : list value :=
  match v with
  | VBuf _ | VArr _ | VObj _ => players ++ [v]
  | _ => ReplayPlayer.set_add v players
  end.

(** The body of the [try] block, after the decoding: reads [playerName],
    [data] and the [name] of each element ([get_prop] holds for these names
    too: no built-in property of a string, an array or a buffer has one of
    them). *)
Definition collect_players (data : value) (players : list value)
  : completion (list value) :=
  playerName <- get_prop data "playerName" ;;
  let players :=
    if truthy playerName then players_add playerName players else players in
  entries <- get_prop data "data" ;;
  match entries with
  | VArr items =>
      fold_left (fun acc p =>
                   players <- acc ;;
                   n <- get_prop p "name" ;;
                   Ok (if truthy n then players_add n players else players))
                items (Ok players)
  | _ => Ok players
  end.

(** [if (!byPacketType[name]) byPacketType[name] = { count: 0, bytes: 0 };
     byPacketType[name].count++; byPacketType[name].bytes += packetBytes] *)
Definition count_packet (name : string) (packetBytes : Z)
  (table : list (string * (Z * Z))) : list (string * (Z * Z)) :=
  let '(count, bytes) :=
    match ReplayPlayer.map_get table name with
    | Some entry => entry
    | None => (0, 0)
    end in
  ReplayPlayer.map_set name (count + 1, bytes + packetBytes) table.

Section Codec.

Variable decode : list Z -> option value.

(** The loop of [getStats]. The data of a packet is only looked at for the
    two packet names that carry player names; an unknown packet id ends the
    loop without an error. As in [readPackets], every turn moves [position]
    forward. *)
Fixpoint getStats_loop (r : RD.state) (turns : nat) (position : Z) (acc : Stats)
  : failure + Stats :=
  match turns with
  | O => inr acc
  | S turns' =>
      if position <? RD.dataEndOffset r then
        let packetStartPos := position in
        let varintBuf := RD.readSync (RD.file r) 5 position in
        if (length varintBuf =? 0)%nat then inr acc
        else
          match Varint.decodeVarint varintBuf 0 with
          | Throw e =>
              if (length varintBuf <? 5)%nat then inl (Failed ShortRead)
              else inl (Failed e)
          | Ok (_, varintBytes) =>
              let position := position + Z.of_nat varintBytes in
              match RD.read_exact (RD.file r) 1 position with
              | Throw e => inl (Failed e)
              | Ok packetIdBuf =>
                  let position := position + 1 in
                  let packetId := nth 0 packetIdBuf 0 in
                  match lookup_id ID_TO_PACKET packetId with
                  | None => inr acc
                  | Some name =>
                      match RD.read_exact (RD.file r) 4 position with
                      | Throw e => inl (Failed e)
                      | Ok dataLengthBuf =>
                          let position := position + 4 in
                          let dataLength := readUInt32LE dataLengthBuf in
                          let dataPosition := position in
                          let position := position + dataLength in
                          let packetBytes := position - packetStartPos in
                          let acc :=
                            {| fileSize := fileSize acc;
                               packetCount := packetCount acc + 1;
                               byPacketType :=
                                 count_packet name packetBytes (byPacketType acc);
                               totalPlayers := totalPlayers acc;
                               chatMessages := chatMessages acc |} in
                          if String.eqb name "chat" then
                            getStats_loop r turns' position
                              {| fileSize := fileSize acc;
                                 packetCount := packetCount acc;
                                 byPacketType := byPacketType acc;
                                 totalPlayers := totalPlayers acc;
                                 chatMessages := chatMessages acc + 1 |}
                          else if String.eqb name "named_entity_spawn"
                                  || String.eqb name "player_info" then
                            match RD.read_exact (RD.file r) (Z.to_nat dataLength)
                                                dataPosition with
                            | Throw e => inl (Failed e)
                            | Ok dataBuf =>
                                match decode dataBuf with
                                | None => inl (FailedToDecode name packetStartPos)
                                | Some data =>
                                    match collect_players data (totalPlayers acc) with
                                    | Throw _ =>
                                        inl (FailedToDecode name packetStartPos)
                                    | Ok players =>
                                        getStats_loop r turns' position
                                          {| fileSize := fileSize acc;
                                             packetCount := packetCount acc;
                                             byPacketType := byPacketType acc;
                                             totalPlayers := players;
                                             chatMessages := chatMessages acc |}
                                    end
                                end
                            end
                          else getStats_loop r turns' position acc
                      end
                  end
              end
          end
      else inr acc
  end.

(** [getStats()] on an open reader. *)
Definition getStats (r : RD.state) : failure + Stats :=
  getStats_loop r (Z.to_nat (RD.dataEndOffset r - RD.dataStartOffset r))
    (RD.dataStartOffset r)
    {| fileSize := Z.of_nat (length (RD.file r)); packetCount := 0;
       byPacketType := []; totalPlayers := []; chatMessages := 0 |}.

End Codec.

(** The number of records with a given name. *)
Definition named (n : string) (records : list PacketRecord) : Z :=
  Z.of_nat (length (filter (fun r => String.eqb (name r) n) records)).

(** [byPacketType[name].count], [0] when the name has no entry. *)
Definition count_of (stats : Stats) (n : string) : Z :=
  match ReplayPlayer.map_get (byPacketType stats) n with
  | Some (count, _) => count
  | None => 0
  end.

End ReaderStats.

(** ** More sample inputs *)

Module MoreSamples.

Import Payload Format.
Local Open Scope string_scope.
Local Open Scope Z_scope.

Definition player_info_record : PacketRecord :=
  {| timestamp := 1600; name := "player_info";
     data := VObj [("action", VNum 0);
                   ("data", VArr [VObj [("name", VStr "alice")];
                                  VObj [("name", VStr "bob")]])] |}.

Definition spawn_record : PacketRecord :=
  {| timestamp := 1700; name := "named_entity_spawn";
     data := VObj [("entityId", VNum 7); ("playerName", VStr "alice")] |}.

Definition player_records : list PacketRecord :=
  [Samples.chat_record; player_info_record; spawn_record].

(** A header whose magic bytes have the high bit set. *)
Definition high_bit_header : list Z :=
  [205; 195; 210; 197; 208; 204; 193; 217; 1].

(** A replay with a chunk, a player who spawns and is removed, and a bulk
    chunk. *)
Definition chunk_record : PacketRecord :=
  {| timestamp := 10; name := "map_chunk";
     data := VObj [("x", VNum 0); ("z", VNum (-1)); ("v", VNum 1)] |}.

Definition early_spawn : PacketRecord :=
  {| timestamp := 100; name := "named_entity_spawn";
     data := VObj [("entityId", VNum 7); ("playerName", VStr "alice")] |}.

Definition bulk_record : PacketRecord :=
  {| timestamp := 400; name := "map_chunk_bulk"; data := VObj [("meta", VArr [])] |}.

Definition destroy_record : PacketRecord :=
  {| timestamp := 900; name := "entity_destroy";
     data := VObj [("entityIds", VArr [VNum 7])] |}.

Definition world_records : list PacketRecord :=
  [Samples.chat_record; chunk_record; early_spawn; bulk_record; destroy_record;
   Samples.block_record].

(** A viewer whose encoder takes everything, and one whose encoder refuses
    the packets of one name. *)
Definition viewer (id : Z) : ReplayPlayer.Client :=
  {| ReplayPlayer.client_id := id;
     ReplayPlayer.write_throws := fun _ _ => false;
     ReplayPlayer.written := [] |}.

Definition picky_viewer (id : Z) (refusedName : string) : ReplayPlayer.Client :=
  {| ReplayPlayer.client_id := id;
     ReplayPlayer.write_throws := fun n _ => String.eqb n refusedName;
     ReplayPlayer.written := [] |}.

End MoreSamples.

(** ** Vocabulary of the statements about playback and resynchronisation *)

Module PlaybackSpec.

Import Payload Format Number ReplayPlayer.
Local Open Scope string_scope.
Local Open Scope list_scope.
Local Open Scope Z_scope.

(** The records a playback turn replays at virtual time [t]: those from the
    cursor on, up to the first one with a later timestamp. *)
Fixpoint due (t : number) (rest : list PacketRecord) : list PacketRecord :=
  match rest with
  | [] => []
  | r :: rest' => if greater (timestamp r) t then [] else r :: due t rest'
  end.

(** The viewer's encoder takes the frame. *)
Definition takes (c : Client) (frame : string * value) : bool :=
  negb (write_throws c (fst frame) (snd frame)).

Definition frame_of (r : PacketRecord) : string * value := (name r, data r).

Definition accepts (c : Client) (r : PacketRecord) : bool := takes c (frame_of r).

(** Every refusal of a record of the list finds a listener, or there is
    none: a listener is registered for ["error"], or every viewer accepts
    every record. *)
Definition heard (p : Player) (records : list PacketRecord) : bool :=
  onError p || forallb (fun c => forallb (accepts c) records) (clients p).

(** A viewer with more frames written to it. *)
Definition sent (frames : list (string * value)) (c : Client) : Client :=
  {| client_id := client_id c; write_throws := write_throws c;
     written := written c ++ frames |}.

(** The viewer after the records it accepts, of a list written to it one by
    one, have been added. *)
Definition receives (records : list PacketRecord) (c : Client) : Client :=
  sent (map frame_of (filter (accepts c) records)) c.

(** The error events of the writes a viewer refuses. *)
Definition refused (context : string) (records : list PacketRecord) (c : Client)
  : list event :=
  map (fun r => ErrorEvent SinkError (context ++ name r))
      (filter (fun r => negb (accepts c r)) records).

(** The same for a broadcast: record by record, and viewer by viewer for each
    record. *)
Definition refusals (context : string) (records : list PacketRecord)
  (cs : list Client) : list event :=
  flat_map (fun r => flat_map (refused context [r]) cs) records.

(** The frames of a list up to the first one the viewer refuses. *)
Fixpoint taken_prefix (c : Client) (frames : list (string * value))
  : list (string * value) :=
  match frames with
  | [] => []
  | frame :: frames' => if takes c frame then frame :: taken_prefix c frames' else []
  end.

(** The frames of the dimension switch. *)
Definition switch_frames (metadata : option ReplayMetadata) : list (string * value) :=
  [respawn_frame (-1); respawn_frame 0]
    ++ match metadata with Some m => spawn_frames m | None => [] end.

(** The records a resynchronisation sends, in the order it sends them. *)
Definition sync_packets (w : Projection) (clearEntities : bool) : list PacketRecord :=
  map snd (chunkMap w) ++ state_list w "map_chunk_bulk"
    ++ state_list w "player_info"
    ++ state_list w "named_entity_spawn" ++ state_list w "spawn_entity_living"
    ++ state_list w "spawn_entity"
    ++ (if clearEntities then [] else recentPackets w).

(** Every frame a resynchronisation tries to write, in order. *)
Definition sync_frames (metadata : option ReplayMetadata) (w : Projection)
  (clearEntities : bool) : list (string * value) :=
  (if clearEntities then switch_frames metadata else [])
    ++ map frame_of (sync_packets w clearEntities).

(** The viewer after a resynchronisation in which every refusal is reported
    and passed over, and the events emitted for it. *)
Definition synced (metadata : option ReplayMetadata) (w : Projection)
  (clearEntities : bool) (c : Client) : Client :=
  receives (sync_packets w clearEntities)
    (if clearEntities then sent (taken_prefix c (switch_frames metadata)) c else c).

Definition sync_events (metadata : option ReplayMetadata) (w : Projection)
  (clearEntities : bool) (c : Client) : list event :=
  (if clearEntities && negb (forallb (takes c) (switch_frames metadata))
   then [ErrorEvent SinkError "dimension_switch"] else [])
    ++ refused "sync:" (sync_packets w clearEntities) c.

(** No viewer refuses a frame of its resynchronisation. *)
Definition sync_accepted (metadata : option ReplayMetadata) (w : Projection)
  (clearEntities : bool) (cs : list Client) : bool :=
  forallb (fun c => forallb (takes c) (sync_frames metadata w clearEntities)) cs.

(** The names under which [trackWorldStatePacket] keeps a log. *)
Definition logged (n : string) : bool :=
  String.eqb n "map_chunk_bulk" || existsb (String.eqb n) statePacketTypes.

(** The key under which a record enters [chunkMap], if it does. *)
Definition chunk_key (r : PacketRecord) : option string :=
  if String.eqb (name r) "map_chunk" then
    match get_prop (data r) "x" with
    | Ok x =>
        if is_undefined x then None
        else
          match get_prop (data r) "z" with
          | Ok z =>
              if is_undefined z then None
              else
                match js_to_string x with
                | Ok sx =>
                    match js_to_string z with
                    | Ok sz => Some (sx ++ "," ++ sz)%string
                    | Throw _ => None
                    end
                | Throw _ => None
                end
          | Throw _ => None
          end
    | Throw _ => None
    end
  else None.

Definition has_chunk_key (k : string) (r : PacketRecord) : bool :=
  match chunk_key r with
  | Some k' => String.eqb k' k
  | None => false
  end.

(** The player after [replayPacket] has gone through [batch] without an error
    of tracking, every refusal of a viewer being reported and passed over. *)
Definition advanced (batch : list PacketRecord) (p : Player) : Player :=
  {| metadata := metadata p; packets := packets p;
     clients := map (receives batch) (clients p);
     onError := onError p;
     playing := playing p;
     currentTime := currentTime p;
     playbackSpeed := playbackSpeed p;
     packetIndex := (packetIndex p + length batch)%nat;
     maxRecentPackets := maxRecentPackets p;
     projection := fst (PlayerSpec.apply_all (maxRecentPackets p) batch (projection p));
     emitted := emitted p ++ refusals "packet_replay:" batch (clients p) |}.

(** The player after a playback turn has replayed [batch] at virtual time
    [t] in that way. *)
Definition replayed (t : number) (batch : list PacketRecord) (p : Player) : Player :=
  let index := (packetIndex p + length batch)%nat in
  let total := length (packets p) in
  {| metadata := metadata p; packets := packets p;
     clients := map (receives batch) (clients p);
     onError := onError p;
     playing := negb (total <=? index)%nat;
     currentTime := t;
     playbackSpeed := playbackSpeed p;
     packetIndex := index;
     maxRecentPackets := maxRecentPackets p;
     projection := fst (PlayerSpec.apply_all (maxRecentPackets p) batch (projection p));
     emitted :=
       emitted p ++ refusals "packet_replay:" batch (clients p)
         ++ (if negb (length batch =? 0)%nat && (index mod 100 =? 0)%nat
             then [PlaybackProgress index total t] else [])
         ++ (if (total <=? index)%nat then [PlaybackEnd] else []) |}.

End PlaybackSpec.

(** ** recorder.ts: the recorder *)

Module ReplayRecorder.

Import Payload Format.
Local Open Scope string_scope.
Local Open Scope Z_scope.

Inductive SaveMode : Type := FileMode | MemoryMode | StreamMode.

(** [BinaryReplayWriter | BinaryReplayMemoryWriter] *)
Inductive Writer : Type :=
| FileWriter (w : FW.state)
| MemoryWriter (w : MW.state).

Definition capturedPackets : list string :=
  [ "map_chunk"; "map_chunk_bulk"; "block_change"; "multi_block_change";
    "named_entity_spawn"; "spawn_entity_living"; "spawn_entity";
    "entity_velocity"; "entity_teleport"; "entity_move_look"; "rel_entity_move";
    "entity_look"; "entity_head_rotation"; "entity_destroy"; "entity_metadata";
    "chat"; "update_sign"; "explosion"; "entity_equipment"; "player_abilities";
    "player_info" ].

(** The fields of the recorder that its methods read and write. The bot is
    its environment: what the methods read from it ([Date.now()], the
    username, the entity) is given to them as arguments. The directory and
    the path of the file, and the [debug] flag, which only adds log lines, are
    left out. *)
Record Recorder : Type := {
  saveMode : SaveMode;
  onPacketCallback : bool;        (* a chunk callback was given *)
  recording : bool;
  startTime : Z;
  currentReplayId : string;
  packets : list PacketRecord;
  binaryWriter : option Writer;
  replayMetadata : option ReplayMetadata;
  spawnPositionSet : bool;
  botEntitySpawned : bool
}.

(** [new ReplayRecorder(bot, outputDir)] is [create FileMode false];
    [new ReplayRecorder(bot, options)] is
    [create (options.saveMode || "file") (options.onPacket is given)]. *)
Definition create (mode : SaveMode) (callback : bool) : Recorder :=
  {| saveMode := mode; onPacketCallback := callback; recording := false;
     startTime := 0; currentReplayId := ""; packets := []; binaryWriter := None;
     replayMetadata := None; spawnPositionSet := false; botEntitySpawned := false |}.

(** [value || "unknown"] on a string that may be [undefined]. *)
Definition or_unknown (s : option string) : string :=
  match s with
  | Some s => if String.eqb s "" then "unknown" else s
  | None => "unknown"
  end.

(** [RecordingData] *)
Record RecordingData : Type := {
  recording_metadata : ReplayMetadata;
  buffer : list Z
}.

(** What [stopRecording] leaves: the recorder, the value the promise resolves
    to, and the writer it has closed (its stream is the file of a file-mode
    recording, its callback has received the chunks of a stream-mode one). *)
Record Stopped : Type := {
  recorder : Recorder;
  result : option RecordingData;
  closed : option Writer
}.

Section Codec.

Variable encode : value -> list Z.

Definition writer_writeHeader (w : Writer) : outcome Writer :=
  match w with
  | FileWriter f =>
      match FW.writeHeader f with
      | Returns f' => Returns (FileWriter f')
      | Throws e f' => Throws e (FileWriter f')
      end
  | MemoryWriter m =>
      match MW.writeHeader m with
      | Returns m' => Returns (MemoryWriter m')
      | Throws e m' => Throws e (MemoryWriter m')
      end
  end.

Definition writer_writePacket (record : PacketRecord) (w : Writer) : outcome Writer :=
  match w with
  | FileWriter f =>
      match FW.writePacket encode record f with
      | Returns f' => Returns (FileWriter f')
      | Throws e f' => Throws e (FileWriter f')
      end
  | MemoryWriter m =>
      match MW.writePacket encode record m with
      | Returns m' => Returns (MemoryWriter m')
      | Throws e m' => Throws e (MemoryWriter m')
      end
  end.

Definition writer_close (metadata : ReplayMetadata) (w : Writer) : outcome Writer :=
  match w with
  | FileWriter f =>
      match FW.close encode metadata f with
      | Returns f' => Returns (FileWriter f')
      | Throws e f' => Throws e (FileWriter f')
      end
  | MemoryWriter m =>
      match MW.close encode metadata m with
      | Returns m' => Returns (MemoryWriter m')
      | Throws e m' => Throws e (MemoryWriter m')
      end
  end.

Definition startRecording (replayName : string) (now : Z)
  (username version : option string) (r : Recorder) : outcome Recorder :=
  if recording r then Returns r
  else
    let metadata :=
      {| spawnPosition := (0, 0, 0); Format.startTime := now; endTime := now;
         botUsername := or_unknown username; mcVersion := or_unknown version |} in
    let writer :=
      match saveMode r with
      | FileMode => FileWriter FW.create
      | MemoryMode | StreamMode => MemoryWriter (MW.create (onPacketCallback r))
      end in
    let started (w : Writer) :=
      {| saveMode := saveMode r; onPacketCallback := onPacketCallback r;
         recording := true; startTime := now; currentReplayId := replayName;
         packets := packets r; binaryWriter := Some w;
         replayMetadata := Some metadata;
         spawnPositionSet := spawnPositionSet r;
         botEntitySpawned := botEntitySpawned r |} in
    match writer_writeHeader writer with
    | Returns w => Returns (started w)
    | Throws e w => Throws e (started w)
    end.

(** [this.packets.push(record); if (this.binaryWriter) { try {
    this.binaryWriter.writePacket(record) } catch (error) { console.error } }] *)
Definition push_and_write (record : PacketRecord) (r : Recorder) : Recorder :=
  {| saveMode := saveMode r; onPacketCallback := onPacketCallback r;
     recording := recording r; startTime := startTime r;
     currentReplayId := currentReplayId r;
     packets := packets r ++ [record];
     binaryWriter :=
       match binaryWriter r with
       | Some w => Some (state_of (writer_writePacket record w))
       | None => None
       end;
     replayMetadata := replayMetadata r;
     spawnPositionSet := spawnPositionSet r;
     botEntitySpawned := botEntitySpawned r |}.

(** The listener of the client's ["packet"] event; [now] is [Date.now()]. *)
Definition onPacket (now : Z) (packetName : string) (data : value) (r : Recorder)
  : Recorder :=
  if negb (recording r) then r
  else if negb (existsb (String.eqb packetName) capturedPackets) then r
  else
    push_and_write
      {| timestamp := now - startTime r; name := packetName; data := data |} r.

(** The packet the recorder writes for the bot itself. *)
Definition botSpawnPacket (timestamp : Z) (entityId : Z) (uuid : string)
  (position : Z * Z * Z) : PacketRecord :=
  let '(x, y, z) := position in
  {| timestamp := timestamp; name := "named_entity_spawn";
     data := VObj [ ("entityId", VNum entityId); ("playerUUID", VStr uuid);
                    ("x", VNum (x * 32)); ("y", VNum (y * 32)); ("z", VNum (z * 32));
                    ("yaw", VNum 0); ("pitch", VNum 0); ("currentItem", VNum 0);
                    ("metadata", VArr []) ] |}.

(** The listener of the bot's ["spawn"] event, for a bot that has its entity
    (id, position) and whose client has a uuid. It is registered with [once];
    calling it again changes nothing, since [spawnPositionSet] is then set.
    The position holds integers, as every number of this development:
    [Math.floor(x * 32)] is [x * 32]. *)
Definition onSpawn (now : Z) (entityId : Z) (uuid : string) (position : Z * Z * Z)
  (r : Recorder) : Recorder :=
  match replayMetadata r with
  | None => r
  | Some metadata =>
      if spawnPositionSet r then r
      else
        let metadata :=
          {| spawnPosition := position; Format.startTime := Format.startTime metadata;
             endTime := endTime metadata; botUsername := botUsername metadata;
             mcVersion := mcVersion metadata |} in
        let r :=
          {| saveMode := saveMode r; onPacketCallback := onPacketCallback r;
             recording := recording r; startTime := startTime r;
             currentReplayId := currentReplayId r; packets := packets r;
             binaryWriter := binaryWriter r; replayMetadata := Some metadata;
             spawnPositionSet := true; botEntitySpawned := botEntitySpawned r |} in
        if botEntitySpawned r then r
        else
          let r :=
            push_and_write (botSpawnPacket (now - startTime r) entityId uuid position) r in
          {| saveMode := saveMode r; onPacketCallback := onPacketCallback r;
             recording := recording r; startTime := startTime r;
             currentReplayId := currentReplayId r; packets := packets r;
             binaryWriter := binaryWriter r; replayMetadata := replayMetadata r;
             spawnPositionSet := spawnPositionSet r; botEntitySpawned := true |}
  end.

(** [stopRecording()]; [now] is [Date.now()]. When [close] throws, the
    promise is rejected after [recording] has been cleared and [endTime]
    set, and nothing else is reset. *)
Definition stopRecording (now : Z) (r : Recorder) : outcome Stopped :=
  if negb (recording r) then
    Returns {| recorder := r; result := None; closed := None |}
  else
    let reset (w : option Writer) :=
      {| saveMode := saveMode r; onPacketCallback := onPacketCallback r;
         recording := false; startTime := startTime r;
         currentReplayId := currentReplayId r; packets := [];
         binaryWriter := w; replayMetadata := None;
         spawnPositionSet := false; botEntitySpawned := false |} in
    match binaryWriter r, replayMetadata r with
    | Some w, Some metadata =>
        let metadata :=
          {| spawnPosition := spawnPosition metadata;
             Format.startTime := Format.startTime metadata; endTime := now;
             botUsername := botUsername metadata; mcVersion := mcVersion metadata |} in
        match writer_close metadata w with
        | Throws e w' =>
            Throws e
              {| recorder :=
                   {| saveMode := saveMode r; onPacketCallback := onPacketCallback r;
                      recording := false; startTime := startTime r;
                      currentReplayId := currentReplayId r; packets := packets r;
                      binaryWriter := Some w'; replayMetadata := Some metadata;
                      spawnPositionSet := spawnPositionSet r;
                      botEntitySpawned := botEntitySpawned r |};
                 result := None; closed := None |}
        | Returns w' =>
            Returns
              {| recorder := reset None;
                 result :=
                   match saveMode r, w' with
                   | MemoryMode, MemoryWriter m =>
                       Some {| recording_metadata := metadata;
                               buffer := MW.getBuffer m |}
                   | _, _ => None
                   end;
                 closed := Some w' |}
        end
    | w, _ => Returns {| recorder := reset w; result := None; closed := None |}
    end.

End Codec.

(** [getStats()]: recording, replayId, duration, packets. *)
Definition getStats (now : Z) (r : Recorder) : bool * string * Z * nat :=
  (recording r, currentReplayId r,
   if recording r then now - startTime r else 0,
   length (packets r)).

End ReplayRecorder.

(** ** Vocabulary of the statements about the recorder *)

Module RecorderSpec.

Import Payload Format ReplayRecorder.
Local Open Scope Z_scope.

(** What reaches the recorder while it records: a packet of the client, or
    the spawn of the bot; each with the reading of the clock. *)
Inductive input : Type :=
| Packet (now : Z) (name : string) (data : value)
| Spawn (now : Z) (entityId : Z) (uuid : string) (position : Z * Z * Z).

Definition clock (i : input) : Z :=
  match i with
  | Packet now _ _ => now
  | Spawn now _ _ _ => now
  end.

Section Codec.

Variable encode : value -> list Z.

Definition feed (r : Recorder) (i : input) : Recorder :=
  match i with
  | Packet now name data => onPacket encode now name data r
  | Spawn now entityId uuid position => onSpawn encode now entityId uuid position r
  end.

(** The writer a recorder of the given mode holds after [writeHeader] and
    one [writePacket] per record, each on the state the previous call left. *)
Definition written_by (mode : SaveMode) (callback : bool)
  (records : list PacketRecord) : Writer :=
  match mode with
  | FileMode =>
      FileWriter
        (fold_left (fun w c => state_of (FW.perform encode c w))
                   (WriteHeader :: map WritePacket records) FW.create)
  | MemoryMode | StreamMode =>
      MemoryWriter
        (fold_left (fun w c => state_of (MW.perform encode c w))
                   (WriteHeader :: map WritePacket records) (MW.create callback))
  end.

End Codec.

(** The records the recorder hands to its writer, for the inputs of a
    recording started at [startTime]; [spawned] is whether the bot's own
    spawn has been written. *)
Fixpoint captured (startTime : Z) (spawned : bool) (inputs : list input)
  : list PacketRecord :=
  match inputs with
  | [] => []
  | Packet now name data :: inputs' =>
      if existsb (String.eqb name) capturedPackets
      then {| timestamp := now - startTime; name := name; data := data |}
             :: captured startTime spawned inputs'
      else captured startTime spawned inputs'
  | Spawn now entityId uuid position :: inputs' =>
      if spawned then captured startTime spawned inputs'
      else botSpawnPacket (now - startTime) entityId uuid position
             :: captured startTime true inputs'
  end.

(** The position of the first spawn among the inputs. *)
Fixpoint spawn_position (inputs : list input) : option (Z * Z * Z) :=
  match inputs with
  | [] => None
  | Packet _ _ _ :: inputs' => spawn_position inputs'
  | Spawn _ _ _ position :: _ => Some position
  end.

(** The metadata [stopRecording] hands to [close]. *)
Definition closing_metadata (startTime endTime : Z) (username version : option string)
  (inputs : list input) : ReplayMetadata :=
  {| spawnPosition :=
       match spawn_position inputs with Some position => position | None => (0, 0, 0) end;
     Format.startTime := startTime; endTime := endTime;
     botUsername := or_unknown username; mcVersion := or_unknown version |}.

(** The metadata with another spawn position, and with another end time. *)
Definition with_spawn (position : Z * Z * Z) (metadata : ReplayMetadata)
  : ReplayMetadata :=
  {| spawnPosition := position; Format.startTime := Format.startTime metadata;
     endTime := endTime metadata; botUsername := botUsername metadata;
     mcVersion := mcVersion metadata |}.

Definition with_end (now : Z) (metadata : ReplayMetadata) : ReplayMetadata :=
  {| spawnPosition := spawnPosition metadata;
     Format.startTime := Format.startTime metadata; endTime := now;
     botUsername := botUsername metadata; mcVersion := mcVersion metadata |}.

(** Clock readings that never go back, all of them less than [2^31] ms after
    [startTime]. *)
Fixpoint steady (startTime last : Z) (inputs : list input) : Prop :=
  match inputs with
  | [] => True
  | i :: inputs' =>
      last <= clock i /\ clock i - startTime < 2 ^ 31 /\ steady startTime (clock i) inputs'
  end.

Section Codec.

Variable encode : value -> list Z.

(** The recorder while it records: after [startRecording] and the inputs
    that gave [records]. *)
Definition recording_state (mode : SaveMode) (callback : bool) (replayName : string)
  (metadata : ReplayMetadata) (records : list PacketRecord) (spawned : bool)
  : Recorder :=
  {| saveMode := mode; onPacketCallback := callback; recording := true;
     startTime := Format.startTime metadata; currentReplayId := replayName;
     packets := records;
     binaryWriter := Some (written_by encode mode callback records);
     replayMetadata := Some metadata;
     spawnPositionSet := spawned; botEntitySpawned := spawned |}.

(** The writer of a whole session: [writeHeader], the records, [close]. *)
Definition session_writer (mode : SaveMode) (callback : bool)
  (records : list PacketRecord) (metadata : ReplayMetadata) : Writer :=
  match mode with
  | FileMode =>
      FileWriter
        (snd (FW.session encode (WriteHeader :: map WritePacket records) metadata
                FW.create))
  | MemoryMode | StreamMode =>
      MemoryWriter
        (snd (MW.session encode (WriteHeader :: map WritePacket records) metadata
                (MW.create callback)))
  end.

End Codec.

(** The bytes a writer has produced, and the bytes its chunk callback has
    been handed. *)
Definition output (w : Writer) : list Z :=
  match w with
  | FileWriter f => FW.file_bytes f
  | MemoryWriter m => MW.getBuffer m
  end.

Definition delivered (w : Writer) : list Z :=
  match w with
  | FileWriter _ => []
  | MemoryWriter m => MW.streamed m
  end.

End RecorderSpec.

(** A spawn record without data. *)

Module FailingSamples.

Import Payload Format.
Local Open Scope string_scope.
Local Open Scope Z_scope.

Definition null_spawn_record : PacketRecord :=
  {| timestamp := 100; name := "spawn_entity"; data := VNull |}.

End FailingSamples.

(* ================================================================== *)
(** * Part II: properties *)
(* ================================================================== *)

(** ** 32-bit operators *)

Arguments JS.and : simpl never.
Arguments JS.or : simpl never.
Arguments JS.shl : simpl never.
Arguments JS.ushr : simpl never.

Lemma to_int32_small z : - 2 ^ 31 <= z < 2 ^ 31 -> JS.to_int32 z = z.
Proof.
  intros H. unfold JS.to_int32.
  destruct (Z_lt_le_dec z 0) as [Hn | Hp].
  - replace (z mod 2 ^ 32) with (z + 2 ^ 32).
    + destruct (Z.ltb_spec (z + 2 ^ 32) (2 ^ 31)); lia.
    + apply Z.mod_unique with (q := -1); lia.
  - rewrite Z.mod_small by lia.
    destruct (Z.ltb_spec z (2 ^ 31)); lia.
Qed.

Lemma to_uint32_small z : 0 <= z < 2 ^ 32 -> JS.to_uint32 z = z.
Proof. intros H. unfold JS.to_uint32. apply Z.mod_small. exact H. Qed.

Lemma lor_disjoint a b : Z.land a b = 0 -> Z.lor a b = a + b.
Proof. intros H. pose proof (Z.add_lor_land a b) as E. rewrite H in E. lia. Qed.

Lemma land_low_high acc x s :
  0 <= s -> 0 <= acc < 2 ^ s -> Z.land acc (x * 2 ^ s) = 0.
Proof.
  intros Hs Hacc. apply Z.bits_inj'. intros n Hn.
  rewrite Z.land_spec, Z.bits_0.
  destruct (Z_lt_le_dec n s) as [Hlt | Hge].
  - rewrite Z.mul_pow2_bits_low by lia. apply andb_false_r.
  - replace acc with (acc mod 2 ^ s) by (apply Z.mod_small; lia).
    rewrite Z.mod_pow2_bits_high by lia. reflexivity.
Qed.

Lemma js_and_7F n : 0 <= n < 2 ^ 31 -> JS.and n 0x7F = n mod 128.
Proof.
  intros H. unfold JS.and. rewrite !to_int32_small by lia.
  change 0x7F with (Z.ones 7). rewrite Z.land_ones by lia. reflexivity.
Qed.

(** A property of the numbers below [n], decided by running it on each. *)
Lemma forall_below (P : Z -> bool) (n : nat) :
  forallb P (map Z.of_nat (seq 0 n)) = true ->
  forall x, 0 <= x < Z.of_nat n -> P x = true.
Proof.
  intros H x Hx. rewrite forallb_forall in H. apply H.
  apply in_map_iff. exists (Z.to_nat x). split; [lia|].
  apply in_seq. lia.
Qed.

Lemma continuation_byte_low x :
  0 <= x < 128 -> JS.and (JS.or x 0x80) 0x7F = x.
Proof.
  intros H. apply Z.eqb_eq.
  apply (forall_below (fun x => JS.and (JS.or x 0x80) 0x7F =? x) 128); [|lia].
  vm_compute. reflexivity.
Qed.

Lemma continuation_byte_flag x :
  0 <= x < 128 -> (JS.and (JS.or x 0x80) 0x80 =? 0) = false.
Proof.
  intros H. apply negb_true_iff.
  apply (forall_below (fun x => negb (JS.and (JS.or x 0x80) 0x80 =? 0)) 128); [|lia].
  vm_compute. reflexivity.
Qed.

Lemma final_byte_flag x : 0 <= x < 128 -> (JS.and x 0x80 =? 0) = true.
Proof.
  intros H.
  apply (forall_below (fun x => JS.and x 0x80 =? 0) 128); [|lia].
  vm_compute. reflexivity.
Qed.

Lemma js_ushr_7 n : 0 <= n < 2 ^ 32 -> JS.ushr n 7 = n / 128.
Proof.
  intros H. unfold JS.ushr. rewrite to_uint32_small by lia.
  change (JS.to_uint32 7 mod 32) with 7.
  rewrite Z.shiftr_div_pow2 by lia. reflexivity.
Qed.

Lemma js_shl_exact x s :
  0 <= s < 32 -> 0 <= x -> x * 2 ^ s < 2 ^ 31 -> JS.shl x s = x * 2 ^ s.
Proof.
  intros Hs Hx Hb. unfold JS.shl.
  assert (0 < 2 ^ s) by (apply Z.pow_pos_nonneg; lia).
  assert (x < 2 ^ 31) by nia.
  rewrite (to_int32_small x) by lia.
  rewrite to_uint32_small by lia. rewrite Z.mod_small by lia.
  rewrite Z.shiftl_mul_pow2 by lia.
  apply to_int32_small. nia.
Qed.

Lemma js_or_disjoint acc x s :
  0 <= s -> 0 <= acc < 2 ^ s -> 0 <= x -> acc + x * 2 ^ s < 2 ^ 31 ->
  JS.or acc (x * 2 ^ s) = acc + x * 2 ^ s.
Proof.
  intros Hs Hacc Hx Hb. unfold JS.or.
  assert (0 < 2 ^ s) by (apply Z.pow_pos_nonneg; lia).
  rewrite !to_int32_small by nia.
  apply lor_disjoint. apply land_low_high; lia.
Qed.

(** ** Varint codec *)

Import Varint.

Lemma js_ushr_7_bounds v : 0 <= v -> 0 <= JS.ushr v 7 <= v / 128 /\ JS.ushr v 7 < 2 ^ 25.
Proof.
  intros Hv. unfold JS.ushr, JS.to_uint32.
  change ((7 mod 2 ^ 32) mod 32) with 7.
  rewrite Z.shiftr_div_pow2 by lia. change (2 ^ 7) with 128.
  pose proof (Z.mod_pos_bound v (2 ^ 32) ltac:(lia)) as Hm.
  pose proof (Z.mod_le v (2 ^ 32) Hv ltac:(lia)) as Hle.
  repeat split.
  - apply Z.div_pos; lia.
  - apply Z.div_le_mono; lia.
  - apply Z.div_lt_upper_bound; lia.
Qed.

(** More turns than the value needs change nothing. *)
Lemma encodeVarint_loop_stable n : forall v m,
  0 <= v < 2 ^ (7 * (Z.of_nat n + 1)) ->
  encodeVarint_loop (n + m) v = encodeVarint_loop n v.
Proof.
  induction n as [|n IH]; intros v m Hv.
  - change (2 ^ (7 * (Z.of_nat 0 + 1))) with 128 in Hv.
    destruct m as [|m]; [reflexivity|]. simpl.
    destruct (Z.leb_spec 128 v); [lia|reflexivity].
  - simpl. destruct (Z.leb_spec 128 v) as [Hge|Hlt]; [|reflexivity].
    f_equal. apply IH.
    destruct (js_ushr_7_bounds v ltac:(lia)) as [[H0 H1] _].
    split; [lia|].
    apply Z.le_lt_trans with (v / 128); [lia|].
    apply Z.div_lt_upper_bound; [lia|].
    replace (7 * (Z.of_nat (S n) + 1)) with (7 + 7 * (Z.of_nat n + 1)) in Hv by lia.
    rewrite Z.pow_add_r in Hv by lia. change (2 ^ 7) with 128 in Hv. lia.
Qed.

(** [encodeVarint] satisfies the equation of the source's [while] loop: the
    bound on the number of turns is never the reason it stops. *)
Lemma encodeVarint_unfold value :
  encodeVarint value =
  if 0x80 <=? value
  then JS.or (JS.and value 0x7F) 0x80 :: encodeVarint (JS.ushr value 7)
  else [JS.and value 0x7F].
Proof.
  unfold encodeVarint. change (encodeVarint_loop 5 value) with
    (if 0x80 <=? value
     then JS.or (JS.and value 0x7F) 0x80 :: encodeVarint_loop 4 (JS.ushr value 7)
     else [JS.and value 0x7F]).
  destruct (Z.leb_spec 128 value) as [Hge|Hlt]; [|reflexivity].
  f_equal.
  destruct (js_ushr_7_bounds value ltac:(lia)) as [[H0 _] H25].
  rewrite (encodeVarint_loop_stable 3 _ 1%nat), (encodeVarint_loop_stable 3 _ 2%nat);
    [reflexivity| |]; change (2 ^ (7 * (Z.of_nat 3 + 1))) with (2 ^ 28); lia.
Qed.

(** Decoding what the encoder wrote, in the middle of a decoding loop and
    with more bytes following. *)
Lemma decode_encode_loop turns : forall n acc shift k rest,
  0 <= n < 2 ^ (7 * (Z.of_nat turns + 1)) ->
  0 <= shift < 32 ->
  0 <= acc < 2 ^ shift ->
  acc + n * 2 ^ shift < 2 ^ 31 ->
  decodeVarint_loop (encodeVarint_loop turns n ++ rest) acc shift k =
  Ok (acc + n * 2 ^ shift, (k + length (encodeVarint_loop turns n))%nat).
Proof.
  induction turns as [|turns IH]; intros n acc shift k rest Hn Hs Hacc Hb.
  - change (2 ^ (7 * (Z.of_nat 0 + 1))) with 128 in Hn.
    assert (0 < 2 ^ shift) by (apply Z.pow_pos_nonneg; lia).
    simpl. rewrite js_and_7F by lia. rewrite Z.mod_small by lia.
    rewrite js_and_7F by lia. rewrite Z.mod_small by lia.
    rewrite final_byte_flag by lia.
    rewrite js_shl_exact by (try lia; nia).
    rewrite js_or_disjoint by lia.
    do 2 f_equal. lia.
  - assert (Hp : 0 < 2 ^ shift) by (apply Z.pow_pos_nonneg; lia).
    assert (Hn31 : n < 2 ^ 31) by nia.
    simpl encodeVarint_loop.
    destruct (Z.leb_spec 128 n) as [Hge|Hlt].
    + pose proof (Z.mod_pos_bound n 128 ltac:(lia)) as Hm.
      pose proof (Z.div_mod n 128 ltac:(lia)) as Hdm.
      assert (Hs7 : shift + 7 < 32).
      { apply (Z.pow_lt_mono_r_iff 2); [lia|lia|].
        rewrite Z.pow_add_r by lia. change (2 ^ 7) with 128. nia. }
      simpl. rewrite js_and_7F by lia.
      rewrite continuation_byte_low, continuation_byte_flag by lia.
      rewrite js_shl_exact by (try lia; nia).
      rewrite js_or_disjoint by (try lia; nia).
      rewrite js_ushr_7 by lia.
      assert (E7 : 2 ^ (shift + 7) = 2 ^ shift * 128)
        by (rewrite Z.pow_add_r by lia; reflexivity).
      rewrite IH.
      * f_equal. f_equal; [|lia]. rewrite E7. nia.
      * split; [apply Z.div_pos; lia|].
        apply Z.div_lt_upper_bound; [lia|].
        replace (7 * (Z.of_nat (S turns) + 1)) with (7 + 7 * (Z.of_nat turns + 1)) in Hn by lia.
        rewrite Z.pow_add_r in Hn by lia. change (2 ^ 7) with 128 in Hn. lia.
      * lia.
      * rewrite E7. nia.
      * rewrite E7. nia.
    + simpl. rewrite js_and_7F by lia. rewrite Z.mod_small by lia.
      rewrite js_and_7F by lia. rewrite Z.mod_small by lia.
      rewrite final_byte_flag by lia.
      rewrite js_shl_exact by (try lia; nia).
      rewrite js_or_disjoint by lia.
      do 2 f_equal. lia.
Qed.

Lemma decode_encode_varint_app n rest :
  0 <= n < 2 ^ 31 ->
  decodeVarint_loop (encodeVarint n ++ rest) 0 0 0 =
  Ok (n, length (encodeVarint n)).
Proof.
  intros Hn. unfold encodeVarint.
  rewrite decode_encode_loop; try lia.
  f_equal. f_equal. lia.
Qed.

(** C5 (as amended): for every integer [0 <= n < 2^31],
    [decodeVarint(encodeVarint(n), 0)] returns the value [n] and a [bytesRead]
    equal to the number of bytes of [encodeVarint(n)]. *)
Theorem decode_encode_varint n :
  0 <= n < 2 ^ 31 ->
  decodeVarint (encodeVarint n) 0 = Ok (n, length (encodeVarint n)).
Proof.
  intros Hn. unfold decodeVarint. simpl skipn.
  rewrite <- (app_nil_r (encodeVarint n)) at 1.
  apply decode_encode_varint_app. exact Hn.
Qed.

Lemma decode_encode_varint_witness :
  0 <= 1500 < 2 ^ 31 /\
  decodeVarint (encodeVarint 1500) 0 = Ok (1500, length (encodeVarint 1500)).
Proof. split; [lia | apply (decode_encode_varint 1500); lia]. Defined.

(** C5 as stated fails: the encoder works on 32 bits ([>>>]), so [2^32] is
    written as the two bytes [80 00], which decode to [0]. *)
Lemma decode_encode_varint_counterexample :
  0 <= 2 ^ 32 /\
  encodeVarint (2 ^ 32) = [0x80; 0x00] /\
  decodeVarint (encodeVarint (2 ^ 32)) 0 = Ok (0, 2%nat).
Proof. split; [lia | split; vm_compute; reflexivity]. Qed.

Lemma decodeVarint_loop_throws rest : forall value shift k,
  (forall e, decodeVarint_loop rest value shift k = Throw e -> e = VarintEndOfBuffer) /\
  (decodeVarint_loop rest value shift k = Throw VarintEndOfBuffer <->
   Forall continues rest).
Proof.
  induction rest as [|byte rest IH]; intros value shift k; simpl.
  - split; [intros e H; congruence|]. split; auto.
  - destruct (JS.and byte 128 =? 0) eqn:Hb.
    + split; [intros e H; discriminate|].
      split; [discriminate|].
      intros H. inversion H as [|? ? Hc _]; subst.
      unfold continues in Hc. change 0x80 with 128 in Hc. congruence.
    + destruct (IH (JS.or value (JS.shl (JS.and byte 127) shift)) (shift + 7) (S k))
        as [IH1 IH2].
      split; [exact IH1|].
      rewrite IH2. split.
      * intros H. constructor; [exact Hb|exact H].
      * intros H. inversion H; assumption.
Qed.

(** C4 (as amended): [decodeVarint] fails in exactly one situation, namely when
    the buffer is exhausted before a byte with the continuation bit clear is
    found: every byte from [offset] on has the bit set. The only error it
    raises is the end-of-buffer one; there is no bound on the bytes read. *)
Theorem decodeVarint_throws_iff buffer offset :
  (forall e, decodeVarint buffer offset = Throw e -> e = VarintEndOfBuffer) /\
  (decodeVarint buffer offset = Throw VarintEndOfBuffer <->
   Forall continues (skipn offset buffer)).
Proof. unfold decodeVarint. apply decodeVarint_loop_throws. Qed.

(** C4 as stated fails: eleven bytes with the continuation bit set followed by
    a terminating byte are decoded (twelve bytes read), not rejected. *)
Lemma decodeVarint_no_length_limit :
  Forall continues (repeat 0x80 11) /\
  decodeVarint (repeat 0x80 11 ++ [0x01]) 0 = Ok (8192, 12%nat).
Proof.
  split; [|vm_compute; reflexivity].
  repeat constructor.
Qed.

(** ** Base64 *)

Import Base64.

Lemma digit_decodes i :
  0 <= i < 64 ->
  unbase64 (digit i) = Some i /\ Ascii.eqb (digit i) "="%char = false.
Proof.
  intros H.
  assert (G : (match unbase64 (digit i) with Some j => j =? i | None => false end
               && negb (Ascii.eqb (digit i) "="%char))%bool = true).
  { apply (forall_below
             (fun i => (match unbase64 (digit i) with Some j => j =? i | None => false end
                        && negb (Ascii.eqb (digit i) "="%char))%bool) 64); [|lia].
    vm_compute. reflexivity. }
  apply andb_true_iff in G. destruct G as [G1 G2].
  destruct (unbase64 (digit i)) as [j|]; [|discriminate].
  apply Z.eqb_eq in G1. subst j. split; [reflexivity|].
  apply negb_true_iff. exact G2.
Qed.

Lemma sextets_digit i s :
  0 <= i < 64 -> sextets (String (digit i) s) = i :: sextets s.
Proof.
  intros H. destruct (digit_decodes i H) as [E1 E2].
  simpl. rewrite E2, E1. reflexivity.
Qed.

Lemma list_ind3 {A : Type} (P : list A -> Prop) :
  P [] -> (forall a, P [a]) -> (forall a b, P [a; b]) ->
  (forall a b c l, P l -> P (a :: b :: c :: l)) ->
  forall l, P l.
Proof.
  intros H0 H1 H2 H3.
  fix IH 1. intros [|a [|b [|c l]]].
  - exact H0.
  - apply H1.
  - apply H2.
  - apply H3. apply IH.
Qed.

Lemma is_byte_range b : Faithful.is_byte b = true -> 0 <= b < 256.
Proof. unfold Faithful.is_byte. intros H. apply andb_true_iff in H. lia. Qed.

(** Byte blobs survive the base64 envelope byte for byte. *)
Lemma fromBase64_toBase64 bytes :
  forallb Faithful.is_byte bytes = true -> fromBase64 (toBase64 bytes) = bytes.
Proof.
  unfold fromBase64.
  induction bytes as [|a|a b|a b c l IH] using list_ind3; intros Hb.
  - reflexivity.
  - simpl in Hb. apply andb_true_iff in Hb. destruct Hb as [Ha _].
    apply is_byte_range in Ha.
    cbn [toBase64]. rewrite !sextets_digit by (Z.to_euclidean_division_equations; lia).
    cbn. f_equal. Z.to_euclidean_division_equations; lia.
  - simpl in Hb. apply andb_true_iff in Hb. destruct Hb as [Ha Hb].
    apply andb_true_iff in Hb. destruct Hb as [Hb _].
    apply is_byte_range in Ha, Hb.
    cbn [toBase64]. rewrite !sextets_digit by (Z.to_euclidean_division_equations; lia).
    cbn. f_equal; [|f_equal]; Z.to_euclidean_division_equations; lia.
  - simpl in Hb. apply andb_true_iff in Hb. destruct Hb as [Ha Hb].
    apply andb_true_iff in Hb. destruct Hb as [Hb Hc].
    apply andb_true_iff in Hc. destruct Hc as [Hc Hl].
    apply is_byte_range in Ha, Hb, Hc.
    cbn [toBase64]. rewrite !sextets_digit by (Z.to_euclidean_division_equations; lia).
    cbn [bytes_of_sextets]. rewrite (IH Hl).
    f_equal; [|f_equal; [|f_equal]]; Z.to_euclidean_division_equations; lia.
Qed.

(** ** Payload normalizer *)

Import Payload Faithful.

(** Induction on payload trees, through the lists they nest. *)
Lemma value_ind_nested (P : value -> Prop) :
  P VUndefined -> P VNull -> (forall b, P (VBool b)) -> (forall n, P (VNum n)) ->
  (forall s, P (VStr s)) -> (forall bytes, P (VBuf bytes)) ->
  (forall items, Forall P items -> P (VArr items)) ->
  (forall props, Forall (fun kv => P (snd kv)) props -> P (VObj props)) ->
  forall v, P v.
Proof.
  intros Hu Hn Hb Hz Hs Hbuf Harr Hobj.
  fix IH 1. intros [| |b|n|s|bytes|items|props].
  - exact Hu.
  - exact Hn.
  - apply Hb.
  - apply Hz.
  - apply Hs.
  - apply Hbuf.
  - apply Harr. induction items as [|x items IHitems]; constructor.
    + apply IH.
    + exact IHitems.
  - apply Hobj. induction props as [|[k x] props IHprops]; constructor.
    + apply IH.
    + exact IHprops.
Qed.

Lemma existsb_eqb_In k keys : existsb (String.eqb k) keys = true <-> In k keys.
Proof.
  rewrite existsb_exists. split.
  - intros [x [Hin He]]. apply String.eqb_eq in He. subst. exact Hin.
  - intros Hin. exists k. split; [exact Hin|apply String.eqb_refl].
Qed.

Lemma obj_replace_fresh key v props :
  ~ In key (map fst props) -> obj_replace key v props = props ++ [(key, v)].
Proof.
  induction props as [|[k w] props IH]; intros Hnin; simpl.
  - reflexivity.
  - destruct (String.eqb_spec k key) as [->|Hne].
    + exfalso. apply Hnin. left. reflexivity.
    + rewrite IH; [reflexivity|]. intros Hin. apply Hnin. right. exact Hin.
Qed.

Lemma ordinary_key_proto k : ordinary_key k = true -> String.eqb k "__proto__" = false.
Proof.
  unfold ordinary_key. intros H. apply andb_true_iff in H. destruct H as [H _].
  apply negb_true_iff. exact H.
Qed.

(** Copying properties whose keys are new to the result appends them. *)
Lemma copy_props_fresh (f : value -> completion value) l : forall l' acc,
  Forall2 (fun kv kv' => fst kv = fst kv' /\ f (snd kv) = Ok (snd kv')) l l' ->
  distinct (map fst acc ++ map fst l) = true ->
  forallb ordinary_key (map fst l) = true ->
  copy_props f l acc = Ok (acc ++ l').
Proof.
  induction l as [|[k v] l IH]; intros l' acc HF Hd Ho.
  - inversion HF; subst. simpl. rewrite app_nil_r. reflexivity.
  - inversion HF as [|? [k' v'] ? l'' [Hk Hv] HF']; subst. simpl in *.
    subst k'. rewrite Hv. simpl.
    apply andb_true_iff in Ho. destruct Ho as [Hok Ho].
    unfold obj_set. rewrite (ordinary_key_proto _ Hok).
    assert (Hnin : ~ In k (map fst acc)).
    { clear - Hd. induction acc as [|[a w] acc IHacc]; simpl in *; [tauto|].
      apply andb_true_iff in Hd. destruct Hd as [Ha Hd].
      intros [E|Hin].
      - subst a. apply negb_true_iff in Ha.
        rewrite <- not_true_iff_false in Ha. apply Ha.
        apply existsb_eqb_In. apply in_or_app. right. left. reflexivity.
      - apply (IHacc Hd Hin). }
    rewrite obj_replace_fresh by exact Hnin.
    rewrite IH with (l' := l'').
    + rewrite <- app_assoc. reflexivity.
    + exact HF'.
    + rewrite map_app, <- app_assoc. simpl. exact Hd.
    + exact Ho.
Qed.

Lemma map_items_Forall2 (f : value -> completion value) l l' :
  Forall2 (fun x x' => f x = Ok x') l l' -> map_items f l = Ok l'.
Proof.
  induction 1 as [|x x' l l' Hx _ IH]; simpl.
  - reflexivity.
  - rewrite Hx. simpl. rewrite IH. reflexivity.
Qed.

Lemma bind_Ok {A B : Type} (r : completion A) (k : A -> completion B) b :
  bind r k = Ok b -> exists a, r = Ok a /\ k a = Ok b.
Proof. destruct r as [a|e]; simpl; [eauto|discriminate]. Qed.

(** Only a string is normalized to a string. *)
Lemma serializeData_str v s : serializeData v = Ok (VStr s) -> v = VStr s.
Proof.
  destruct v; simpl; intros H; try congruence.
  - apply bind_Ok in H. destruct H as [? [_ H]]. discriminate.
  - destruct (hasOwnProperty_callable props); [|discriminate].
    apply bind_Ok in H. destruct H as [? [_ H]]. discriminate.
Qed.

Lemma obj_get_Forall2 (R : value -> value -> Prop) props props' key v' :
  Forall2 (fun kv kv' => fst kv = fst kv' /\ R (snd kv) (snd kv')) props props' ->
  obj_get props' key = Some v' ->
  exists v, obj_get props key = Some v /\ R v v'.
Proof.
  induction 1 as [|[k v] [k' w] l l' [Hk Hr] _ IH]; simpl; [discriminate|].
  simpl in Hk. subst k'.
  destruct (String.eqb k key).
  - intros E. inversion E; subst. eauto.
  - exact IH.
Qed.

Lemma Forall2_keys (R : value -> value -> Prop)
  (props props' : list (string * value)) :
  Forall2 (fun kv kv' => fst kv = fst kv' /\ R (snd kv) (snd kv')) props props' ->
  map fst props' = map fst props.
Proof.
  induction 1 as [|? ? ? ? [Hk _] _ IH]; simpl; [reflexivity|].
  rewrite Hk, IH. reflexivity.
Qed.

Lemma ordinary_keys_callable props :
  forallb ordinary_key (map fst props) = true -> hasOwnProperty_callable props = true.
Proof.
  intros H. destruct props as [|kv props]; [reflexivity|].
  unfold hasOwnProperty_callable. apply negb_true_iff.
  unfold has_own. generalize dependent (kv :: props). clear.
  induction l as [|[k v] l IH]; simpl; intros H; [reflexivity|].
  apply andb_true_iff in H. destruct H as [Hk H].
  unfold ordinary_key in Hk. apply andb_true_iff in Hk. destruct Hk as [_ Hk].
  apply negb_true_iff in Hk. rewrite Hk. apply IH. exact H.
Qed.

Lemma marked_buffer_reflected props props' :
  Forall2 (fun kv kv' => fst kv = fst kv' /\ normalizes (snd kv) (snd kv')) props props' ->
  unmarked props = true -> marked_buffer props' = None.
Proof.
  intros HF Hu. unfold unmarked in Hu.
  destruct (marked_buffer props') as [d|] eqn:Hm; [|reflexivity].
  exfalso. unfold marked_buffer in *.
  destruct (obj_get props' "__type") as [t'|] eqn:Ht; [|discriminate].
  destruct t' as [| | | |t| | |]; try discriminate.
  destruct (obj_get props' "__data") as [d'|] eqn:Hd; [|discriminate].
  destruct d' as [| | | |d0| | |]; try discriminate.
  destruct (obj_get_Forall2 _ _ _ _ _ HF Ht) as [vt [Evt [Hst _]]].
  destruct (obj_get_Forall2 _ _ _ _ _ HF Hd) as [vd [Evd [Hsd _]]].
  apply serializeData_str in Hst, Hsd. subst vt vd.
  rewrite Evt, Evd in Hu.
  destruct (String.eqb t "Buffer"); discriminate.
Qed.

(** Normalizing a faithful payload succeeds, and denormalizing the result gives
    the payload back. *)
Lemma normalize_roundtrip v :
  faithful v = true -> exists s, normalizes v s.
Proof.
  induction v as [| |b|n|s|bytes|items IH|props IH] using value_ind_nested;
    intros Hf; unfold normalizes.
  - exists VUndefined. split; reflexivity.
  - exists VNull. split; reflexivity.
  - exists (VBool b). split; reflexivity.
  - exists (VNum n). split; reflexivity.
  - exists (VStr s). split; reflexivity.
  - eexists. split; [reflexivity|].
    simpl in Hf. cbn. rewrite fromBase64_toBase64 by exact Hf. reflexivity.
  - assert (E : exists items', Forall2 normalizes items items').
    { simpl in Hf. induction IH as [|x items Hx _ IHl].
      - exists []. constructor.
      - simpl in Hf. apply andb_true_iff in Hf. destruct Hf as [Hfx Hfl].
        destruct (Hx Hfx) as [s Hs]. destruct (IHl Hfl) as [items' HF].
        exists (s :: items'). constructor; assumption. }
    destruct E as [items' HF]. exists (VArr items'). split; simpl.
    + rewrite (map_items_Forall2 serializeData items items'); [reflexivity|].
      eapply Forall2_impl; [|exact HF]. intros a b [H _]. exact H.
    + rewrite (map_items_Forall2 deserializeData items' items); [reflexivity|].
      apply Forall2_flip. eapply Forall2_impl; [|exact HF]. intros a b [_ H]. exact H.
  - simpl in Hf. apply andb_true_iff in Hf. destruct Hf as [Hf Hch].
    apply andb_true_iff in Hf. destruct Hf as [Hf Hum].
    apply andb_true_iff in Hf. destruct Hf as [Hdist Hord].
    assert (E : exists props',
      Forall2 (fun kv kv' => fst kv = fst kv' /\ normalizes (snd kv) (snd kv'))
              props props').
    { clear Hdist Hord Hum. induction IH as [|[k x] props Hx _ IHl].
      - exists []. constructor.
      - simpl in Hch. apply andb_true_iff in Hch. destruct Hch as [Hfx Hfl].
        destruct (Hx Hfx) as [s Hs]. destruct (IHl Hfl) as [props' HF].
        exists ((k, s) :: props'). constructor; [split; [reflexivity|exact Hs]|exact HF]. }
    destruct E as [props' HF]. exists (VObj props').
    pose proof (Forall2_keys _ _ _ HF) as Hkeys.
    split; simpl.
    + rewrite (ordinary_keys_callable _ Hord).
      rewrite (copy_props_fresh serializeData props props' []); [reflexivity| | |].
      * eapply Forall2_impl; [|exact HF]. intros a b [H1 [H2 _]]. split; assumption.
      * exact Hdist.
      * exact Hord.
    + rewrite (marked_buffer_reflected _ _ HF Hum).
      rewrite ordinary_keys_callable by (rewrite Hkeys; exact Hord).
      rewrite (copy_props_fresh deserializeData props' props []); [reflexivity| | |].
      * apply Forall2_flip. eapply Forall2_impl; [|exact HF].
        intros a b [H1 [_ H2]]. split; [symmetry|]; assumption.
      * simpl. rewrite Hkeys. exact Hdist.
      * rewrite Hkeys. exact Hord.
Qed.

(** C6 (as amended): for every payload tree [P] built from scalars, byte
    blobs, ordered sequences and string-keyed maps in which no map has the
    shape of the blob envelope ([__type] equal to ["Buffer"] together with a
    string [__data]) and no map has a key [__proto__] or [hasOwnProperty],
    [deserializeData(serializeData(P))] returns [P] itself, byte blobs
    included. *)
Theorem deserialize_serialize P :
  faithful P = true ->
  (s <- serializeData P ;; deserializeData s) = Ok P.
Proof.
  intros Hf. destruct (normalize_roundtrip P Hf) as [s [Hs Hd]].
  rewrite Hs. simpl. exact Hd.
Qed.

Local Open Scope string_scope.
Local Open Scope list_scope.
Local Open Scope Z_scope.

Lemma deserialize_serialize_witness :
  let P := VObj [("img", VBuf [0; 255; 16; 32]);
                 ("pos", VArr [VNum 1; VNum (-2); VNull]);
                 ("name", VStr "Buffer")] in
  faithful P = true /\ (s <- serializeData P ;; deserializeData s) = Ok P.
Proof.
  split; [reflexivity|].
  apply (deserialize_serialize
           (VObj [("img", VBuf [0; 255; 16; 32]);
                  ("pos", VArr [VNum 1; VNum (-2); VNull]);
                  ("name", VStr "Buffer")])).
  reflexivity.
Defined.

(** C6 as stated fails: a map that already has the envelope's shape is
    normalized to itself and comes back as a byte blob. *)
Lemma deserialize_serialize_counterexample :
  let P := VObj [("__type", VStr "Buffer"); ("__data", VStr "AQID")] in
  serializeData P = Ok P /\
  (s <- serializeData P ;; deserializeData s) = Ok (VBuf [1; 2; 3]).
Proof. split; vm_compute; reflexivity. Qed.

(** ** The three writers *)

Import Format ContainerSpec.

Arguments Varint.encodeVarint : simpl never.
Arguments Payload.serializeData : simpl never.
Arguments writeUInt32LE : simpl never.

Arguments lookup_name : simpl never.
Arguments packet_id_of : simpl never.

(** Under a name of the table the lookup finds the table's own entry. *)
Lemma packet_id_own n id :
  lookup_name PACKET_IDS n = Some id -> packet_id_of n = Some id.
Proof. unfold packet_id_of. intros ->. reflexivity. Qed.

Lemma writeUInt32LE_length value bytes :
  writeUInt32LE value = Ok bytes -> length bytes = 4%nat.
Proof.
  unfold writeUInt32LE. destruct (_ && _); [|discriminate].
  intros E. inversion E. reflexivity.
Qed.

Lemma same_upto_write d chunk f m :
  same_upto d f m ->
  same_upto (d + Z.of_nat (length chunk)) (FW.stream_write chunk f) (MW.write chunk m).
Proof.
  unfold same_upto, FW.stream_write, MW.write, FW.file_bytes, MW.getBuffer.
  intros (He & Hb & Hn & Hc & Hh & Ht & Hcb). rewrite He. simpl.
  rewrite !concat_app, Hb. repeat split; try assumption; try lia.
  destruct (MW.onPacketCallback m) as [chunks|]; [|exact I].
  rewrite concat_app, Hcb. reflexivity.
Qed.

Lemma same_upto_add d n f m :
  same_upto d f m -> same_upto (d - n) (FW.add_bytesWritten n f) m.
Proof.
  unfold same_upto, FW.add_bytesWritten, FW.file_bytes. simpl.
  intros (He & Hb & Hn & Hc & Hh & Ht & Hcb). repeat split; try assumption; lia.
Qed.

Lemma same_upto_header d f m :
  same_upto d f m -> same_upto d (FW.set_headerWritten f) (MW.set_headerWritten m).
Proof.
  unfold same_upto, FW.set_headerWritten, MW.set_headerWritten, FW.file_bytes,
    MW.getBuffer. simpl.
  intros (He & Hb & Hn & Hc & Hh & Ht & Hcb). repeat split; assumption.
Qed.

Lemma same_upto_timestamp d t f m :
  same_upto d f m -> same_upto d (FW.set_lastTimestamp t f) (MW.set_lastTimestamp t m).
Proof.
  unfold same_upto, FW.set_lastTimestamp, MW.set_lastTimestamp, FW.file_bytes,
    MW.getBuffer. simpl.
  intros (He & Hb & Hn & Hc & Hh & Ht & Hcb). repeat split; assumption.
Qed.

Lemma same_upto_count d f m :
  same_upto d f m -> same_upto d (FW.incr_packetCount f) (MW.incr_packetCount m).
Proof.
  unfold same_upto, FW.incr_packetCount, MW.incr_packetCount, FW.file_bytes,
    MW.getBuffer. simpl.
  intros (He & Hb & Hn & Hc & Hh & Ht & Hcb). repeat split; try assumption; lia.
Qed.

Lemma same_upto_eq d d' f m : d = d' -> same_upto d f m -> same_upto d' f m.
Proof. intros ->. trivial. Qed.

(** One chunk written and accounted for on both sides. *)
Lemma same_output_chunk chunk n f m :
  n = Z.of_nat (length chunk) ->
  same_output f m ->
  same_output (FW.add_bytesWritten n (FW.stream_write chunk f)) (MW.write chunk m).
Proof.
  intros -> H. unfold same_output in *.
  apply (same_upto_eq (0 + Z.of_nat (length chunk) - Z.of_nat (length chunk))); [lia|].
  apply same_upto_add, same_upto_write. exact H.
Qed.

Lemma writeHeader_same f m :
  same_output f m ->
  thrown (FW.writeHeader f) = thrown (MW.writeHeader m) /\
  same_output (state_of (FW.writeHeader f)) (state_of (MW.writeHeader m)).
Proof.
  intros H. unfold FW.writeHeader, MW.writeHeader.
  assert (Hh : FW.headerWritten f = MW.headerWritten m) by apply H.
  rewrite Hh. destruct (MW.headerWritten m); simpl.
  - split; [reflexivity|exact H].
  - split; [reflexivity|].
    apply same_upto_header.
    apply same_output_chunk; [reflexivity|].
    apply same_output_chunk; [reflexivity|]. exact H.
Qed.

Lemma writePacket_same encode record f m :
  same_output f m ->
  thrown (FW.writePacket encode record f) = thrown (MW.writePacket encode record m) /\
  same_output (state_of (FW.writePacket encode record f))
              (state_of (MW.writePacket encode record m)).
Proof.
  intros H. unfold FW.writePacket, MW.writePacket.
  assert (Hh : FW.headerWritten f = MW.headerWritten m) by apply H.
  assert (Ht : FW.lastTimestamp f = MW.lastTimestamp m) by apply H.
  rewrite Hh, Ht. destruct (MW.headerWritten m); simpl negb; cbv iota;
    [|split; [reflexivity|exact H]].
  destruct (packet_id_of (name record)) as [packetId|];
    [|split; [reflexivity|exact H]].
  cbv zeta.
  set (timestampBuf := encodeVarint (timestamp record - MW.lastTimestamp m)).
  assert (H1 : same_output
                 (FW.add_bytesWritten 1
                    (FW.stream_write [packetId]
                       (FW.add_bytesWritten (Z.of_nat (length timestampBuf))
                          (FW.stream_write timestampBuf
                             (FW.set_lastTimestamp (timestamp record) f)))))
                 (MW.write [packetId]
                    (MW.write timestampBuf (MW.set_lastTimestamp (timestamp record) m)))).
  { apply same_output_chunk; [reflexivity|].
    apply same_output_chunk; [reflexivity|].
    apply same_upto_timestamp. exact H. }
  destruct (Payload.serializeData (data record)) as [serialized|e];
    [|split; [reflexivity|exact H1]].
  destruct (writeUInt32LE (Z.of_nat (length (encode serialized)))) as [lenBuf|e] eqn:El;
    [|split; [reflexivity|exact H1]].
  apply writeUInt32LE_length in El.
  split; [reflexivity|]. simpl state_of.
  apply same_upto_count.
  apply (same_upto_eq (0 + Z.of_nat (length lenBuf) + Z.of_nat (length (encode serialized))
                       - (4 + Z.of_nat (length (encode serialized))))); [lia|].
  apply same_upto_add. do 2 apply same_upto_write. exact H1.
Qed.

Lemma close_same encode metadata f m :
  same_output f m ->
  thrown (FW.close encode metadata f) = thrown (MW.close encode metadata m) /\
  FW.file_bytes (state_of (FW.close encode metadata f)) =
  MW.getBuffer (state_of (MW.close encode metadata m)).
Proof.
  intros H. unfold FW.close, MW.close.
  destruct (writeUInt32LE _) as [lenBuf|e]; simpl.
  - split; [reflexivity|].
    assert (H2 : same_upto (0 + Z.of_nat (length (encode (metadata_value metadata)))
                            + Z.of_nat (length lenBuf))
                   (FW.stream_write lenBuf
                      (FW.stream_write (encode (metadata_value metadata)) f))
                   (MW.write lenBuf (MW.write (encode (metadata_value metadata)) m))).
    { do 2 apply same_upto_write. exact H. }
    apply H2.
  - split; [reflexivity|]. apply H.
Qed.

Lemma perform_same encode c f m :
  same_output f m ->
  thrown (FW.perform encode c f) = thrown (MW.perform encode c m) /\
  same_output (state_of (FW.perform encode c f)) (state_of (MW.perform encode c m)).
Proof.
  destruct c as [|record]; simpl.
  - apply writeHeader_same.
  - apply writePacket_same.
Qed.

Lemma session_same encode metadata calls : forall f m,
  same_output f m ->
  fst (FW.session encode calls metadata f) = fst (MW.session encode calls metadata m) /\
  FW.file_bytes (snd (FW.session encode calls metadata f)) =
  MW.getBuffer (snd (MW.session encode calls metadata m)).
Proof.
  induction calls as [|c calls IH]; intros f m H.
  - simpl. destruct (close_same encode metadata f m H) as (Ht & Hb).
    rewrite Ht. split; [reflexivity|exact Hb].
  - simpl. destruct (perform_same encode c f m H) as [Ht Hs].
    destruct (IH _ _ Hs) as [IH1 IH2].
    destruct (FW.session encode calls metadata (state_of (FW.perform encode c f))).
    destruct (MW.session encode calls metadata (state_of (MW.perform encode c m))).
    simpl in *. rewrite Ht, IH1. split; [reflexivity|exact IH2].
Qed.

Lemma write_in_step buffer m : callback_in_step m -> callback_in_step (MW.write buffer m).
Proof.
  intros [chunks [Hc He]]. unfold callback_in_step, MW.write, MW.getBuffer in *. simpl.
  rewrite Hc. eexists. split; [reflexivity|].
  rewrite !concat_app, He. reflexivity.
Qed.

Lemma perform_in_step encode c m :
  callback_in_step m -> callback_in_step (state_of (MW.perform encode c m)).
Proof.
  intros H. destruct c as [|record]; simpl.
  - unfold MW.writeHeader. destruct (MW.headerWritten m); simpl; [exact H|].
    do 2 apply write_in_step. exact H.
  - unfold MW.writePacket. destruct (negb (MW.headerWritten m)); simpl; [exact H|].
    destruct (packet_id_of (name record)) as [packetId|]; [|exact H].
    assert (H0 : callback_in_step (MW.set_lastTimestamp (timestamp record) m)) by exact H.
    destruct (Payload.serializeData (data record)) as [serialized|e]; simpl.
    + destruct (writeUInt32LE _) as [lenBuf|e]; simpl;
        repeat apply write_in_step; exact H0.
    + repeat apply write_in_step; exact H0.
Qed.

Lemma session_in_step encode metadata calls : forall m,
  callback_in_step m ->
  MW.streamed (snd (MW.session encode calls metadata m)) =
  MW.getBuffer (snd (MW.session encode calls metadata m)).
Proof.
  induction calls as [|c calls IH]; intros m H.
  - simpl. unfold MW.close.
    assert (G : forall m', callback_in_step m' -> MW.streamed m' = MW.getBuffer m').
    { intros m' [chunks [Hc He]]. unfold MW.streamed. rewrite Hc. exact He. }
    destruct (writeUInt32LE _) as [lenBuf|e]; simpl; apply G;
      repeat apply write_in_step; exact H.
  - simpl. specialize (IH _ (perform_in_step encode c m H)).
    destruct (MW.session encode calls metadata (state_of (MW.perform encode c m))).
    exact IH.
Qed.

Lemma create_same callback : same_output FW.create (MW.create callback).
Proof. destruct callback; unfold same_output, same_upto; simpl; repeat split. Qed.

Lemma run_same encode operations : forall f m,
  same_output f m -> close_last operations = true ->
  fst (FW.run encode operations f) = fst (MW.run encode operations m) /\
  FW.file_bytes (snd (FW.run encode operations f)) =
  MW.getBuffer (snd (MW.run encode operations m)).
Proof.
  induction operations as [|o operations IH]; intros f m H Hc.
  - simpl. split; [reflexivity|apply H].
  - destruct o as [c|metadata].
    + cbn [close_last] in Hc. cbn [FW.run MW.run FW.operate MW.operate].
      destruct (perform_same encode c f m H) as [Ht Hs].
      destruct (IH _ _ Hs Hc) as [IH1 IH2].
      destruct (FW.run encode operations (state_of (FW.perform encode c f))).
      destruct (MW.run encode operations (state_of (MW.perform encode c m))).
      simpl in *. rewrite Ht, IH1. split; [reflexivity|exact IH2].
    + cbn [close_last] in Hc. destruct operations; [|discriminate].
      cbn [FW.run MW.run FW.operate MW.operate fst snd].
      destruct (close_same encode metadata f m H) as (Ht & Hb).
      rewrite Ht. split; [reflexivity|exact Hb].
Qed.

Lemma close_in_step encode metadata m :
  callback_in_step m -> callback_in_step (state_of (MW.close encode metadata m)).
Proof.
  intros H. unfold MW.close.
  destruct (writeUInt32LE _) as [lenBuf|e]; simpl; repeat apply write_in_step; exact H.
Qed.

Lemma run_in_step encode operations : forall m,
  callback_in_step m ->
  MW.streamed (snd (MW.run encode operations m)) =
  MW.getBuffer (snd (MW.run encode operations m)).
Proof.
  induction operations as [|o operations IH]; intros m H.
  - simpl. destruct H as [chunks [Hc He]]. unfold MW.streamed. rewrite Hc. exact He.
  - cbn [MW.run].
    assert (H' : callback_in_step (state_of (MW.operate encode o m))).
    { destruct o as [c|metadata]; cbn [MW.operate];
        [apply perform_in_step|apply close_in_step]; exact H. }
    specialize (IH _ H').
    destruct (MW.run encode operations (state_of (MW.operate encode o m))).
    exact IH.
Qed.

(** C7 (as amended): for every sequence of [writeHeader] and [writePacket]
    calls, ended or not by one [close] after which no call is made, made with
    the same arguments on the file-backed writer, on the in-memory writer and
    on the streaming writer (the in-memory writer with a chunk callback), the
    file, the collected buffer and the chunks handed to the callback hold the
    same bytes; the same calls throw the same errors. *)
Theorem writers_byte_identical (encode : Payload.value -> list Z) operations :
  close_last operations = true ->
  let file := FW.run encode operations FW.create in
  let memory := MW.run encode operations (MW.create false) in
  let streaming := MW.run encode operations (MW.create true) in
  FW.file_bytes (snd file) = MW.getBuffer (snd memory) /\
  FW.file_bytes (snd file) = MW.streamed (snd streaming) /\
  fst file = fst memory /\
  fst file = fst streaming.
Proof.
  intros Hc file memory streaming.
  destruct (run_same encode operations _ _ (create_same false) Hc) as [E1 B1].
  destruct (run_same encode operations _ _ (create_same true) Hc) as [E2 B2].
  assert (S : MW.streamed (snd streaming) = MW.getBuffer (snd streaming)).
  { apply run_in_step. exists []. split; reflexivity. }
  subst file memory streaming. rewrite S. auto.
Qed.

(** ** Writing and reading back *)

Import RoundTripSpec.

(** What each step of the file-backed writer leaves of the fields. *)
Lemma fw_write_ended c w : FW.ended (FW.stream_write c w) = FW.ended w.
Proof. unfold FW.stream_write. destruct (FW.ended w) eqn:E; [exact E|reflexivity]. Qed.

Lemma fw_write_header c w : FW.headerWritten (FW.stream_write c w) = FW.headerWritten w.
Proof. unfold FW.stream_write. destruct (FW.ended w); reflexivity. Qed.

Lemma fw_write_last c w : FW.lastTimestamp (FW.stream_write c w) = FW.lastTimestamp w.
Proof. unfold FW.stream_write. destruct (FW.ended w); reflexivity. Qed.

Lemma fw_write_bytes c w :
  FW.ended w = false -> FW.file_bytes (FW.stream_write c w) = FW.file_bytes w ++ c.
Proof.
  intros E. unfold FW.stream_write, FW.file_bytes. rewrite E. simpl.
  rewrite concat_app. simpl. rewrite app_nil_r. reflexivity.
Qed.

Lemma fw_add_ended n w : FW.ended (FW.add_bytesWritten n w) = FW.ended w.
Proof. reflexivity. Qed.
Lemma fw_add_header n w : FW.headerWritten (FW.add_bytesWritten n w) = FW.headerWritten w.
Proof. reflexivity. Qed.
Lemma fw_add_last n w : FW.lastTimestamp (FW.add_bytesWritten n w) = FW.lastTimestamp w.
Proof. reflexivity. Qed.
Lemma fw_add_bytes n w : FW.file_bytes (FW.add_bytesWritten n w) = FW.file_bytes w.
Proof. reflexivity. Qed.
Lemma fw_last_ended t w : FW.ended (FW.set_lastTimestamp t w) = FW.ended w.
Proof. reflexivity. Qed.
Lemma fw_last_header t w : FW.headerWritten (FW.set_lastTimestamp t w) = FW.headerWritten w.
Proof. reflexivity. Qed.
Lemma fw_last_last t w : FW.lastTimestamp (FW.set_lastTimestamp t w) = t.
Proof. reflexivity. Qed.
Lemma fw_last_bytes t w : FW.file_bytes (FW.set_lastTimestamp t w) = FW.file_bytes w.
Proof. reflexivity. Qed.
Lemma fw_count_ended w : FW.ended (FW.incr_packetCount w) = FW.ended w.
Proof. reflexivity. Qed.
Lemma fw_count_header w : FW.headerWritten (FW.incr_packetCount w) = FW.headerWritten w.
Proof. reflexivity. Qed.
Lemma fw_count_last w : FW.lastTimestamp (FW.incr_packetCount w) = FW.lastTimestamp w.
Proof. reflexivity. Qed.
Lemma fw_count_bytes w : FW.file_bytes (FW.incr_packetCount w) = FW.file_bytes w.
Proof. reflexivity. Qed.

Ltac fw_fields :=
  repeat progress rewrite ?fw_write_ended, ?fw_write_header, ?fw_write_last,
    ?fw_add_ended, ?fw_add_header, ?fw_add_last, ?fw_add_bytes,
    ?fw_last_ended, ?fw_last_header, ?fw_last_last, ?fw_last_bytes,
    ?fw_count_ended, ?fw_count_header, ?fw_count_last, ?fw_count_bytes.

Lemma writeUInt32LE_Ok n :
  0 <= n <= 0xFFFFFFFF ->
  writeUInt32LE n = Ok [n mod 256; n / 256 mod 256; n / 65536 mod 256; n / 16777216 mod 256].
Proof.
  intros H. unfold writeUInt32LE.
  destruct (Z.leb_spec 0 n); [|lia].
  destruct (Z.leb_spec n 0xFFFFFFFF); [|lia]. reflexivity.
Qed.

Lemma readUInt32LE_writeUInt32LE n bytes :
  writeUInt32LE n = Ok bytes -> readUInt32LE bytes = n /\ length bytes = 4%nat.
Proof.
  unfold writeUInt32LE.
  destruct (Z.leb_spec 0 n); [|discriminate].
  destruct (Z.leb_spec n 0xFFFFFFFF); [|discriminate].
  simpl. intros E. inversion E; subst. split; [|reflexivity].
  unfold readUInt32LE. simpl. Z.to_euclidean_division_equations. lia.
Qed.

(** A [writePacket] that goes through appends the record's frame. *)
Lemma writePacket_frame_id encode r w s id :
  FW.headerWritten w = true -> FW.ended w = false ->
  packet_id_of (name r) = Some id ->
  Payload.serializeData (data r) = Ok s ->
  Z.of_nat (length (encode s)) <= 0xFFFFFFFF ->
  exists w',
    FW.writePacket encode r w = Returns w' /\
    FW.headerWritten w' = true /\ FW.ended w' = false /\
    FW.lastTimestamp w' = timestamp r /\
    FW.file_bytes w' = FW.file_bytes w ++ frame encode (FW.lastTimestamp w) r.
Proof.
  intros Hh He En Hs Hl. unfold FW.writePacket, frame.
  rewrite Hh. simpl negb. cbv iota.
  rewrite En, Hs. cbv zeta.
  rewrite writeUInt32LE_Ok by lia.
  eexists. split; [reflexivity|].
  repeat split; fw_fields; try assumption; try reflexivity.
  repeat (rewrite fw_write_bytes by (fw_fields; exact He);
          fw_fields).
  rewrite <- !app_assoc. reflexivity.
Qed.

Lemma writePacket_frame encode r w s :
  FW.headerWritten w = true -> FW.ended w = false -> known r ->
  Payload.serializeData (data r) = Ok s ->
  Z.of_nat (length (encode s)) <= 0xFFFFFFFF ->
  exists w',
    FW.writePacket encode r w = Returns w' /\
    FW.headerWritten w' = true /\ FW.ended w' = false /\
    FW.lastTimestamp w' = timestamp r /\
    FW.file_bytes w' = FW.file_bytes w ++ frame encode (FW.lastTimestamp w) r.
Proof.
  intros Hh He Hk Hs Hl. unfold known in Hk.
  destruct (lookup_name PACKET_IDS (name r)) as [packetId|] eqn:En; [|congruence].
  apply (writePacket_frame_id encode r w s packetId Hh He (packet_id_own _ _ En) Hs Hl).
Qed.

Lemma close_bytes encode decode metadata w :
  FW.ended w = false ->
  codec_carries encode decode (metadata_value metadata) ->
  exists lenBuf,
    writeUInt32LE (Z.of_nat (length (encode (metadata_value metadata)))) = Ok lenBuf /\
    thrown (FW.close encode metadata w) = None /\
    FW.file_bytes (state_of (FW.close encode metadata w)) =
    FW.file_bytes w ++ encode (metadata_value metadata) ++ lenBuf.
Proof.
  intros He [_ Hl]. unfold FW.close.
  rewrite writeUInt32LE_Ok by lia.
  eexists. split; [reflexivity|]. split; [reflexivity|].
  simpl state_of. unfold FW.stream_end, FW.file_bytes at 1. simpl FW.stream.
  change (concat (FW.stream ?w)) with (FW.file_bytes w).
  rewrite !fw_write_bytes by (fw_fields; exact He).
  rewrite <- app_assoc. reflexivity.
Qed.

(** The file a session of well-formed records leaves: the frames in order,
    then the metadata block and its length. No call throws. *)
Lemma session_frames encode decode metadata records : forall w,
  FW.headerWritten w = true -> FW.ended w = false ->
  Forall known records ->
  Forall (fun r => Faithful.faithful (data r) = true) records ->
  Forall (fun r => carries_payload encode decode (data r)) records ->
  codec_carries encode decode (metadata_value metadata) ->
  exists lenBuf,
    writeUInt32LE (Z.of_nat (length (encode (metadata_value metadata)))) = Ok lenBuf /\
    fst (FW.session encode (map WritePacket records) metadata w)
    = repeat None (S (length records)) /\
    FW.file_bytes (snd (FW.session encode (map WritePacket records) metadata w))
    = FW.file_bytes w ++ frames encode (FW.lastTimestamp w) records
        ++ encode (metadata_value metadata) ++ lenBuf.
Proof.
  induction records as [|r records IH]; intros w Hh He Hk Hf Hc Hm.
  - destruct (close_bytes encode decode metadata w He Hm) as (lenBuf & El & Ht & Hb).
    exists lenBuf. simpl. rewrite Ht, Hb. auto.
  - inversion Hk as [|? ? Hk1 Hk2]; inversion Hf as [|? ? Hf1 Hf2];
      inversion Hc as [|? ? Hc1 Hc2]; subst.
    destruct (normalize_roundtrip _ Hf1) as [s [Hs _]].
    unfold carries_payload in Hc1. rewrite Hs in Hc1. destruct Hc1 as [_ Hl].
    destruct (writePacket_frame encode r w s Hh He Hk1 Hs Hl)
      as (w' & Hw & Hh' & He' & Ht' & Hb').
    destruct (IH w' Hh' He' Hk2 Hf2 Hc2 Hm) as (lenBuf & El & IH1 & IH2).
    exists lenBuf. split; [exact El|].
    simpl map. simpl FW.session. unfold FW.perform. rewrite Hw. simpl state_of.
    destruct (FW.session encode (map WritePacket records) metadata w') as [errors wf].
    simpl in *. rewrite IH1, IH2, Hb', Ht'. rewrite <- !app_assoc. auto.
Qed.

Lemma recorded_bytes encode decode metadata records :
  Forall known records ->
  Forall (fun r => Faithful.faithful (data r) = true) records ->
  Forall (fun r => carries_payload encode decode (data r)) records ->
  codec_carries encode decode (metadata_value metadata) ->
  exists lenBuf,
    writeUInt32LE (Z.of_nat (length (encode (metadata_value metadata)))) = Ok lenBuf /\
    fst (recording encode records metadata) = repeat None (S (S (length records))) /\
    recorded encode records metadata
    = bytes_of_string MAGIC ++ [VERSION] ++ frames encode 0 records
        ++ encode (metadata_value metadata) ++ lenBuf.
Proof.
  intros Hk Hf Hc Hm. unfold recorded, recording.
  simpl FW.session. unfold FW.perform.
  change (FW.writeHeader FW.create) with
    (Returns (FW.set_headerWritten
                (FW.add_bytesWritten 1
                   (FW.stream_write [VERSION]
                      (FW.add_bytesWritten 8
                         (FW.stream_write (bytes_of_string MAGIC) FW.create)))))).
  simpl state_of.
  match goal with
  | |- context [FW.session encode _ metadata ?w] =>
      destruct (session_frames encode decode metadata records w
                  eq_refl eq_refl Hk Hf Hc Hm) as (lenBuf & El & H1 & H2);
      destruct (FW.session encode (map WritePacket records) metadata w) as [errors wf]
  end.
  exists lenBuf. simpl in *. rewrite H1, H2. auto.
Qed.

Lemma readSync_at file pre rest n pos :
  file = pre ++ rest -> pos = Z.of_nat (length pre) ->
  RD.readSync file n pos = firstn n rest.
Proof.
  intros -> ->. unfold RD.readSync. rewrite Nat2Z.id.
  rewrite skipn_app, skipn_all, Nat.sub_diag. reflexivity.
Qed.

Lemma read_exact_at file pre chunk post n pos :
  file = pre ++ chunk ++ post -> pos = Z.of_nat (length pre) -> n = length chunk ->
  RD.read_exact file n pos = Ok chunk.
Proof.
  intros Hf Hp ->. unfold RD.read_exact.
  destruct (Z.ltb_spec pos 0); [lia|].
  rewrite (readSync_at file pre (chunk ++ post)) by assumption.
  rewrite firstn_app, firstn_all, Nat.sub_diag. simpl. rewrite app_nil_r.
  rewrite Nat.eqb_refl. reflexivity.
Qed.

Lemma lookup_id_name name id :
  lookup_name PACKET_IDS name = Some id -> lookup_id ID_TO_PACKET id = Some name.
Proof.
  unfold PACKET_IDS, lookup_name. intros H.
  repeat match type of H with
         | (if String.eqb ?a name then _ else _) = _ =>
             destruct (String.eqb_spec a name);
             [inversion H; subst; reflexivity|]
         end.
  discriminate.
Qed.

Lemma encodeVarint_loop_length turns : forall n,
  (1 <= length (encodeVarint_loop turns n) <= S turns)%nat.
Proof.
  induction turns as [|turns IH]; intros n; simpl.
  - lia.
  - destruct (128 <=? n); simpl; [specialize (IH (JS.ushr n 7))|]; lia.
Qed.

Lemma encodeVarint_length n :
  0 <= n < 2 ^ 31 -> (1 <= length (encodeVarint n) <= 5)%nat.
Proof.
  intros Hn. unfold encodeVarint.
  pose proof (encodeVarint_loop_stable 4 n 1) as E. simpl Nat.add in E.
  rewrite E by (change (2 ^ (7 * (Z.of_nat 4 + 1))) with (2 ^ 35); lia).
  apply encodeVarint_loop_length.
Qed.

Lemma mapToObject_metadata metadata :
  Payload.mapToObject (metadata_value metadata) = metadata_value metadata.
Proof. destruct metadata as [[[x y] z] st en bot ver]. reflexivity. Qed.

Ltac lengths := repeat first [rewrite length_app | progress (cbn [length])].

Lemma frame_shape encode decode last r :
  known r -> 0 <= timestamp r - last < 2 ^ 31 ->
  Faithful.faithful (data r) = true -> carries_payload encode decode (data r) ->
  exists packetId s lenBuf,
    lookup_name PACKET_IDS (name r) = Some packetId /\
    normalizes (data r) s /\
    decode (encode s) = Some s /\
    readUInt32LE lenBuf = Z.of_nat (length (encode s)) /\ length lenBuf = 4%nat /\
    frame encode last r
    = encodeVarint (timestamp r - last) ++ [packetId] ++ lenBuf ++ encode s.
Proof.
  intros Hk Hd Hf Hc. unfold known in Hk.
  destruct (lookup_name PACKET_IDS (name r)) as [packetId|] eqn:En; [|congruence].
  destruct (normalize_roundtrip _ Hf) as [s Hs].
  unfold carries_payload in Hc. rewrite (proj1 Hs) in Hc. destruct Hc as [Hdec Hlen].
  destruct (writeUInt32LE (Z.of_nat (length (encode s)))) as [lenBuf|e] eqn:El;
    [|rewrite writeUInt32LE_Ok in El by lia; discriminate].
  destruct (readUInt32LE_writeUInt32LE _ _ El) as [Hr Hl4].
  exists packetId, s, lenBuf. unfold frame.
  rewrite (packet_id_own _ _ En), (proj1 Hs), El.
  split; [reflexivity|]. split; [exact Hs|]. split; [exact Hdec|].
  split; [exact Hr|]. split; [exact Hl4|reflexivity].
Qed.

(** Reading the frames of well-formed records gives the records back. *)
Lemma readPackets_frames encode decode records : forall r pre last tail turns,
  RD.file r = pre ++ frames encode last records ++ tail ->
  RD.dataEndOffset r = Z.of_nat (length pre + length (frames encode last records)) ->
  (4 <= length tail)%nat ->
  Forall known records -> deltas_ok last records ->
  Forall (fun p => Faithful.faithful (data p) = true) records ->
  Forall (fun p => carries_payload encode decode (data p)) records ->
  (length (frames encode last records) <= turns)%nat ->
  RD.readPackets_loop decode r turns (Z.of_nat (length pre)) last = Ok records.
Proof.
  induction records as [|p records IH]; intros r pre last tail turns Hfile Hend Htail
    Hk Hd Hf Hc Hturns.
  - simpl in Hend. destruct turns as [|turns]; [reflexivity|]. simpl.
    rewrite Hend. rewrite Nat.add_0_r. rewrite Z.ltb_irrefl. reflexivity.
  - inversion Hk as [|? ? Hk1 Hk2]; inversion Hf as [|? ? Hf1 Hf2];
      inversion Hc as [|? ? Hc1 Hc2]; subst. destruct Hd as [Hd1 Hd2].
    destruct (frame_shape encode decode last p Hk1 Hd1 Hf1 Hc1)
      as (packetId & s & lenBuf & En & [Hser Hdes] & Hdec & Hr & Hl4 & Efr).
    simpl frames in *. rewrite Efr in *.
    set (varint := encodeVarint (timestamp p - last)) in *.
    set (dataBuf := encode s) in *.
    set (more := frames encode (timestamp p) records) in *.
    pose proof (encodeVarint_length _ Hd1) as Hv. fold varint in Hv.
    rewrite !length_app in Hturns, Hend. simpl length in Hturns, Hend.
    destruct turns as [|turns]; [lia|].
    cbn [RD.readPackets_loop].
    replace (Z.of_nat (length pre) <? RD.dataEndOffset r) with true
      by (symmetry; apply Z.ltb_lt; lia).
    (* the five bytes read for the varint *)
    rewrite (readSync_at (RD.file r) pre
               (varint ++ [packetId] ++ lenBuf ++ dataBuf ++ more ++ tail))
      by (rewrite ?Hfile, <- ?app_assoc; reflexivity).
    rewrite firstn_app, (firstn_all2 (n := 5) varint) by lia.
    replace ((length (varint ++ firstn (5 - length varint)
                ([packetId] ++ lenBuf ++ dataBuf ++ more ++ tail)) =? 0)%nat)
      with false by (symmetry; apply Nat.eqb_neq; rewrite length_app; lia).
    unfold decodeVarint. simpl skipn.
    match goal with
    | |- context [decodeVarint_loop (varint ++ ?X) 0 0 0] =>
        pose proof (decode_encode_varint_app _ X Hd1) as Hdv
    end.
    fold varint in Hdv. rewrite Hdv. clear Hdv.
    cbv beta iota zeta.
    (* the packet id *)
    rewrite (read_exact_at (RD.file r) (pre ++ varint) [packetId]
               (lenBuf ++ dataBuf ++ more ++ tail))
      by (rewrite ?Hfile, <- ?app_assoc; lengths; try reflexivity; lia).
    cbn [bind nth].
    rewrite (lookup_id_name _ _ En).
    (* the length and the data *)
    rewrite (read_exact_at (RD.file r) (pre ++ varint ++ [packetId]) lenBuf
               (dataBuf ++ more ++ tail))
      by (rewrite ?Hfile, <- ?app_assoc; lengths; try reflexivity; lia).
    cbn [bind]. rewrite Hr, Nat2Z.id.
    rewrite (read_exact_at (RD.file r) (pre ++ varint ++ [packetId] ++ lenBuf) dataBuf
               (more ++ tail))
      by (rewrite ?Hfile, <- ?app_assoc; lengths; try reflexivity; lia).
    cbn [bind]. rewrite Hdec, Hdes. cbn [bind].
    (* the records that follow *)
    replace (Z.of_nat (length pre) + Z.of_nat (length varint) + 1 + 4
             + Z.of_nat (length dataBuf))
      with (Z.of_nat (length (pre ++ varint ++ [packetId] ++ lenBuf ++ dataBuf)))
      by (lengths; lia).
    replace (last + (timestamp p - last)) with (timestamp p) by lia.
    rewrite (IH r _ (timestamp p) tail turns); try assumption.
    + simpl. destruct p as [t n d]. reflexivity.
    + rewrite Hfile, <- ?app_assoc. reflexivity.
    + rewrite Hend. lengths. fold more. lia.
    + fold more. lia.
Qed.

Arguments lookup_id : simpl never.
Arguments bytes_of_string : simpl never.

Lemma magic_accepted : ascii_equals (bytes_of_string MAGIC) MAGIC = true.
Proof. vm_compute. reflexivity. Qed.

Lemma magic_length : length (bytes_of_string MAGIC) = 8%nat.
Proof. vm_compute. reflexivity. Qed.

(** C2 (as amended): for every record stream whose names are in the packet-id
    table, whose timestamp deltas are between [0] and [2^31 - 1], and whose
    payloads contain no map shaped like the blob envelope and no key
    [__proto__] or [hasOwnProperty], and for every metadata value, provided
    the schema-less codec carries the normalized payloads and the metadata
    (decoding gives back what was encoded, within a [u32] length): writing
    the records and the metadata with the replay writer ([writeHeader],
    [writePacket] for each record, [close(metadata)]) raises no error, and
    loading the file yields the same metadata and exactly the records, with
    the same absolute timestamps, names and payload trees, byte blobs
    included. *)
Theorem load_recorded encode decode records metadata :
  Forall known records ->
  deltas_ok 0 records ->
  Forall (fun r => Faithful.faithful (data r) = true) records ->
  Forall (fun r => carries_payload encode decode (data r)) records ->
  codec_carries encode decode (metadata_value metadata) ->
  fst (recording encode records metadata) = repeat None (S (S (length records))) /\
  RD.load decode (recorded encode records metadata)
  = Ok (Some (metadata_value metadata), records).
Proof.
  intros Hk Hd Hf Hc Hm.
  destruct (recorded_bytes encode decode metadata records Hk Hf Hc Hm)
    as (lenBuf & El & Herr & Hfile).
  split; [exact Herr|].
  destruct (readUInt32LE_writeUInt32LE _ _ El) as [Hr Hl4].
  destruct Hm as [Hdec _].
  set (file := recorded encode records metadata) in *.
  set (fr := frames encode 0 records) in *.
  set (metaBuf := encode (metadata_value metadata)) in *.
  pose proof magic_length as Hml.
  unfold RD.load, RD.open.
  (* the header *)
  assert (Hh : RD.readHeader file = Ok 9).
  { unfold RD.readHeader.
    rewrite (read_exact_at file [] (bytes_of_string MAGIC)
               ([VERSION] ++ fr ++ metaBuf ++ lenBuf))
      by (rewrite ?Hfile, ?Hml; reflexivity).
    cbn [bind]. rewrite magic_accepted. cbn [negb].
    rewrite (read_exact_at file (bytes_of_string MAGIC) [VERSION]
               (fr ++ metaBuf ++ lenBuf))
      by (rewrite ?Hfile, ?Hml; reflexivity).
    reflexivity. }
  rewrite Hh. cbn [bind].
  (* the metadata block *)
  assert (Hsize : Z.of_nat (length file)
                  = 9 + Z.of_nat (length fr) + Z.of_nat (length metaBuf) + 4).
  { rewrite Hfile. lengths. rewrite Hml, Hl4. lia. }
  assert (Hmd : RD.readMetadata decode file
                = Ok (metadata_value metadata, 9 + Z.of_nat (length fr))).
  { unfold RD.readMetadata.
    rewrite (read_exact_at file (bytes_of_string MAGIC ++ [VERSION] ++ fr ++ metaBuf)
               lenBuf [])
      by (rewrite ?Hfile, ?app_nil_r, <- ?app_assoc, ?Hsize; lengths;
          rewrite ?Hml; try reflexivity; lia).
    cbn [bind]. rewrite Hr. fold metaBuf. rewrite Nat2Z.id.
    rewrite (read_exact_at file (bytes_of_string MAGIC ++ [VERSION] ++ fr)
               metaBuf lenBuf)
      by (rewrite ?Hfile, <- ?app_assoc, ?Hsize; lengths;
          rewrite ?Hml; try reflexivity; lia).
    cbn [bind]. rewrite Hdec, mapToObject_metadata.
    do 2 f_equal. lia. }
  rewrite Hmd. cbn [bind fst snd].
  (* the packet stream *)
  unfold RD.readAllSync.
  cbn [RD.dataEndOffset RD.dataStartOffset RD.metadata].
  replace (Z.to_nat (9 + Z.of_nat (length fr) - 9)) with (length fr) by lia.
  match goal with
  | |- context [RD.readPackets_loop decode ?r0 _ _ _] =>
      pose proof (readPackets_frames encode decode records r0
                    (bytes_of_string MAGIC ++ [VERSION]) 0 (metaBuf ++ lenBuf)
                    (length fr)) as Hloop
  end.
  change (Z.of_nat (length (bytes_of_string MAGIC ++ [VERSION]))) with 9 in Hloop.
  rewrite Hloop; try assumption; try reflexivity.
  - cbn [RD.dataEndOffset]. lengths. rewrite Hml. fold fr. lia.
  - lengths. lia.
Qed.

Import Samples.

Lemma load_recorded_witness :
  Forall known sample_records /\
  deltas_ok 0 sample_records /\
  Forall (fun r => Faithful.faithful (data r) = true) sample_records /\
  Forall (fun r => carries_payload SampleCodec.encode SampleCodec.decode (data r))
         sample_records /\
  codec_carries SampleCodec.encode SampleCodec.decode (metadata_value sample_metadata) /\
  fst (recording SampleCodec.encode sample_records sample_metadata)
  = repeat None (S (S (length sample_records))) /\
  RD.load SampleCodec.decode (recorded SampleCodec.encode sample_records sample_metadata)
  = Ok (Some (metadata_value sample_metadata), sample_records).
Proof.
  assert (Hk : Forall known sample_records)
    by (repeat constructor; vm_compute; discriminate).
  assert (Hd : deltas_ok 0 sample_records) by (simpl; lia).
  assert (Hf : Forall (fun r => Faithful.faithful (data r) = true) sample_records)
    by (repeat constructor).
  assert (Hc : Forall (fun r => carries_payload SampleCodec.encode SampleCodec.decode
                                  (data r)) sample_records)
    by (repeat constructor; vm_compute; discriminate).
  assert (Hm : codec_carries SampleCodec.encode SampleCodec.decode
                 (metadata_value sample_metadata))
    by (split; vm_compute; [reflexivity|discriminate]).
  repeat (split; [assumption|]).
  exact (load_recorded SampleCodec.encode SampleCodec.decode sample_records
           sample_metadata Hk Hd Hf Hc Hm).
Defined.

(** C2 as stated fails: a record whose payload is a map with the envelope's
    shape is written without error and is read back with a byte blob in its
    place. *)
Lemma load_recorded_counterexample :
  Forall known [envelope_record] /\
  deltas_ok 0 [envelope_record] /\
  fst (recording SampleCodec.encode [envelope_record] sample_metadata)
  = [None; None; None] /\
  RD.load SampleCodec.decode
    (recorded SampleCodec.encode [envelope_record] sample_metadata)
  = Ok (Some (metadata_value sample_metadata),
        [{| timestamp := 0; name := "chat"; data := Payload.VBuf [1; 2; 3] |}]).
Proof.
  split; [repeat constructor; vm_compute; discriminate|].
  split; [simpl; lia|].
  split; vm_compute; reflexivity.
Qed.

(** ** Calls made after [close] *)

Lemma writers_byte_identical_witness :
  let operations :=
    [Call (WritePacket chat_record); Call WriteHeader; Call (WritePacket chat_record);
     Call WriteHeader; Call (WritePacket image_record); Close sample_metadata] in
  let file := FW.run SampleCodec.encode operations FW.create in
  let memory := MW.run SampleCodec.encode operations (MW.create false) in
  let streaming := MW.run SampleCodec.encode operations (MW.create true) in
  close_last operations = true /\
  fst file = [Some HeaderNotWritten; None; None; Some HeaderAlreadyWritten; None; None] /\
  FW.file_bytes (snd file)
  = recorded SampleCodec.encode [chat_record; image_record] sample_metadata /\
  FW.file_bytes (snd file) = MW.getBuffer (snd memory) /\
  FW.file_bytes (snd file) = MW.streamed (snd streaming) /\
  fst file = fst memory /\
  fst file = fst streaming.
Proof.
  intros operations file memory streaming.
  split; [reflexivity|]. split; [reflexivity|]. split; [vm_compute; reflexivity|].
  exact (writers_byte_identical SampleCodec.encode operations eq_refl).
Defined.

(** C7 as stated fails: after [writeHeader], [close] and one more
    [writePacket], none of which throws, the in-memory writer has appended the
    frame of the record to its buffer, behind the metadata, while the file,
    whose stream [close] has ended, holds nothing more than before the call. *)
Lemma writers_differ_after_close :
  let operations :=
    [Call WriteHeader; Close sample_metadata; Call (WritePacket chat_record)] in
  let file := FW.run SampleCodec.encode operations FW.create in
  let memory := MW.run SampleCodec.encode operations (MW.create false) in
  close_last operations = false /\
  fst file = [None; None; None] /\
  fst memory = [None; None; None] /\
  FW.file_bytes (snd file) = recorded SampleCodec.encode [] sample_metadata /\
  MW.getBuffer (snd memory)
  = recorded SampleCodec.encode [] sample_metadata
      ++ frame SampleCodec.encode 0 chat_record /\
  FW.file_bytes (snd file) <> MW.getBuffer (snd memory).
Proof.
  repeat split; try (vm_compute; reflexivity). vm_compute. discriminate.
Qed.

(** ** Negative timestamp deltas *)

Lemma encodeVarint_negative delta :
  delta < 0 -> encodeVarint delta = [JS.and delta 0x7F].
Proof.
  intros H. rewrite encodeVarint_unfold.
  destruct (Z.leb_spec 0x80 delta); [lia|reflexivity].
Qed.

(** C3 (as amended): a [writePacket] call (header written, packet name in the
    table, payload that normalizes and fits the length field) whose record
    timestamp is less than the writer's last timestamp raises no error: the
    record is encoded, the negative delta as the single byte [delta & 0x7F],
    and the record's timestamp becomes the writer's last timestamp. *)
Theorem writePacket_negative_delta encode r w s :
  FW.headerWritten w = true -> FW.ended w = false -> known r ->
  Payload.serializeData (data r) = Ok s ->
  Z.of_nat (length (encode s)) <= 0xFFFFFFFF ->
  timestamp r < FW.lastTimestamp w ->
  exists w',
    FW.writePacket encode r w = Returns w' /\
    FW.lastTimestamp w' = timestamp r /\
    FW.file_bytes w' = FW.file_bytes w ++ frame encode (FW.lastTimestamp w) r /\
    encodeVarint (timestamp r - FW.lastTimestamp w)
    = [JS.and (timestamp r - FW.lastTimestamp w) 0x7F].
Proof.
  intros Hh He Hk Hs Hl Hneg.
  destruct (writePacket_frame encode r w s Hh He Hk Hs Hl)
    as (w' & Hw & _ & _ & Ht & Hb).
  exists w'. repeat split; try assumption.
  apply encodeVarint_negative. lia.
Qed.

Lemma writePacket_negative_delta_witness :
  FW.headerWritten writer_at_10 = true /\ FW.ended writer_at_10 = false /\
  known late_record /\
  Payload.serializeData (data late_record) = Ok (data late_record) /\
  Z.of_nat (length (SampleCodec.encode (data late_record))) <= 0xFFFFFFFF /\
  timestamp late_record < FW.lastTimestamp writer_at_10 /\
  exists w',
    FW.writePacket SampleCodec.encode late_record writer_at_10 = Returns w' /\
    FW.lastTimestamp w' = timestamp late_record /\
    FW.file_bytes w'
    = FW.file_bytes writer_at_10
        ++ frame SampleCodec.encode (FW.lastTimestamp writer_at_10) late_record /\
    encodeVarint (timestamp late_record - FW.lastTimestamp writer_at_10)
    = [JS.and (timestamp late_record - FW.lastTimestamp writer_at_10) 0x7F].
Proof.
  assert (Hk : known late_record) by (vm_compute; discriminate).
  assert (Hl : Z.of_nat (length (SampleCodec.encode (data late_record))) <= 0xFFFFFFFF)
    by (vm_compute; discriminate).
  assert (Hn : timestamp late_record < FW.lastTimestamp writer_at_10)
    by (simpl; lia).
  repeat (split; [first [reflexivity | assumption]|]).
  exact (writePacket_negative_delta SampleCodec.encode late_record writer_at_10
           (data late_record) eq_refl eq_refl Hk eq_refl Hl Hn).
Defined.

(** C3 as stated fails: a record at 5 ms given to a writer whose last
    timestamp is 10 ms is not rejected; [writePacket] returns, having written
    the delta [-5] as the byte [0x7B] ahead of the packet id [15]. *)
Lemma writePacket_negative_delta_counterexample :
  timestamp late_record < FW.lastTimestamp writer_at_10 /\
  thrown (FW.writePacket SampleCodec.encode late_record writer_at_10) = None /\
  FW.stream (state_of (FW.writePacket SampleCodec.encode late_record writer_at_10))
  = FW.stream writer_at_10
      ++ [[0x7B]; [15]; [19; 0; 0; 0];
          SampleCodec.encode (data late_record)] /\
  FW.lastTimestamp (state_of (FW.writePacket SampleCodec.encode late_record writer_at_10))
  = 5.
Proof.
  split; [simpl; lia|].
  split; [|split]; vm_compute; reflexivity.
Qed.

(** ** The world-state projection *)

Import ReplayPlayer PlayerSpec.

Lemma map_get_set_same {V : Type} (m : list (string * V)) k v :
  map_get (map_set k v m) k = Some v.
Proof.
  induction m as [|[j w] m IH]; simpl.
  - rewrite String.eqb_refl. reflexivity.
  - destruct (String.eqb j k) eqn:E; simpl; rewrite E; [reflexivity|exact IH].
Qed.

Lemma push_state_list key packet w :
  state_list (set_worldState (push_state key packet (worldState w)) w) key
  = state_list w key ++ [packet].
Proof.
  unfold state_list, push_state, map_has. simpl.
  destruct (map_get (worldState w) key) as [l|] eqn:E.
  - rewrite E, map_get_set_same. reflexivity.
  - rewrite !map_get_set_same. reflexivity.
Qed.

Lemma get_prop_has_data packet key :
  has_data packet = true -> exists v, get_prop (data packet) key = Ok v.
Proof.
  unfold has_data, get_prop. destruct (data packet); try discriminate; eauto.
  destruct (obj_get props key); eauto.
Qed.

Lemma is_spawn_names n :
  is_spawn n = true ->
  n = "named_entity_spawn" \/ n = "spawn_entity_living" \/ n = "spawn_entity".
Proof.
  unfold is_spawn. intros H.
  apply orb_true_iff in H. destruct H as [H|H].
  - apply orb_true_iff in H. destruct H as [H|H]; apply String.eqb_eq in H; auto.
  - apply String.eqb_eq in H. auto.
Qed.

(** C10 (as amended): on a record whose data is neither [null] nor
    [undefined], [trackWorldStatePacket] behaves as follows. A spawn record
    ([named_entity_spawn], [spawn_entity_living], [spawn_entity]) whose data
    has no [entityId] is appended to its per-name log and leaves [entityIds]
    as it was; an [entity_destroy] whose data has no [entityIds] array
    changes nothing; and no error is raised, provided that a [map_chunk]
    with both [x] and [z] has coordinates that convert to strings. *)
Theorem trackWorldStatePacket_total packet w :
  has_data packet = true ->
  (is_spawn (name packet) = true ->
   get_prop (data packet) "entityId" = Ok Payload.VUndefined ->
   exists w',
     trackWorldStatePacket packet w = Ok w' /\
     activeEntityIds w' = activeEntityIds w /\
     state_list w' (name packet) = state_list w (name packet) ++ [packet]) /\
  (name packet = "entity_destroy" ->
   (forall ids, get_prop (data packet) "entityIds" <> Ok (Payload.VArr ids)) ->
   trackWorldStatePacket packet w = Ok w) /\
  (chunk_key_converts packet = true ->
   exists w', trackWorldStatePacket packet w = Ok w').
Proof.
  intros Hdata. split; [|split].
  - intros Hs He. unfold trackWorldStatePacket. rewrite Hs, He. cbn [bind is_undefined].
    destruct (is_spawn_names _ Hs) as [E|[E|E]]; rewrite E; cbn;
      (eexists; split; [reflexivity|]; split; [reflexivity|]);
      rewrite <- E; apply push_state_list.
  - intros En Hids. unfold trackWorldStatePacket. rewrite En. cbn.
    destruct (get_prop_has_data packet "entityIds" Hdata) as [v Hv].
    rewrite Hv. cbn.
    destruct v; try reflexivity. exfalso. apply (Hids items). exact Hv.
  - intros Hkey. unfold trackWorldStatePacket.
    destruct (get_prop_has_data packet "entityId" Hdata) as [v1 Hv1].
    destruct (get_prop_has_data packet "entityIds" Hdata) as [v2 Hv2].
    destruct (get_prop_has_data packet "x" Hdata) as [x Hx].
    destruct (get_prop_has_data packet "z" Hdata) as [z Hz].
    rewrite Hv1, Hv2, Hx, Hz. cbn [bind].
    unfold chunk_key_converts in Hkey. rewrite Hx, Hz in Hkey. unfold converts in Hkey.
    destruct (is_spawn (name packet));
      [destruct (is_undefined v1)|
       destruct (String.eqb (name packet) "entity_destroy"); [destruct v2|]];
      cbn [bind];
      (destruct (String.eqb (name packet) "map_chunk");
       [ cbn [negb orb] in Hkey;
         destruct (is_undefined x); cbn [bind orb] in *;
         [|destruct (is_undefined z); cbn [bind orb] in *;
           [|destruct (js_to_string x); [|discriminate];
             destruct (js_to_string z); [|discriminate]; cbn [bind]]]
       | destruct (String.eqb (name packet) "map_chunk_bulk")]);
      cbn [bind];
      destruct (existsb (String.eqb (name packet)) statePacketTypes);
      eexists; reflexivity.
Qed.

Lemma trackWorldStatePacket_total_witness :
  (has_data spawn_without_id = true /\
   is_spawn (name spawn_without_id) = true /\
   get_prop (data spawn_without_id) "entityId" = Ok Payload.VUndefined /\
   exists w',
     trackWorldStatePacket spawn_without_id cleared = Ok w' /\
     activeEntityIds w' = activeEntityIds cleared /\
     state_list w' (name spawn_without_id)
     = state_list cleared (name spawn_without_id) ++ [spawn_without_id]) /\
  (has_data destroy_without_ids = true /\
   name destroy_without_ids = "entity_destroy" /\
   (forall ids, get_prop (data destroy_without_ids) "entityIds" <> Ok (Payload.VArr ids)) /\
   trackWorldStatePacket destroy_without_ids cleared = Ok cleared) /\
  (has_data image_record = true /\ chunk_key_converts image_record = true /\
   exists w', trackWorldStatePacket image_record cleared = Ok w').
Proof.
  assert (Hids : forall ids, get_prop (data destroy_without_ids) "entityIds"
                             <> Ok (Payload.VArr ids))
    by (intros ids; discriminate).
  split; [|split].
  - repeat (split; [reflexivity|]).
    exact (proj1 (trackWorldStatePacket_total spawn_without_id cleared eq_refl)
             eq_refl eq_refl).
  - split; [reflexivity|]. split; [reflexivity|]. split; [exact Hids|].
    exact (proj1 (proj2 (trackWorldStatePacket_total destroy_without_ids cleared
                           eq_refl)) eq_refl Hids).
  - split; [reflexivity|]. split; [reflexivity|].
    exact (proj2 (proj2 (trackWorldStatePacket_total image_record cleared eq_refl))
             eq_refl).
Defined.

(** C10 as stated fails: a spawn record whose data is [null] makes
    [trackWorldStatePacket] raise a [TypeError]. *)
Lemma trackWorldStatePacket_null_data :
  trackWorldStatePacket
    {| timestamp := 0; name := "spawn_entity"; data := Payload.VNull |} cleared
  = Throw TypeError.
Proof. reflexivity. Qed.

(** ** Numbers *)

Import Number.

Arguments greater : simpl never.
Arguments of_Z : simpl never.

Lemma greater_of_Z a b : greater (of_Z a) (of_Z b) = (a >? b).
Proof.
  unfold greater, of_Z, Qcompare, inject_Z, Z.gtb. cbn [Qnum Qden].
  rewrite !Z.mul_1_r. reflexivity.
Qed.


(** Nothing is greater than [NaN]: with a target that is [NaN], so is the
    clamped target, and no record is later. *)
Lemma greater_NaN a : greater a NaN = false.
Proof. destruct a; reflexivity. Qed.

(** ** Writing to viewers *)

Import ReplayPlayer PlayerSpec PlaybackSpec.

Lemma sent_nil c : sent [] c = c.
Proof. destruct c. unfold sent. cbn. rewrite app_nil_r. reflexivity. Qed.

Lemma sent_sent l1 l2 c : sent l2 (sent l1 c) = sent (l1 ++ l2) c.
Proof. unfold sent. cbn. rewrite app_assoc. reflexivity. Qed.

Lemma accepts_sent l c r : accepts (sent l c) r = accepts c r.
Proof. reflexivity. Qed.

Lemma receives_cons r records c :
  receives (r :: records) c = receives records (receives [r] c).
Proof.
  unfold receives. cbn [filter]. rewrite sent_sent.
  change (accepts (sent _ c)) with (accepts c).
  destruct (accepts c r); cbn [map app]; reflexivity.
Qed.

Lemma receives_nil c : receives [] c = c.
Proof. apply sent_nil. Qed.

Lemma receives_app l1 l2 c : receives l2 (receives l1 c) = receives (l1 ++ l2) c.
Proof.
  unfold receives. rewrite sent_sent, filter_app, map_app. reflexivity.
Qed.

Lemma refused_cons ctx r records c :
  refused ctx (r :: records) c = refused ctx [r] c ++ refused ctx records c.
Proof.
  unfold refused. cbn [filter]. destruct (negb (accepts c r)); reflexivity.
Qed.

Lemma refused_app ctx l1 l2 c :
  refused ctx (l1 ++ l2) c = refused ctx l1 c ++ refused ctx l2 c.
Proof. unfold refused. rewrite filter_app, map_app. reflexivity. Qed.

Lemma refused_receives ctx records l c :
  refused ctx records (receives l c) = refused ctx records c.
Proof. reflexivity. Qed.

Lemma refused_none ctx records c :
  forallb (accepts c) records = true -> refused ctx records c = [].
Proof.
  unfold refused. induction records as [|r records IH]; cbn [forallb filter];
    [reflexivity|].
  intros H. apply andb_true_iff in H. destruct H as [Hr H].
  rewrite Hr. cbn [negb]. apply IH. exact H.
Qed.

Lemma taken_prefix_sent l c frames :
  taken_prefix (sent l c) frames = taken_prefix c frames.
Proof.
  induction frames as [|frame frames IH]; cbn [taken_prefix]; [reflexivity|].
  rewrite IH. reflexivity.
Qed.

Lemma taken_prefix_app c l1 l2 :
  taken_prefix c (l1 ++ l2)
  = if forallb (takes c) l1 then l1 ++ taken_prefix c l2 else taken_prefix c l1.
Proof.
  induction l1 as [|frame l1 IH]; cbn [app taken_prefix forallb]; [reflexivity|].
  destruct (takes c frame); cbn [andb]; [|reflexivity].
  rewrite IH. destruct (forallb (takes c) l1); reflexivity.
Qed.

Lemma taken_prefix_all c frames :
  forallb (takes c) frames = true -> taken_prefix c frames = frames.
Proof.
  intros H. pose proof (taken_prefix_app c frames []) as E.
  rewrite H, !app_nil_r in E. exact E.
Qed.

Lemma forallb_frames c records :
  forallb (takes c) (map frame_of records) = forallb (accepts c) records.
Proof.
  induction records as [|r records IH]; cbn [map forallb]; [reflexivity|].
  rewrite IH. reflexivity.
Qed.

Lemma filter_all {A : Type} (f : A -> bool) l :
  forallb f l = true -> filter f l = l.
Proof.
  induction l as [|a l IH]; cbn [forallb filter]; [reflexivity|].
  intros H. apply andb_true_iff in H. destruct H as [Ha H].
  rewrite Ha, IH by exact H. reflexivity.
Qed.

(** One write in its own [try]. *)
Lemma write_reported_one listening ctx c evs r :
  write_reported listening ctx c evs r
  = (receives [r] c, evs ++ refused ctx [r] c,
     if listening || accepts c r then None else Some SinkError).
Proof.
  unfold write_reported, client_write, receives, refused, accepts, takes, frame_of.
  cbn [fst snd filter].
  destruct (write_throws c (name r) (data r)); cbn [negb map].
  - rewrite sent_nil, orb_false_r. reflexivity.
  - rewrite app_nil_r, orb_true_r. reflexivity.
Qed.

Lemma write_each_thrown listening ctx records c evs e :
  write_each listening ctx records (c, evs, Some e) = (c, evs, Some e).
Proof. destruct records; reflexivity. Qed.

(** Two loops of writes, one after the other, are one loop. *)
Lemma write_each_app listening ctx l1 : forall l2 r,
  write_each listening ctx l2 (write_each listening ctx l1 r)
  = write_each listening ctx (l1 ++ l2) r.
Proof.
  induction l1 as [|a l1 IH]; intros l2 [[c evs] [e|]].
  - rewrite !write_each_thrown. reflexivity.
  - reflexivity.
  - rewrite !write_each_thrown. reflexivity.
  - cbn [app write_each]. apply IH.
Qed.

(** A loop of writes in which every refusal finds a listener. *)
Lemma write_each_heard listening ctx records : forall c evs,
  listening || forallb (accepts c) records = true ->
  write_each listening ctx records (c, evs, None)
  = (receives records c, evs ++ refused ctx records c, None).
Proof.
  induction records as [|r records IH]; intros c evs H; cbn [write_each].
  - rewrite receives_nil. unfold refused. cbn. rewrite app_nil_r. reflexivity.
  - rewrite write_reported_one.
    assert (Hr : listening || accepts c r = true).
    { destruct listening; [reflexivity|]. cbn [orb forallb] in *.
      apply andb_true_iff in H. apply H. }
    rewrite Hr, IH.
    + rewrite <- receives_cons, (refused_cons ctx r records).
      rewrite refused_receives, <- app_assoc. reflexivity.
    + destruct listening; [reflexivity|]. cbn [orb forallb] in *.
      apply andb_true_iff in H. apply H.
Qed.

(** A loop of writes with nobody listening: the first refusal ends it. *)
Lemma write_each_unheard ctx records : forall c evs,
  write_each false ctx records (c, evs, None)
  = (sent (taken_prefix c (map frame_of records)) c,
     evs ++ firstn 1 (refused ctx records c),
     if forallb (accepts c) records then None else Some SinkError).
Proof.
  induction records as [|r records IH]; intros c evs;
    cbn [write_each map taken_prefix forallb].
  - rewrite sent_nil. unfold refused. cbn. rewrite app_nil_r. reflexivity.
  - rewrite write_reported_one. cbn [orb]. rewrite (refused_cons ctx r records).
    change (takes c (frame_of r)) with (accepts c r).
    unfold receives, refused at 1 2. cbn [filter].
    destruct (accepts c r); cbn [negb map andb app].
    + rewrite app_nil_r, IH, taken_prefix_sent, sent_sent. reflexivity.
    + rewrite write_each_thrown, !sent_nil. reflexivity.
Qed.

(** Several writes in one [try]. *)
Lemma write_block_prefix frames : forall c,
  write_block frames c
  = (sent (taken_prefix c frames) c,
     if forallb (takes c) frames then None else Some SinkError).
Proof.
  induction frames as [|[n d] frames IH]; intros c;
    cbn [write_block taken_prefix forallb].
  - rewrite sent_nil. reflexivity.
  - assert (Et : write_throws c n d = negb (takes c (n, d)))
      by (unfold takes; cbn [fst snd]; rewrite negb_involutive; reflexivity).
    unfold client_write. rewrite Et.
    destruct (takes c (n, d)); cbn [negb andb].
    + rewrite IH. fold (sent [(n, d)] c).
      rewrite taken_prefix_sent, sent_sent. reflexivity.
    + rewrite sent_nil. reflexivity.
Qed.

(** A resynchronisation is the dimension switch followed by one loop of
    writes. *)
Lemma syncClientToCurrentState_loop p c clearEntities :
  syncClientToCurrentState p c clearEntities
  = write_each (onError p) "sync:" (sync_packets (projection p) clearEntities)
      (if clearEntities then
         (sent (taken_prefix c (switch_frames (metadata p))) c,
          if forallb (takes c) (switch_frames (metadata p)) then []
          else [ErrorEvent SinkError "dimension_switch"],
          if onError p || forallb (takes c) (switch_frames (metadata p))
          then None else Some SinkError)
       else (c, [], None)).
Proof.
  unfold syncClientToCurrentState, sync_packets. cbv zeta.
  fold (switch_frames (metadata p)).
  rewrite write_block_prefix.
  destruct clearEntities.
  - rewrite !write_each_app, app_nil_r, <- !app_assoc.
    destruct (forallb (takes c) (switch_frames (metadata p)));
      rewrite ?orb_true_r, ?orb_false_r; [reflexivity|].
    destruct (onError p); reflexivity.
  - rewrite !write_each_app, <- !app_assoc. reflexivity.
Qed.

Lemma sync_frames_taken metadata w clearEntities c :
  forallb (takes c) (sync_frames metadata w clearEntities)
  = (if clearEntities then forallb (takes c) (switch_frames metadata) else true)
    && forallb (accepts c) (sync_packets w clearEntities).
Proof.
  unfold sync_frames. rewrite forallb_app, forallb_frames.
  destruct clearEntities; reflexivity.
Qed.

(** A resynchronisation in which every refusal finds a listener. *)
Lemma syncClientToCurrentState_heard p c clearEntities :
  onError p
  || forallb (takes c) (sync_frames (metadata p) (projection p) clearEntities) = true ->
  syncClientToCurrentState p c clearEntities
  = (synced (metadata p) (projection p) clearEntities c,
     sync_events (metadata p) (projection p) clearEntities c, None).
Proof.
  rewrite sync_frames_taken, syncClientToCurrentState_loop.
  unfold synced, sync_events. intros H.
  destruct clearEntities; cbn [andb].
  - set (c1 := sent (taken_prefix c (switch_frames (metadata p))) c).
    assert (E : forall l, refused "sync:" l c = refused "sync:" l c1) by reflexivity.
    assert (Ea : forall l, forallb (accepts c) l = forallb (accepts c1) l) by reflexivity.
    rewrite E.
    destruct (forallb (takes c) (switch_frames (metadata p))); cbn [negb andb] in *.
    + rewrite orb_true_r. apply write_each_heard. rewrite <- Ea. exact H.
    + rewrite orb_false_r in *. rewrite H. cbn [orb].
      apply (write_each_heard true). reflexivity.
  - apply write_each_heard. exact H.
Qed.

(** A resynchronisation with nobody listening: the first frame the viewer
    refuses ends it. *)
Lemma syncClientToCurrentState_unheard p c clearEntities :
  onError p = false ->
  syncClientToCurrentState p c clearEntities
  = (sent (taken_prefix c (sync_frames (metadata p) (projection p) clearEntities)) c,
     firstn 1 (sync_events (metadata p) (projection p) clearEntities c),
     if forallb (takes c) (sync_frames (metadata p) (projection p) clearEntities)
     then None else Some SinkError).
Proof.
  intros Hl. rewrite sync_frames_taken, syncClientToCurrentState_loop, Hl.
  unfold sync_frames, sync_events. cbn [orb].
  destruct clearEntities; cbn [andb app].
  - rewrite taken_prefix_app.
    set (c1 := sent (taken_prefix c (switch_frames (metadata p))) c).
    assert (E : forall l, refused "sync:" l c = refused "sync:" l c1) by reflexivity.
    assert (Ea : forall l, forallb (accepts c) l = forallb (accepts c1) l) by reflexivity.
    rewrite E, Ea.
    destruct (forallb (takes c) (switch_frames (metadata p))) eqn:Es; cbn [negb andb app].
    + rewrite write_each_unheard. unfold c1 at 1 2.
      rewrite taken_prefix_sent, sent_sent, (taken_prefix_all _ _ Es). reflexivity.
    + rewrite write_each_thrown. reflexivity.
  - rewrite write_each_unheard. reflexivity.
Qed.

(** What a resynchronisation throws. *)
Lemma syncClientToCurrentState_thrown p c clearEntities :
  snd (syncClientToCurrentState p c clearEntities)
  = if onError p
       || forallb (takes c) (sync_frames (metadata p) (projection p) clearEntities)
    then None else Some SinkError.
Proof.
  destruct (onError p) eqn:Hl; cbn [orb].
  - rewrite syncClientToCurrentState_heard by (rewrite Hl; reflexivity). reflexivity.
  - rewrite (syncClientToCurrentState_unheard _ _ _ Hl). reflexivity.
Qed.

(** The viewers of a seek, one after the other. *)
Lemma sync_all_heard p clearEntities cs :
  onError p || sync_accepted (metadata p) (projection p) clearEntities cs = true ->
  sync_all p cs clearEntities
  = (map (synced (metadata p) (projection p) clearEntities) cs,
     flat_map (sync_events (metadata p) (projection p) clearEntities) cs, None).
Proof.
  unfold sync_accepted.
  induction cs as [|c cs IH]; intros H; cbn [sync_all map flat_map]; [reflexivity|].
  rewrite syncClientToCurrentState_heard.
  - rewrite IH; [reflexivity|].
    destruct (onError p); [reflexivity|]. cbn [orb forallb] in *.
    apply andb_true_iff in H. apply H.
  - destruct (onError p); [reflexivity|]. cbn [orb forallb] in *.
    apply andb_true_iff in H. apply H.
Qed.

Lemma sync_all_thrown p clearEntities cs :
  snd (sync_all p cs clearEntities)
  = if onError p || sync_accepted (metadata p) (projection p) clearEntities cs
    then None else Some SinkError.
Proof.
  destruct (onError p || sync_accepted (metadata p) (projection p) clearEntities cs)
    eqn:H.
  - rewrite sync_all_heard by exact H. reflexivity.
  - apply orb_false_iff in H. destruct H as [Hl H]. unfold sync_accepted in H.
    induction cs as [|c cs IH]; cbn [sync_all forallb] in *; [discriminate|].
    pose proof (syncClientToCurrentState_thrown p c clearEntities) as T.
    rewrite Hl in T. cbn [orb] in T.
    destruct (syncClientToCurrentState p c clearEntities) as [[c' evs] thrown].
    cbn [snd] in T. subst thrown.
    destruct (forallb (takes c) _); cbn [andb] in H; [|reflexivity].
    specialize (IH H).
    destruct (sync_all p cs clearEntities) as [[cs' evs'] thrown]. exact IH.
Qed.

(** The viewers of a broadcast. *)
Lemma broadcast_heard listening r cs :
  listening || forallb (fun c => accepts c r) cs = true ->
  broadcast listening r cs
  = (map (receives [r]) cs, flat_map (refused "packet_replay:" [r]) cs, None).
Proof.
  induction cs as [|c cs IH]; intros H; cbn [broadcast map flat_map]; [reflexivity|].
  rewrite write_reported_one.
  assert (Hc : listening || accepts c r = true).
  { destruct listening; [reflexivity|]. cbn [orb forallb] in *.
    apply andb_true_iff in H. apply H. }
  rewrite Hc, IH; [reflexivity|].
  destruct listening; [reflexivity|]. cbn [orb forallb] in *.
  apply andb_true_iff in H. apply H.
Qed.

Lemma broadcast_thrown listening r cs :
  snd (broadcast listening r cs)
  = if listening || forallb (fun c => accepts c r) cs then None else Some SinkError.
Proof.
  destruct (listening || forallb (fun c => accepts c r) cs) eqn:H.
  - rewrite broadcast_heard by exact H. reflexivity.
  - apply orb_false_iff in H. destruct H as [Hl H]. subst listening.
    induction cs as [|c cs IH]; cbn [broadcast forallb] in *; [discriminate|].
    rewrite write_reported_one. cbn [orb].
    destruct (accepts c r); cbn [andb] in H; [|reflexivity].
    specialize (IH H).
    destruct (broadcast false r cs) as [[cs' evs'] thrown]. exact IH.
Qed.

(** A broadcast leaves every viewer its encoder. *)
Lemma broadcast_encoders listening r cs :
  map write_throws (fst (fst (broadcast listening r cs))) = map write_throws cs.
Proof.
  induction cs as [|c cs IH]; cbn [broadcast]; [reflexivity|].
  rewrite write_reported_one.
  destruct (listening || accepts c r).
  - destruct (broadcast listening r cs) as [[cs' evs'] thrown].
    cbn [fst map] in *. rewrite IH. reflexivity.
  - reflexivity.
Qed.

Lemma emit_all_emitted evs : forall p,
  emit_all evs p
  = {| metadata := metadata p; packets := packets p; clients := clients p;
       onError := onError p;
       playing := playing p; currentTime := currentTime p;
       playbackSpeed := playbackSpeed p; packetIndex := packetIndex p;
       maxRecentPackets := maxRecentPackets p; projection := projection p;
       emitted := emitted p ++ evs |}.
Proof.
  unfold emit_all. induction evs as [|e evs IH]; intros p; cbn [fold_left].
  - rewrite app_nil_r. destruct p; reflexivity.
  - rewrite IH. unfold emit. cbn. rewrite <- app_assoc. reflexivity.
Qed.

(** ** Seeking *)



(** A seek on a paused player, from the scan: what it throws and the state
    it leaves. *)
Lemma seekToTime_paused realElapsed t p :
  playing p = false ->
  match seek_scan (clamped t p) (packets p) 0 cleared with
  | (_, _, Some e) => thrown (seekToTime realElapsed t p) = Some e
  | (index, w, None) =>
      let p' := state_of (seekToTime realElapsed t p) in
      projection p' = w /\ packetIndex p' = index /\
      currentTime p' = clamped t p /\
      thrown (seekToTime realElapsed t p)
      = (if onError p || sync_accepted (metadata p) w true (clients p)
         then None else Some SinkError) /\
      (thrown (seekToTime realElapsed t p) = None ->
       clients p' = map (synced (metadata p) w true) (clients p) /\
       emitted p'
       = emitted p ++ [PlaybackSeek (currentTime p) (clamped t p)]
           ++ flat_map (sync_events (metadata p) w true) (clients p))
  end.
Proof.
  intros Hp. unfold seekToTime. rewrite Hp. cbv zeta.
  change (Math_max 0 (Math_min (maxTime p) t)) with (clamped t p).
  cbn [packets projection set_projection set_currentTime].
  destruct (seek_scan (clamped t p) (packets p) 0 cleared) as [[index w] [e|]].
  - reflexivity.
  - match goal with
    | |- context [sync_all ?q ?cs true] =>
        pose proof (sync_all_thrown q true cs) as T;
        pose proof (sync_all_heard q true cs) as S;
        destruct (sync_all q cs true) as [[cs' evs] thrown]
    end.
    cbn [snd metadata projection onError clients emit set_packetIndex set_projection
         set_currentTime] in T, S.
    subst thrown. rewrite emit_all_emitted.
    destruct (onError p || sync_accepted (metadata p) w true (clients p)).
    + specialize (S eq_refl). inversion S; subst cs' evs.
      cbn. rewrite <- app_assoc. repeat split.
    + cbn. repeat split; discriminate.
Qed.

Ltac case_head H :=
  match type of H with
  | context [bind ?c _] =>
      lazymatch c with
      | bind _ _ => fail
      | _ => let E := fresh "E" in destruct c eqn:E; cbn [bind] in H
      end
  | context [if ?c then _ else _] =>
      let E := fresh "E" in destruct c eqn:E
  | context [match ?c with Payload.VArr _ => _ | _ => _ end] =>
      let E := fresh "E" in destruct c eqn:E
  end.

Ltac finish_stage H :=
  repeat (first [discriminate | case_head H]);
  try discriminate; inversion H; reflexivity.

Lemma trackWorldStatePacket_recent packet w w' :
  trackWorldStatePacket packet w = Ok w' -> recentPackets w' = recentPackets w.
Proof.
  unfold trackWorldStatePacket. intros H.
  apply bind_Ok in H. destruct H as [w1 [H1 H]].
  apply bind_Ok in H. destruct H as [w2 [H2 H3]].
  assert (R1 : recentPackets w1 = recentPackets w) by finish_stage H1.
  assert (R2 : recentPackets w2 = recentPackets w1) by finish_stage H2.
  assert (R3 : recentPackets w' = recentPackets w2) by finish_stage H3.
  congruence.
Qed.



Import Samples MoreSamples.



(** C8, the code at the failing input: a seek to 1500 ms over three records,
    none of which is later, leaves the packet cursor at 0, not at the number
    of packets. *)
Theorem seekToTime_cursor_at_end :
  let p := loaded (Some sample_metadata) sample_records in
  first_after (clamped 1500 p) (packets p) 0 = None /\
  length (packets p) = 3%nat /\
  thrown (seekToTime 0 1500 p) = None /\
  packetIndex (state_of (seekToTime 0 1500 p)) = 0%nat.
Proof. repeat split; vm_compute; reflexivity. Qed.

(** C9, the code at the failing input: on a player at speed 1,
    [setPlaybackSpeed(100)] emits ["playback:speed"] with the new clamped
    speed 10 first and the requested speed 100 second; the speed in effect
    before the call, 1, is not among the arguments. *)
Theorem setPlaybackSpeed_event_arguments :
  let p := loaded (Some sample_metadata) sample_records in
  playbackSpeed p = 1%Q /\
  emitted (state_of (setPlaybackSpeed 0 100 p)) = [PlaybackSpeed 10 100] /\
  playbackSpeed (state_of (setPlaybackSpeed 0 100 p)) = 10%Q.
Proof. repeat split; vm_compute; reflexivity. Qed.

(** ** The reader's loop is not cut short *)

Lemma decodeVarint_loop_reads rest : forall value shift k v n,
  decodeVarint_loop rest value shift k = Ok (v, n) -> (k < n)%nat.
Proof.
  induction rest as [|byte rest IH]; intros value shift k v n; simpl.
  - discriminate.
  - destruct (JS.and byte 128 =? 0).
    + intros E. inversion E. lia.
    + intros E. apply IH in E. lia.
Qed.

Lemma In_firstn {A : Type} n (l : list A) x : In x (firstn n l) -> In x l.
Proof.
  intros H. rewrite <- (firstn_skipn n l). apply in_or_app. left. exact H.
Qed.

Lemma In_skipn {A : Type} n (l : list A) x : In x (skipn n l) -> In x l.
Proof.
  intros H. rewrite <- (firstn_skipn n l). apply in_or_app. right. exact H.
Qed.

Lemma read_exact_bytes file n position bytes :
  Forall (fun b => 0 <= b) file ->
  RD.read_exact file n position = Ok bytes -> Forall (fun b => 0 <= b) bytes.
Proof.
  intros Hf. unfold RD.read_exact, RD.readSync.
  destruct (position <? 0); [discriminate|].
  destruct (_ =? n)%nat; [|discriminate].
  intros E. inversion E; subst.
  rewrite Forall_forall in *. intros b Hb. apply Hf.
  apply In_firstn, In_skipn in Hb. exact Hb.
Qed.

Lemma readUInt32LE_nonneg bytes :
  Forall (fun b => 0 <= b) bytes -> 0 <= readUInt32LE bytes.
Proof.
  intros H. unfold readUInt32LE.
  assert (G : forall i, 0 <= nth i bytes 0).
  { intros i. destruct (nth_in_or_default i bytes 0) as [Hin|Hd].
    - rewrite Forall_forall in H. apply H. exact Hin.
    - rewrite Hd. lia. }
  pose proof (G 0%nat). pose proof (G 1%nat). pose proof (G 2%nat).
  pose proof (G 3%nat). lia.
Qed.

(** On a file of bytes, every turn of the loop moves [position] forward, so
    any number of turns from [dataEndOffset - position] on gives the same
    records: [readAllSync] reads the stream to its end. *)
Lemma readPackets_loop_turns decode r turns : forall more position currentTimestamp,
  Forall (fun b => 0 <= b) (RD.file r) ->
  (Z.to_nat (RD.dataEndOffset r - position) <= turns)%nat ->
  RD.readPackets_loop decode r (turns + more) position currentTimestamp
  = RD.readPackets_loop decode r turns position currentTimestamp.
Proof.
  induction turns as [|turns IH]; intros more position currentTimestamp Hf Hturns.
  - destruct more as [|more]; [reflexivity|]. cbn [Nat.add RD.readPackets_loop].
    destruct (Z.ltb_spec position (RD.dataEndOffset r)); [lia|reflexivity].
  - cbn [Nat.add RD.readPackets_loop].
    destruct (Z.ltb_spec position (RD.dataEndOffset r)) as [Hlt|]; [|reflexivity].
    destruct (_ =? 0)%nat; [reflexivity|].
    destruct (decodeVarint _ 0) as [[delta varintBytes]|e] eqn:Ev; [|reflexivity].
    apply decodeVarint_loop_reads in Ev.
    destruct (RD.read_exact (RD.file r) 1 _) as [packetIdBuf|e]; [|reflexivity].
    cbn [bind].
    destruct (lookup_id ID_TO_PACKET _) as [name|]; [|reflexivity].
    destruct (RD.read_exact (RD.file r) 4 _) as [dataLengthBuf|e] eqn:El; [|reflexivity].
    cbn [bind].
    pose proof (readUInt32LE_nonneg _ (read_exact_bytes _ _ _ _ Hf El)) as Hlen.
    clear El.
    destruct (RD.read_exact (RD.file r) _ _) as [dataBuf|e]; [|reflexivity].
    cbn [bind].
    destruct (decode dataBuf) as [decoded|]; [|reflexivity].
    destruct (Payload.deserializeData decoded) as [d|e]; [|reflexivity].
    cbn [bind]. rewrite IH; [reflexivity|exact Hf|lia].
Qed.

(** ** Further properties of the code *)

Lemma seek_scan_index t records : forall i w index w',
  seek_scan t records i w = (index, w', None) ->
  index = match first_after t records i with Some j => j | None => 0%nat end.
Proof.
  induction records as [|r records IH]; intros i w index w'; simpl.
  - intros E. inversion E. reflexivity.
  - destruct (greater (timestamp r) t).
    + intros E. inversion E. reflexivity.
    + destruct (trackWorldStatePacket r w) as [w1|e]; [|discriminate].
      apply IH.
Qed.

(** X1: on a player that is not playing, a [seekToTime(t)] that returns leaves
    the packet cursor at the index of the first record with timestamp [> t']
    ([t'] the clamped target), and at [0] when there is no such record. *)
Theorem seekToTime_cursor realElapsed t p p' :
  playing p = false ->
  seekToTime realElapsed t p = Returns p' ->
  packetIndex p'
  = match first_after (clamped t p) (packets p) 0 with
    | Some i => i
    | None => 0%nat
    end.
Proof.
  intros Hp Hret.
  pose proof (seekToTime_paused realElapsed t p Hp) as Hs.
  destruct (seek_scan (clamped t p) (packets p) 0 cleared) as [[index w] [e|]] eqn:Es.
  - rewrite Hret in Hs. discriminate.
  - cbv zeta in Hs. rewrite Hret in Hs. cbn [state_of] in Hs.
    destruct Hs as (_ & Hi & _). rewrite Hi.
    apply (seek_scan_index _ _ _ _ _ _ Es).
Qed.

Lemma seekToTime_cursor_witness :
  let p := loaded (Some sample_metadata) sample_records in
  playing p = false /\
  seekToTime 0 700 p = Returns (state_of (seekToTime 0 700 p)) /\
  packetIndex (state_of (seekToTime 0 700 p)) = 1%nat.
Proof.
  split; [reflexivity|]. split; [vm_compute; reflexivity|].
  exact (seekToTime_cursor 0 700 (loaded (Some sample_metadata) sample_records)
           _ eq_refl eq_refl).
Defined.

(** X3: [replayPacket] keeps the ring of recent packets within its bound. *)
Theorem recent_ring_bounded maxRecent packet w :
  (length (recentPackets w) <= maxRecent)%nat ->
  (length (recentPackets (fst (replay_projection maxRecent packet w)))
   <= maxRecent)%nat.
Proof.
  intros Hlen. unfold replay_projection.
  assert (Hpush : (length (recentPackets (push_recent maxRecent packet w))
                   <= maxRecent)%nat).
  { unfold push_recent. cbn [recentPackets set_recentPackets].
    destruct (Nat.ltb_spec maxRecent (length (recentPackets w ++ [packet]))) as [Hlt|Hge].
    - destruct (recentPackets w ++ [packet]) as [|x l] eqn:E.
      + simpl. lia.
      + apply (f_equal (@length _)) in E. rewrite length_app in E. simpl in *. lia.
    - exact Hge. }
  destruct (trackWorldStatePacket packet (push_recent maxRecent packet w))
    as [w'|e] eqn:Et; simpl.
  - rewrite (trackWorldStatePacket_recent _ _ _ Et). exact Hpush.
  - exact Hpush.
Qed.

(** A ring that is full: the oldest record leaves it. *)
Lemma recent_ring_bounded_witness :
  let w := set_recentPackets [chat_record; block_record] cleared in
  (length (recentPackets w) <= 2)%nat /\
  recentPackets (fst (replay_projection 2 image_record w))
  = [block_record; image_record] /\
  (length (recentPackets (fst (replay_projection 2 image_record w))) <= 2)%nat.
Proof.
  intros w.
  assert (H : (length (recentPackets w) <= 2)%nat) by (simpl; lia).
  split; [exact H|]. split; [reflexivity|].
  exact (recent_ring_bounded 2 image_record w H).
Defined.

(** X4: [encodeVarint] writes between one and five bytes, whatever the value. *)
Theorem encodeVarint_at_most_five value :
  (1 <= length (encodeVarint value) <= 5)%nat.
Proof.
  rewrite encodeVarint_unfold.
  destruct (Z.leb_spec 0x80 value) as [Hge|Hlt]; [|simpl; lia].
  destruct (js_ushr_7_bounds value ltac:(lia)) as [[H0 _] H25].
  unfold encodeVarint.
  pose proof (encodeVarint_loop_stable 3 (JS.ushr value 7) 2) as E.
  simpl Nat.add in E. rewrite E
    by (change (2 ^ (7 * (Z.of_nat 3 + 1))) with (2 ^ 28); lia).
  pose proof (encodeVarint_loop_length 3 (JS.ushr value 7)).
  cbn [length]. lia.
Qed.

(** X5: a file of at least eight bytes that does not start with the magic
    (compared as [toString("ascii")] does) is rejected with the bad-magic
    error, whatever follows. *)
Theorem load_bad_magic decode file :
  (8 <= length file)%nat ->
  ascii_equals (firstn 8 file) MAGIC = false ->
  RD.load decode file = Throw BadMagic.
Proof.
  intros Hlen Hm.
  assert (E : RD.read_exact file 8 0 = Ok (firstn 8 file)).
  { unfold RD.read_exact, RD.readSync. change (Z.to_nat 0) with 0%nat.
    change (0 <? 0) with false. cbv iota. cbn [skipn].
    rewrite length_firstn, Nat.min_l by exact Hlen. reflexivity. }
  unfold RD.load, RD.open, RD.readHeader. rewrite E. cbn [bind].
  rewrite Hm. reflexivity.
Qed.

Lemma load_bad_magic_witness :
  (8 <= length (bytes_of_string "NOREPLAY!"))%nat /\
  ascii_equals (firstn 8 (bytes_of_string "NOREPLAY!")) MAGIC = false /\
  RD.load SampleCodec.decode (bytes_of_string "NOREPLAY!") = Throw BadMagic.
Proof.
  assert (H : (8 <= length (bytes_of_string "NOREPLAY!"))%nat)
    by (vm_compute; repeat constructor).
  split; [exact H|]. split; [vm_compute; reflexivity|].
  exact (load_bad_magic SampleCodec.decode (bytes_of_string "NOREPLAY!") H eq_refl).
Defined.

(** ** The varint codec on every integer *)

Lemma to_int32_mod z : JS.to_int32 (z mod 2 ^ 32) = JS.to_int32 z.
Proof. unfold JS.to_int32. rewrite Z.mod_mod by lia. reflexivity. Qed.

Lemma to_int32_range z : - 2 ^ 31 <= JS.to_int32 z < 2 ^ 31.
Proof.
  unfold JS.to_int32.
  pose proof (Z.mod_pos_bound z (2 ^ 32) ltac:(lia)).
  destruct (Z.ltb_spec (z mod 2 ^ 32) (2 ^ 31)); lia.
Qed.

Lemma to_int32_congr z : exists q, JS.to_int32 z = z + q * 2 ^ 32.
Proof.
  unfold JS.to_int32.
  pose proof (Z.div_mod z (2 ^ 32) ltac:(lia)) as E.
  destruct (Z.ltb_spec (z mod 2 ^ 32) (2 ^ 31)).
  - exists (- (z / 2 ^ 32)). lia.
  - exists (- (z / 2 ^ 32) - 1). lia.
Qed.

(** [n & 0x7F] is [n mod 128] for every integer. *)
Lemma js_and_7F_any n : JS.and n 0x7F = n mod 128.
Proof.
  unfold JS.and. rewrite (to_int32_small 0x7F) by lia.
  change 0x7F with (Z.ones 7). rewrite Z.land_ones by lia.
  destruct (to_int32_congr n) as [q ->].
  change (2 ^ 32) with (33554432 * 2 ^ 7).
  rewrite Z.mul_assoc. apply Z.mod_add. lia.
Qed.

(** [acc | (x << shift)] when the bits of [x << shift] lie above those of
    [acc] and inside 32 bits: the sum, read as an int32. *)
Lemma js_or_shl_int32 acc x shift :
  0 <= shift < 32 -> 0 <= acc < 2 ^ shift -> 0 <= x < 128 ->
  acc + x * 2 ^ shift < 2 ^ 32 ->
  JS.or (JS.to_int32 acc) (JS.shl x shift) = JS.to_int32 (acc + x * 2 ^ shift).
Proof.
  intros Hs Hacc Hx Hb.
  assert (Hp : 0 < 2 ^ shift) by (apply Z.pow_pos_nonneg; lia).
  assert (Hle : 2 ^ shift <= 2 ^ 31) by (apply Z.pow_le_mono_r; lia).
  assert (E32 : 2 ^ 32 = 2 ^ (32 - shift) * 2 ^ shift)
    by (rewrite <- Z.pow_add_r by lia; f_equal; lia).
  assert (E31 : 2 ^ 31 = 2 ^ (31 - shift) * 2 ^ shift)
    by (rewrite <- Z.pow_add_r by lia; f_equal; lia).
  assert (Hq : 0 < 2 ^ (31 - shift)) by (apply Z.pow_pos_nonneg; lia).
  unfold JS.or, JS.shl.
  rewrite (to_int32_small x) by lia.
  rewrite to_uint32_small by lia. rewrite (Z.mod_small shift) by lia.
  rewrite Z.shiftl_mul_pow2 by lia.
  rewrite !(to_int32_small acc) by lia.
  rewrite (to_int32_small (JS.to_int32 (x * 2 ^ shift))) by apply to_int32_range.
  unfold JS.to_int32.
  rewrite (Z.mod_small (x * 2 ^ shift)) by nia.
  rewrite (Z.mod_small (acc + x * 2 ^ shift)) by nia.
  destruct (Z.ltb_spec (x * 2 ^ shift) (2 ^ 31)) as [Hlo|Hhi].
  - (* x * 2^shift < 2^31, a multiple of 2^shift: the sum stays below 2^31 *)
    assert (x < 2 ^ (31 - shift)) by nia.
    destruct (Z.ltb_spec (acc + x * 2 ^ shift) (2 ^ 31)); [|nia].
    apply lor_disjoint. apply land_low_high; lia.
  - destruct (Z.ltb_spec (acc + x * 2 ^ shift) (2 ^ 31)); [lia|].
    replace (x * 2 ^ shift - 2 ^ 32) with ((x - 2 ^ (32 - shift)) * 2 ^ shift) by lia.
    rewrite lor_disjoint by (apply land_low_high; lia). lia.
Qed.

(** Decoding what the encoder wrote for a value that, placed at [shift],
    stays inside 32 bits: the decoder holds the int32 reading of the sum. *)
Lemma decode_encode_loop32 turns : forall n acc shift k rest,
  0 <= n < 2 ^ (7 * (Z.of_nat turns + 1)) ->
  0 <= shift < 32 ->
  0 <= acc < 2 ^ shift ->
  acc + n * 2 ^ shift < 2 ^ 32 ->
  decodeVarint_loop (encodeVarint_loop turns n ++ rest) (JS.to_int32 acc) shift k =
  Ok (JS.to_int32 (acc + n * 2 ^ shift),
      (k + length (encodeVarint_loop turns n))%nat).
Proof.
  assert (Final : forall n acc shift k rest,
    0 <= n < 128 -> 0 <= shift < 32 -> 0 <= acc < 2 ^ shift ->
    acc + n * 2 ^ shift < 2 ^ 32 ->
    decodeVarint_loop ([JS.and n 0x7F] ++ rest) (JS.to_int32 acc) shift k =
    Ok (JS.to_int32 (acc + n * 2 ^ shift), (k + 1)%nat)).
  { intros n acc shift k rest Hn Hs Hacc Hb.
    cbn [app decodeVarint_loop].
    rewrite !js_and_7F_any. rewrite !Z.mod_small by lia.
    rewrite final_byte_flag by lia.
    rewrite js_or_shl_int32 by lia.
    do 2 f_equal. lia. }
  induction turns as [|turns IH]; intros n acc shift k rest Hn Hs Hacc Hb.
  - change (2 ^ (7 * (Z.of_nat 0 + 1))) with 128 in Hn.
    cbn [encodeVarint_loop length]. apply Final; assumption.
  - assert (Hp : 0 < 2 ^ shift) by (apply Z.pow_pos_nonneg; lia).
    cbn [encodeVarint_loop].
    destruct (Z.leb_spec 128 n) as [Hge|Hlt].
    + pose proof (Z.mod_pos_bound n 128 ltac:(lia)) as Hm.
      pose proof (Z.div_mod n 128 ltac:(lia)) as Hdm.
      assert (Hn32 : n < 2 ^ 32) by nia.
      assert (Hs7 : shift + 7 < 32).
      { apply (Z.pow_lt_mono_r_iff 2); [lia|lia|].
        rewrite Z.pow_add_r by lia. change (2 ^ 7) with 128. nia. }
      assert (E7 : 2 ^ (shift + 7) = 2 ^ shift * 128)
        by (rewrite Z.pow_add_r by lia; reflexivity).
      cbn [app decodeVarint_loop length].
      rewrite js_and_7F_any.
      rewrite continuation_byte_low, continuation_byte_flag by lia.
      rewrite js_or_shl_int32 by (try lia; nia).
      rewrite js_ushr_7 by lia.
      rewrite IH.
      * f_equal. f_equal; [|lia]. f_equal. rewrite E7. nia.
      * split; [apply Z.div_pos; lia|].
        apply Z.div_lt_upper_bound; [lia|].
        replace (7 * (Z.of_nat (S turns) + 1)) with (7 + 7 * (Z.of_nat turns + 1)) in Hn by lia.
        rewrite Z.pow_add_r in Hn by lia. change (2 ^ 7) with 128 in Hn. lia.
      * lia.
      * rewrite E7. nia.
      * rewrite E7. nia.
    + cbn [length]. apply Final; try assumption. lia.
Qed.

(** X6: for every integer [n], decoding [encodeVarint(n)], also when other
    bytes follow it, reads exactly the bytes the encoder wrote; the value it
    returns is [ToInt32(n)] when [n >= 128] and [n & 0x7F] when [n < 128]. *)
Theorem decodeVarint_encodeVarint n rest :
  decodeVarint (encodeVarint n ++ rest) 0
  = Ok (if n <? 0x80 then n mod 128 else JS.to_int32 n,
        length (encodeVarint n)).
Proof.
  unfold decodeVarint. cbn [skipn].
  rewrite encodeVarint_unfold.
  destruct (Z.leb_spec 0x80 n) as [Hge|Hlt].
  - destruct (Z.ltb_spec n 0x80) as [|_]; [lia|].
    pose proof (Z.mod_pos_bound n 128 ltac:(lia)) as Hm.
    pose proof (Z.mod_pos_bound n (2 ^ 32) ltac:(lia)) as Hm32.
    pose proof (Z.div_mod (n mod 2 ^ 32) 128 ltac:(lia)) as Hdm.
    assert (Elow : (n mod 2 ^ 32) mod 128 = n mod 128).
    { change (2 ^ 32) with (128 * 33554432).
      rewrite Z.rem_mul_r by lia.
      rewrite Z.mul_comm, Z.mod_add by lia. apply Z.mod_mod. lia. }
    cbn [app decodeVarint_loop length].
    rewrite js_and_7F_any.
    rewrite continuation_byte_low, continuation_byte_flag by lia.
    change 0 with (JS.to_int32 0) at 1.
    rewrite js_or_shl_int32 by (try lia; simpl; lia).
    assert (Eu : JS.ushr n 7 = (n mod 2 ^ 32) / 128).
    { unfold JS.ushr, JS.to_uint32.
      change ((7 mod 2 ^ 32) mod 32) with 7.
      rewrite Z.shiftr_div_pow2 by lia. reflexivity. }
    rewrite Eu. unfold encodeVarint.
    replace (0 + n mod 128 * 2 ^ 0) with (n mod 128) by lia.
    rewrite decode_encode_loop32.
    + f_equal. f_equal.
      rewrite <- (to_int32_mod n). f_equal.
      change (2 ^ (0 + 7)) with 128. lia.
    + split; [apply Z.div_pos; lia|].
      apply Z.div_lt_upper_bound; [lia|].
      change (2 ^ (7 * (Z.of_nat 5 + 1))) with (2 ^ 42). lia.
    + lia.
    + change (2 ^ (0 + 7)) with 128. lia.
    + change (2 ^ (0 + 7)) with 128. lia.
  - destruct (Z.ltb_spec n 0x80) as [_|]; [|lia].
    pose proof (Z.mod_pos_bound n 128 ltac:(lia)) as Hm.
    cbn [app decodeVarint_loop length].
    rewrite !js_and_7F_any. rewrite Z.mod_mod by lia.
    rewrite final_byte_flag by lia.
    change 0 with (JS.to_int32 0) at 1.
    rewrite js_or_shl_int32 by (try lia; simpl; lia).
    rewrite to_int32_small by lia.
    do 2 f_equal. lia.
Qed.

Lemma continuation_byte_value x : 0 <= x < 128 -> JS.or x 0x80 = x + 128.
Proof.
  intros H. apply Z.eqb_eq.
  apply (forall_below (fun x => JS.or x 0x80 =? x + 128) 128); [|lia].
  vm_compute. reflexivity.
Qed.

Lemma encodeVarint_loop_bytes turns : forall value,
  Forall (fun b => 0 <= b < 256) (encodeVarint_loop turns value) /\
  Forall continues (removelast (encodeVarint_loop turns value)) /\
  (JS.and (last (encodeVarint_loop turns value) 0) 0x80 =? 0) = true.
Proof.
  assert (Final : forall value,
    Forall (fun b => 0 <= b < 256) [JS.and value 0x7F] /\
    Forall continues (removelast [JS.and value 0x7F]) /\
    (JS.and (last [JS.and value 0x7F] 0) 0x80 =? 0) = true).
  { intros value. pose proof (Z.mod_pos_bound value 128 ltac:(lia)) as Hm.
    rewrite js_and_7F_any. cbn [removelast last].
    split; [repeat constructor; lia|]. split; [constructor|].
    apply final_byte_flag. lia. }
  induction turns as [|turns IH]; intros value; cbn [encodeVarint_loop].
  - apply Final.
  - destruct (0x80 <=? value); [|apply Final].
    pose proof (Z.mod_pos_bound value 128 ltac:(lia)) as Hm.
    destruct (IH (JS.ushr value 7)) as (Hr & Hc & Hl).
    assert (Hne : encodeVarint_loop turns (JS.ushr value 7) <> [])
      by (destruct turns; cbn [encodeVarint_loop];
          [|destruct (0x80 <=? JS.ushr value 7)]; discriminate).
    rewrite js_and_7F_any, continuation_byte_value by lia.
    split; [constructor; [lia|exact Hr]|].
    destruct (encodeVarint_loop turns (JS.ushr value 7)) as [|b l] eqn:E;
      [congruence|].
    split.
    + change (removelast (value mod 128 + 128 :: b :: l))
        with (value mod 128 + 128 :: removelast (b :: l)).
      constructor; [|exact Hc].
      unfold continues. rewrite <- continuation_byte_value by lia.
      apply continuation_byte_flag. lia.
    + exact Hl.
Qed.

(** X7: whatever the value, every byte [encodeVarint] emits is between 0 and
    255, every byte but the last has the continuation bit set, and the last
    one has it clear. *)
Theorem encodeVarint_well_formed value :
  Forall (fun b => 0 <= b < 256) (encodeVarint value) /\
  Forall continues (removelast (encodeVarint value)) /\
  (JS.and (last (encodeVarint value) 0) 0x80 =? 0) = true.
Proof. apply encodeVarint_loop_bytes. Qed.

(** The values that fit a signed 32-bit integer. *)
Lemma int32_shiftr z : - 2 ^ 31 <= z < 2 ^ 31 <-> Z.shiftr z 31 = 0 \/ Z.shiftr z 31 = -1.
Proof.
  rewrite Z.shiftr_div_pow2 by lia.
  pose proof (Z.div_mod z (2 ^ 31) ltac:(lia)).
  pose proof (Z.mod_pos_bound z (2 ^ 31) ltac:(lia)).
  lia.
Qed.

Lemma js_or_range a b : - 2 ^ 31 <= JS.or a b < 2 ^ 31.
Proof.
  unfold JS.or. apply int32_shiftr. rewrite Z.shiftr_lor.
  destruct (proj1 (int32_shiftr _) (to_int32_range a)) as [-> | ->];
    destruct (proj1 (int32_shiftr _) (to_int32_range b)) as [-> | ->];
    simpl; auto.
Qed.

Lemma decodeVarint_loop_within rest : forall value shift k v n,
  - 2 ^ 31 <= value < 2 ^ 31 ->
  decodeVarint_loop rest value shift k = Ok (v, n) ->
  (k < n <= k + length rest)%nat /\ - 2 ^ 31 <= v < 2 ^ 31 /\
  forall after,
    decodeVarint_loop (firstn (n - k) rest ++ after) value shift k = Ok (v, n).
Proof.
  induction rest as [|byte rest IH]; intros value shift k v n Hv; cbn [decodeVarint_loop].
  - discriminate.
  - destruct (JS.and byte 128 =? 0) eqn:Hb.
    + intros E. inversion E; subst. cbn [length].
      split; [lia|]. split; [apply js_or_range|].
      intros after. replace (S k - k)%nat with 1%nat by lia.
      cbn [firstn app decodeVarint_loop]. rewrite Hb. reflexivity.
    + intros E.
      destruct (IH _ _ _ _ _ (js_or_range _ _) E) as (Hn & Hr & Hafter).
      cbn [length]. split; [lia|]. split; [exact Hr|].
      intros after. replace (n - k)%nat with (S (n - S k)) by lia.
      cbn [firstn app decodeVarint_loop]. rewrite Hb. apply Hafter.
Qed.

(** X8: when [decodeVarint(buffer, offset)] returns, it has read at least
    one byte and none past the end of the buffer, the value is a signed
    32-bit integer, and the result depends only on the bytes it read: the
    same bytes at any offset of any buffer decode to the same result. *)
Theorem decodeVarint_reads_within buffer offset v n :
  decodeVarint buffer offset = Ok (v, n) ->
  (1 <= n /\ offset + n <= length buffer)%nat /\
  - 2 ^ 31 <= v < 2 ^ 31 /\
  forall before after,
    decodeVarint (before ++ firstn n (skipn offset buffer) ++ after) (length before)
    = Ok (v, n).
Proof.
  unfold decodeVarint. intros E.
  assert (H0 : - 2 ^ 31 <= 0 < 2 ^ 31) by lia.
  destruct (decodeVarint_loop_within _ _ _ _ _ _ H0 E) as (Hn & Hr & Hafter).
  rewrite length_skipn in Hn.
  split; [lia|]. split; [exact Hr|].
  intros before after.
  rewrite skipn_app, skipn_all, Nat.sub_diag. cbn [skipn app].
  specialize (Hafter after). rewrite Nat.sub_0_r in Hafter. exact Hafter.
Qed.

Lemma decodeVarint_reads_within_witness :
  decodeVarint [0; 0xDC; 0x0B; 0xFF] 1 = Ok (1500, 2%nat) /\
  ((1 <= 2 /\ 1 + 2 <= length [0; 0xDC; 0x0B; 0xFF])%nat /\
   - 2 ^ 31 <= 1500 < 2 ^ 31 /\
   forall before after,
     decodeVarint (before ++ firstn 2 (skipn 1 [0; 0xDC; 0x0B; 0xFF]) ++ after)
                  (length before)
     = Ok (1500, 2%nat)).
Proof.
  split; [vm_compute; reflexivity|].
  exact (decodeVarint_reads_within [0; 0xDC; 0x0B; 0xFF] 1 1500 2 eq_refl).
Defined.

(** ** The normalizer on every payload *)

Import PayloadShape.

Lemma obj_replace_Forall (Q : value -> Prop) key v props :
  Q v -> Forall (fun kv => Q (snd kv)) props ->
  Forall (fun kv => Q (snd kv)) (obj_replace key v props).
Proof.
  intros Hv. induction 1 as [|[k w] props Hw Hp IH]; simpl.
  - constructor; [exact Hv|constructor].
  - destruct (String.eqb k key); constructor; simpl; auto.
Qed.

Lemma obj_set_Forall (Q : value -> Prop) key v props :
  Q v -> Forall (fun kv => Q (snd kv)) props ->
  Forall (fun kv => Q (snd kv)) (obj_set key v props).
Proof.
  intros Hv Hp. unfold obj_set.
  destruct (String.eqb key "__proto__"); [exact Hp|].
  apply obj_replace_Forall; assumption.
Qed.

(** What holds of every copied value holds of every value of the result. *)
Lemma copy_props_Forall (f : value -> completion value) (Q : value -> Prop) l :
  Forall (fun kv => forall s, f (snd kv) = Ok s -> Q s) l ->
  forall acc res,
    Forall (fun kv => Q (snd kv)) acc ->
    copy_props f l acc = Ok res -> Forall (fun kv => Q (snd kv)) res.
Proof.
  induction 1 as [|[k v] l Hv _ IH]; intros acc res Hacc; simpl.
  - intros E. inversion E; subst. exact Hacc.
  - destruct (f v) as [s|e] eqn:Ef; [|discriminate]. simpl.
    apply IH. apply obj_set_Forall; [apply Hv; exact Ef|exact Hacc].
Qed.

Lemma map_items_Forall (f : value -> completion value) (Q : value -> Prop) l :
  Forall (fun x => forall s, f x = Ok s -> Q s) l ->
  forall res, map_items f l = Ok res -> Forall Q res.
Proof.
  induction 1 as [|x l Hx _ IH]; intros res; simpl.
  - intros E. inversion E. constructor.
  - destruct (f x) as [s|e] eqn:Ef; [|discriminate]. simpl.
    destruct (map_items f l) as [l'|e]; [|discriminate]. simpl.
    intros E. inversion E; subst. constructor; [apply Hx; reflexivity|apply IH; reflexivity].
Qed.

Lemma serializeData_arr items :
  serializeData (VArr items)
  = (items' <- map_items serializeData items ;; Ok (VArr items')).
Proof. reflexivity. Qed.

Lemma serializeData_obj props :
  serializeData (VObj props)
  = if hasOwnProperty_callable props
    then (result <- copy_props serializeData props [] ;; Ok (VObj result))
    else Throw TypeError.
Proof. reflexivity. Qed.

(** X9: what [serializeData] returns holds no byte blob at any depth: the
    encoder is only given scalars, sequences and maps. *)
Theorem serializeData_blob_free v s :
  serializeData v = Ok s -> blob_free s = true.
Proof.
  revert s.
  induction v as [| |b|n|t|bytes|items IH|props IH] using value_ind_nested;
    intros s E; try (inversion E; subst; reflexivity).
  - rewrite serializeData_arr in E. apply bind_Ok in E. destruct E as (items' & Em & E). inversion E; subst.
    cbn [blob_free]. apply forallb_forall.
    apply (proj1 (Forall_forall (fun s => blob_free s = true) items')).
    exact (map_items_Forall serializeData _ items IH items' Em).
  - rewrite serializeData_obj in E.
    destruct (hasOwnProperty_callable props); [|discriminate].
    apply bind_Ok in E. destruct E as (res & Ec & E). inversion E; subst.
    cbn [blob_free]. apply forallb_forall.
    apply (proj1 (Forall_forall (fun kv => blob_free (snd kv) = true) res)).
    exact (copy_props_Forall serializeData (fun s => blob_free s = true)
             props IH [] res (Forall_nil _) Ec).
Qed.

Lemma serializeData_blob_free_witness :
  serializeData (data image_record)
  = Ok (VObj [("x", VNum 0); ("z", VNum (-1));
              ("img", VObj [("__type", VStr "Buffer"); ("__data", VStr "AP8QIAc=")])]) /\
  blob_free (VObj [("x", VNum 0); ("z", VNum (-1));
                   ("img", VObj [("__type", VStr "Buffer");
                                 ("__data", VStr "AP8QIAc=")])]) = true.
Proof.
  split; [vm_compute; reflexivity|].
  exact (serializeData_blob_free (data image_record) _ eq_refl).
Defined.

Lemma copy_props_shadows (f : value -> completion value) l :
  Forall (fun kv => (shadows (snd kv) = true -> f (snd kv) = Throw TypeError) /\
                    (shadows (snd kv) = false -> exists s, f (snd kv) = Ok s)) l ->
  forall acc,
    (existsb (fun kv => shadows (snd kv)) l = true ->
     copy_props f l acc = Throw TypeError) /\
    (existsb (fun kv => shadows (snd kv)) l = false ->
     exists res, copy_props f l acc = Ok res).
Proof.
  induction 1 as [|[k v] l [Ht Hf] _ IH]; intros acc; cbn [existsb copy_props snd].
  - split; [discriminate|]. intros _. eexists. reflexivity.
  - cbn [snd] in Ht, Hf. destruct (shadows v) eqn:Es; cbn [orb].
    + split; [|discriminate]. intros _. rewrite Ht by reflexivity. reflexivity.
    + destruct (Hf eq_refl) as [s ->]. cbn [bind]. apply IH.
Qed.

Lemma map_items_shadows (f : value -> completion value) l :
  Forall (fun x => (shadows x = true -> f x = Throw TypeError) /\
                   (shadows x = false -> exists s, f x = Ok s)) l ->
  (existsb shadows l = true -> map_items f l = Throw TypeError) /\
  (existsb shadows l = false -> exists res, map_items f l = Ok res).
Proof.
  induction 1 as [|x l [Ht Hf] _ [IHt IHf]]; cbn [existsb map_items].
  - split; [discriminate|]. intros _. eexists. reflexivity.
  - destruct (shadows x) eqn:Es; cbn [orb].
    + split; [|discriminate]. intros _. rewrite Ht by reflexivity. reflexivity.
    + destruct (Hf eq_refl) as [s ->]. cbn [bind].
      split.
      * intros H. rewrite IHt by exact H. reflexivity.
      * intros H. destruct (IHf H) as [res ->]. cbn [bind]. eexists. reflexivity.
Qed.

Lemma hasOwnProperty_callable_has_own props :
  hasOwnProperty_callable props = negb (has_own props "hasOwnProperty").
Proof. destruct props; reflexivity. Qed.

Lemma serializeData_shadows v :
  (shadows v = true -> serializeData v = Throw TypeError) /\
  (shadows v = false -> exists s, serializeData v = Ok s).
Proof.
  induction v as [| |b|n|t|bytes|items IH|props IH] using value_ind_nested;
    cbn [shadows];
    try (split; [discriminate|intros _; eexists; reflexivity]).
  - rewrite serializeData_arr.
    destruct (map_items_shadows serializeData items IH) as [Ht Hf].
    split.
    + intros H. rewrite Ht by exact H. reflexivity.
    + intros H. destruct (Hf H) as [res ->]. cbn [bind]. eexists. reflexivity.
  - rewrite serializeData_obj, hasOwnProperty_callable_has_own.
    destruct (has_own props "hasOwnProperty"); cbn [negb orb].
    + split; [reflexivity|discriminate].
    + destruct (copy_props_shadows serializeData props IH []) as [Ht Hf].
      split.
      * intros H. rewrite Ht by exact H. reflexivity.
      * intros H. destruct (Hf H) as [res ->]. cbn [bind]. eexists. reflexivity.
Qed.

(** X10: [serializeData] throws exactly on the payloads in which some map has
    an own property named [hasOwnProperty] (it hides the method the copying
    loop calls), the error being a [TypeError]; on every other payload it
    returns. *)
Theorem serializeData_throws_iff v :
  (serializeData v = Throw TypeError <-> shadows v = true) /\
  ((exists s, serializeData v = Ok s) <-> shadows v = false) /\
  (forall e, serializeData v = Throw e -> e = TypeError).
Proof.
  destruct (serializeData_shadows v) as [Ht Hf].
  destruct (shadows v) eqn:Es.
  - rewrite (Ht eq_refl). split; [tauto|]. split.
    + split; [intros [s E]; discriminate|discriminate].
    + intros e E. congruence.
  - destruct (Hf eq_refl) as [s ->]. split.
    + split; discriminate.
    + split; [|discriminate]. split; [reflexivity|eauto].
Qed.

Lemma Forall2_same {A : Type} (R : A -> A -> Prop) l :
  Forall (fun x => R x x) l -> Forall2 R l l.
Proof. induction 1; constructor; assumption. Qed.

Lemma deserializeData_arr items :
  deserializeData (VArr items)
  = (items' <- map_items deserializeData items ;; Ok (VArr items')).
Proof. reflexivity. Qed.

Lemma deserializeData_obj props :
  deserializeData (VObj props)
  = match marked_buffer props with
    | Some data => Ok (VBuf (Base64.fromBase64 data))
    | None =>
        if hasOwnProperty_callable props
        then (result <- copy_props deserializeData props [] ;; Ok (VObj result))
        else Throw TypeError
    end.
Proof. reflexivity. Qed.

(** X11: a faithful payload that holds no byte blob is stored as it is:
    [serializeData] and [deserializeData] both return it unchanged. *)
Theorem normalizer_identity_without_blobs v :
  faithful v = true -> blob_free v = true ->
  serializeData v = Ok v /\ deserializeData v = Ok v.
Proof.
  induction v as [| |b|n|t|bytes|items IH|props IH] using value_ind_nested;
    intros Hf Hb; try (split; reflexivity).
  - discriminate.
  - cbn [faithful blob_free] in Hf, Hb.
    rewrite forallb_forall in Hf, Hb. rewrite Forall_forall in IH.
    rewrite serializeData_arr, deserializeData_arr.
    rewrite (map_items_Forall2 serializeData items items),
            (map_items_Forall2 deserializeData items items).
    + split; reflexivity.
    + apply Forall2_same, Forall_forall. intros x Hx.
      apply (IH x Hx (Hf x Hx) (Hb x Hx)).
    + apply Forall2_same, Forall_forall. intros x Hx.
      apply (IH x Hx (Hf x Hx) (Hb x Hx)).
  - cbn [faithful blob_free] in Hf, Hb.
    apply andb_true_iff in Hf. destruct Hf as [Hf Hch].
    apply andb_true_iff in Hf. destruct Hf as [Hf Hum].
    apply andb_true_iff in Hf. destruct Hf as [Hdist Hord].
    rewrite forallb_forall in Hch, Hb. rewrite Forall_forall in IH.
    rewrite serializeData_obj, deserializeData_obj.
    unfold unmarked in Hum.
    destruct (marked_buffer props); [discriminate|].
    rewrite (ordinary_keys_callable _ Hord).
    rewrite (copy_props_fresh serializeData props props []),
            (copy_props_fresh deserializeData props props []);
      try assumption.
    + split; reflexivity.
    + apply Forall2_same, Forall_forall. intros kv Hkv.
      split; [reflexivity|]. apply (IH kv Hkv (Hch kv Hkv) (Hb kv Hkv)).
    + apply Forall2_same, Forall_forall. intros kv Hkv.
      split; [reflexivity|]. apply (IH kv Hkv (Hch kv Hkv) (Hb kv Hkv)).
Qed.

Lemma normalizer_identity_without_blobs_witness :
  faithful (data block_record) = true /\ blob_free (data block_record) = true /\
  serializeData (data block_record) = Ok (data block_record) /\
  deserializeData (data block_record) = Ok (data block_record).
Proof.
  split; [reflexivity|]. split; [reflexivity|].
  exact (normalizer_identity_without_blobs (data block_record) eq_refl eq_refl).
Defined.

(** *** utils.ts *)

(** The loop of [mapToObject] over the properties of a plain object. *)
Lemma mapToObject_obj props :
  mapToObject (VObj props)
  = VObj (fold_left (fun obj kv => obj_set (fst kv) (mapToObject (snd kv)) obj)
                    props []).
Proof.
  cbn [mapToObject]. f_equal. generalize (@nil (string * value)).
  induction props as [|[k v] props IH]; intros obj; [reflexivity|].
  cbn [fold_left fst snd]. apply IH.
Qed.

Lemma distinct_app_notin acc k rest :
  distinct (map fst acc ++ k :: rest) = true -> ~ In k (map fst (acc : list (string * value))).
Proof.
  induction acc as [|[a w] acc IHacc]; simpl; [tauto|].
  intros Hd. apply andb_true_iff in Hd. destruct Hd as [Ha Hd].
  intros [E|Hin].
  - subst a. apply negb_true_iff in Ha.
    rewrite <- not_true_iff_false in Ha. apply Ha.
    apply existsb_eqb_In. apply in_or_app. right. left. reflexivity.
  - apply (IHacc Hd Hin).
Qed.

Lemma mapToObject_copy props : forall acc,
  Forall (fun kv => mapToObject (snd kv) = snd kv) props ->
  distinct (map fst acc ++ map fst props) = true ->
  forallb (fun k => negb (String.eqb k "__proto__")) (map fst props) = true ->
  fold_left (fun obj kv => obj_set (fst kv) (mapToObject (snd kv)) obj) props acc
  = acc ++ props.
Proof.
  induction props as [|[k v] props IH]; intros acc Hfix Hd Hp.
  - cbn [fold_left]. rewrite app_nil_r. reflexivity.
  - inversion Hfix as [|? ? Hv Hfix']; subst. cbn [snd] in Hv.
    cbn [map fst forallb] in Hd, Hp.
    apply andb_true_iff in Hp. destruct Hp as [Hk Hp].
    apply negb_true_iff in Hk.
    cbn [fold_left fst snd]. rewrite Hv.
    unfold obj_set at 2. rewrite Hk.
    rewrite obj_replace_fresh by (apply (distinct_app_notin _ _ _ Hd)).
    rewrite IH.
    + rewrite <- app_assoc. reflexivity.
    + exact Hfix'.
    + rewrite map_app, <- app_assoc. exact Hd.
    + exact Hp.
Qed.

(** X12: [mapToObject] returns a tree of plain objects as it is (byte blobs
    included): every value in which no map has a [__proto__] key. A key
    [hasOwnProperty] does not disturb it. *)
Theorem mapToObject_plain v : plain v = true -> mapToObject v = v.
Proof.
  induction v as [| |b|n|t|bytes|items IH|props IH] using value_ind_nested;
    intros Hp; try reflexivity.
  - cbn [plain] in Hp. cbn [mapToObject]. f_equal.
    rewrite forallb_forall in Hp. rewrite Forall_forall in IH.
    rewrite <- (map_id items) at 2. apply map_ext_in.
    intros x Hx. apply (IH x Hx (Hp x Hx)).
  - cbn [plain] in Hp.
    apply andb_true_iff in Hp. destruct Hp as [Hp Hch].
    apply andb_true_iff in Hp. destruct Hp as [Hdist Hproto].
    rewrite mapToObject_obj, (mapToObject_copy props []); [reflexivity| | |].
    + rewrite forallb_forall in Hch. rewrite Forall_forall in IH.
      apply Forall_forall. intros kv Hkv. apply (IH kv Hkv (Hch kv Hkv)).
    + exact Hdist.
    + exact Hproto.
Qed.

Lemma mapToObject_plain_witness :
  let v := VObj [("hasOwnProperty", VNum 1); ("img", VBuf [1; 2]);
                 ("list", VArr [VObj [("a", VNull)]])] in
  plain v = true /\ mapToObject v = v.
Proof.
  split; [reflexivity|].
  exact (mapToObject_plain
           (VObj [("hasOwnProperty", VNum 1); ("img", VBuf [1; 2]);
                  ("list", VArr [VObj [("a", VNull)]])]) eq_refl).
Defined.

(** ** The writers' counters and the layout of the file *)

Import WriterSpec.

Lemma fw_write_written c w : FW.bytesWritten (FW.stream_write c w) = FW.bytesWritten w.
Proof. unfold FW.stream_write. destruct (FW.ended w); reflexivity. Qed.
Lemma fw_write_count c w : FW.packetCount (FW.stream_write c w) = FW.packetCount w.
Proof. unfold FW.stream_write. destruct (FW.ended w); reflexivity. Qed.
Lemma fw_add_written n w : FW.bytesWritten (FW.add_bytesWritten n w) = FW.bytesWritten w + n.
Proof. reflexivity. Qed.
Lemma fw_add_count n w : FW.packetCount (FW.add_bytesWritten n w) = FW.packetCount w.
Proof. reflexivity. Qed.
Lemma fw_last_written t w : FW.bytesWritten (FW.set_lastTimestamp t w) = FW.bytesWritten w.
Proof. reflexivity. Qed.
Lemma fw_last_count t w : FW.packetCount (FW.set_lastTimestamp t w) = FW.packetCount w.
Proof. reflexivity. Qed.
Lemma fw_count_written w : FW.bytesWritten (FW.incr_packetCount w) = FW.bytesWritten w.
Proof. reflexivity. Qed.
Lemma fw_count_count w : FW.packetCount (FW.incr_packetCount w) = FW.packetCount w + 1.
Proof. reflexivity. Qed.
Lemma fw_head_written w : FW.bytesWritten (FW.set_headerWritten w) = FW.bytesWritten w.
Proof. reflexivity. Qed.
Lemma fw_head_count w : FW.packetCount (FW.set_headerWritten w) = FW.packetCount w.
Proof. reflexivity. Qed.
Lemma fw_head_ended w : FW.ended (FW.set_headerWritten w) = FW.ended w.
Proof. reflexivity. Qed.
Lemma fw_head_bytes w : FW.file_bytes (FW.set_headerWritten w) = FW.file_bytes w.
Proof. reflexivity. Qed.
Lemma fw_head_last w : FW.lastTimestamp (FW.set_headerWritten w) = FW.lastTimestamp w.
Proof. reflexivity. Qed.
Lemma fw_head_header w : FW.headerWritten (FW.set_headerWritten w) = true.
Proof. reflexivity. Qed.
Lemma fw_end_written w : FW.bytesWritten (FW.stream_end w) = FW.bytesWritten w.
Proof. reflexivity. Qed.
Lemma fw_end_count w : FW.packetCount (FW.stream_end w) = FW.packetCount w.
Proof. reflexivity. Qed.
Lemma fw_end_bytes w : FW.file_bytes (FW.stream_end w) = FW.file_bytes w.
Proof. reflexivity. Qed.

Ltac fw_counters :=
  repeat progress rewrite ?fw_write_written, ?fw_write_count, ?fw_add_written,
    ?fw_add_count, ?fw_last_written, ?fw_last_count, ?fw_count_written,
    ?fw_count_count, ?fw_head_written, ?fw_head_count, ?fw_head_ended,
    ?fw_head_bytes, ?fw_head_last, ?fw_head_header, ?fw_end_written,
    ?fw_end_count, ?fw_end_bytes.

(** The bytes of the stream after some writes on a stream that is open. *)
Ltac fw_bytes He :=
  repeat (first [rewrite fw_write_bytes by (fw_fields; fw_counters; exact He)
                | progress fw_fields | progress fw_counters]).

(** One call on the file-backed writer keeps [bytesWritten] equal to the
    number of bytes in the stream, and counts the packet when it returns. *)
Lemma fw_perform_counters encode c w :
  FW.ended w = false ->
  FW.bytesWritten w = Z.of_nat (length (FW.file_bytes w)) ->
  let w' := state_of (FW.perform encode c w) in
  FW.ended w' = false /\
  FW.bytesWritten w' = Z.of_nat (length (FW.file_bytes w')) /\
  FW.packetCount w'
  = FW.packetCount w + packets_returned [c] [thrown (FW.perform encode c w)].
Proof.
  intros He Hb w'. subst w'. destruct c as [|r]; cbn [FW.perform].
  - unfold FW.writeHeader. destruct (FW.headerWritten w); cbn [state_of thrown].
    + cbn. repeat split; first [assumption|lia].
    + cbv zeta. fw_bytes He. rewrite !length_app, magic_length. cbn [length].
      cbn [packets_returned]. repeat split; first [assumption|lia].
  - unfold FW.writePacket. destruct (FW.headerWritten w); cbn [negb state_of thrown];
      [|cbn; repeat split; first [assumption|lia]].
    destruct (packet_id_of (name r)) as [id|];
      [|cbn; repeat split; first [assumption|lia]].
    cbv zeta.
    destruct (serializeData (data r)) as [s|e]; cbn [state_of thrown].
    + destruct (writeUInt32LE _) as [lenBuf|e] eqn:El; cbn [state_of thrown].
      * apply writeUInt32LE_length in El.
        fw_bytes He. rewrite !length_app, El. cbn [length packets_returned].
        repeat split; first [assumption|lia].
      * fw_bytes He. rewrite !length_app. cbn [length packets_returned].
        repeat split; first [assumption|lia].
    + fw_bytes He. rewrite !length_app. cbn [length packets_returned].
      repeat split; first [assumption|lia].
Qed.

Lemma fw_session_counters encode metadata calls : forall w,
  FW.ended w = false ->
  FW.bytesWritten w = Z.of_nat (length (FW.file_bytes w)) ->
  let result := FW.session encode calls metadata w in
  FW.bytesWritten (snd result) = Z.of_nat (length (FW.file_bytes (snd result))) /\
  FW.packetCount (snd result) = FW.packetCount w + packets_returned calls (fst result).
Proof.
  induction calls as [|c calls IH]; intros w He Hb; cbv zeta; cbn [FW.session].
  - unfold FW.close. destruct (writeUInt32LE _) as [lenBuf|e] eqn:El;
      cbn [state_of thrown fst snd packets_returned].
    + apply writeUInt32LE_length in El.
      fw_bytes He. rewrite !length_app, El. cbn [length]. split; lia.
    + split; [exact Hb|lia].
  - destruct (fw_perform_counters encode c w He Hb) as (He' & Hb' & Hc').
    destruct (IH _ He' Hb') as [IH1 IH2].
    destruct (FW.session encode calls metadata _) as [errors wf].
    cbn [fst snd] in *. split; [exact IH1|].
    rewrite IH2, Hc'. cbn [packets_returned].
    destruct c; destruct (thrown _); lia.
Qed.

Lemma mw_perform_counters encode c m :
  MW.bytesWritten m = Z.of_nat (length (MW.getBuffer m)) ->
  let m' := state_of (MW.perform encode c m) in
  MW.bytesWritten m' = Z.of_nat (length (MW.getBuffer m')) /\
  MW.packetCount m'
  = MW.packetCount m + packets_returned [c] [thrown (MW.perform encode c m)].
Proof.
  intros Hb m'. subst m'. destruct c as [|r]; cbn [MW.perform].
  - unfold MW.writeHeader. destruct (MW.headerWritten m); cbn [state_of thrown].
    + cbn. split; [exact Hb|lia].
    + unfold MW.getBuffer in *. cbn. rewrite !concat_app, !length_app, Hb.
      cbn. rewrite ?app_nil_r. split; lia.
  - unfold MW.writePacket. destruct (MW.headerWritten m); cbn [negb state_of thrown];
      [|cbn; split; [exact Hb|lia]].
    destruct (packet_id_of (name r)) as [id|];
      [|cbn; split; [exact Hb|lia]].
    cbv zeta.
    destruct (serializeData (data r)) as [s|e]; cbn [state_of thrown].
    + destruct (writeUInt32LE _) as [lenBuf|e] eqn:El; cbn [state_of thrown];
        unfold MW.getBuffer in *; cbn; rewrite !concat_app, !length_app, Hb;
        cbn; rewrite ?app_nil_r; split; lia.
    + unfold MW.getBuffer in *; cbn; rewrite !concat_app, !length_app, Hb;
        cbn; rewrite ?app_nil_r; split; lia.
Qed.

Lemma mw_session_counters encode metadata calls : forall m,
  MW.bytesWritten m = Z.of_nat (length (MW.getBuffer m)) ->
  let result := MW.session encode calls metadata m in
  MW.bytesWritten (snd result) = Z.of_nat (length (MW.getBuffer (snd result))) /\
  MW.packetCount (snd result) = MW.packetCount m + packets_returned calls (fst result).
Proof.
  induction calls as [|c calls IH]; intros m Hb; cbv zeta; cbn [MW.session].
  - unfold MW.close. destruct (writeUInt32LE _) as [lenBuf|e] eqn:El;
      cbn [state_of thrown fst snd packets_returned].
    + unfold MW.getBuffer in *. cbn. rewrite !concat_app, !length_app, Hb.
      cbn. rewrite ?app_nil_r. split; lia.
    + split; [exact Hb|lia].
  - destruct (mw_perform_counters encode c m Hb) as (Hb' & Hc').
    destruct (IH _ Hb') as [IH1 IH2].
    destruct (MW.session encode calls metadata _) as [errors mf].
    cbn [fst snd] in *. split; [exact IH1|].
    rewrite IH2, Hc'. cbn [packets_returned].
    destruct c; destruct (thrown _); lia.
Qed.

(** X13: after any session on a fresh writer (any calls, then [close]),
    [getStats()] is exact: [bytesWritten] is the size of the file (of the
    collected buffer, for the in-memory writer) and [packetCount] is the number
    of [writePacket] calls that returned. *)
Theorem getStats_exact (encode : Payload.value -> list Z) calls metadata callback :
  let file := FW.session encode calls metadata FW.create in
  let memory := MW.session encode calls metadata (MW.create callback) in
  getStats_file (snd file)
  = (Z.of_nat (length (FW.file_bytes (snd file))), packets_returned calls (fst file)) /\
  getStats_memory (snd memory)
  = (Z.of_nat (length (MW.getBuffer (snd memory))), packets_returned calls (fst memory)).
Proof.
  intros file memory. unfold getStats_file, getStats_memory.
  destruct (fw_session_counters encode metadata calls FW.create eq_refl eq_refl)
    as [F1 F2].
  destruct (mw_session_counters encode metadata calls (MW.create callback) eq_refl)
    as [M1 M2].
  fold file in F1, F2. fold memory in M1, M2.
  rewrite F1, F2, M1, M2. split; reflexivity.
Qed.

Lemma writeUInt32LE_cases n :
  (0 <= n <= 0xFFFFFFFF /\ writeUInt32LE n = Ok (u32le n)) \/
  (~ 0 <= n <= 0xFFFFFFFF /\ writeUInt32LE n = Throw ValueOutOfRange).
Proof.
  unfold writeUInt32LE, u32le.
  destruct (Z.leb_spec 0 n); destruct (Z.leb_spec n 0xFFFFFFFF); cbn [andb];
    [left|right|right|right]; split; try reflexivity; lia.
Qed.

(** What [PACKET_IDS[name]] finds. *)
Lemma packet_id_of_cases n :
  match packet_id_of n with
  | Some id => id_byte n id
  | None => lookup_name PACKET_IDS n = None /\ ~ In n OBJECT_PROTOTYPE
  end.
Proof.
  unfold packet_id_of, id_byte.
  destruct (lookup_name PACKET_IDS n) as [id|]; [left; reflexivity|].
  pose proof (existsb_eqb_In n OBJECT_PROTOTYPE) as Hin.
  destruct (existsb (String.eqb n) OBJECT_PROTOTYPE).
  - right. split; [reflexivity|]. split; [apply Hin; reflexivity|reflexivity].
  - split; [reflexivity|]. intros Hn. apply Hin in Hn. discriminate.
Qed.

(** X14: the outcomes of [writePacket] on an open file-backed writer. It
    throws before writing anything when the header is missing, or when the
    packet name is neither a name of the table nor a name that the table
    inherits from [Object.prototype], and the writer is then unchanged. Under
    an inherited name ([constructor], [toString], ...) the lookup finds
    something, and the call goes on with the id byte [0]. When the payload
    cannot be normalized, or its encoding does not fit the length field, the
    call throws after the timestamp delta and the id byte have gone to the
    stream and [lastTimestamp] has moved. Otherwise it returns, having
    appended the whole frame: delta, id, length, data. *)
Theorem writePacket_outcomes encode r w :
  FW.ended w = false ->
  match FW.writePacket encode r w with
  | Throws HeaderNotWritten w' => FW.headerWritten w = false /\ w' = w
  | Throws (UnknownPacketName n) w' =>
      FW.headerWritten w = true /\ n = name r /\
      lookup_name PACKET_IDS (name r) = None /\
      ~ In (name r) OBJECT_PROTOTYPE /\ w' = w
  | Throws e w' =>
      (e = TypeError \/ e = ValueOutOfRange) /\
      exists id,
        id_byte (name r) id /\
        FW.file_bytes w'
        = FW.file_bytes w ++ encodeVarint (timestamp r - FW.lastTimestamp w) ++ [id] /\
        FW.lastTimestamp w' = timestamp r /\ FW.packetCount w' = FW.packetCount w
  | Returns w' =>
      exists id s,
        id_byte (name r) id /\
        serializeData (data r) = Ok s /\
        FW.file_bytes w'
        = FW.file_bytes w ++ encodeVarint (timestamp r - FW.lastTimestamp w) ++ [id]
            ++ u32le (Z.of_nat (length (encode s))) ++ encode s /\
        FW.lastTimestamp w' = timestamp r /\ FW.packetCount w' = FW.packetCount w + 1
  end.
Proof.
  intros He. unfold FW.writePacket.
  destruct (FW.headerWritten w); cbn [negb]; [|split; reflexivity].
  pose proof (packet_id_of_cases (name r)) as Hid.
  destruct (packet_id_of (name r)) as [id|];
    [|destruct Hid as [Hn Hp]; repeat split; assumption].
  cbv zeta.
  destruct (serializeData (data r)) as [s|e] eqn:Es.
  - destruct (writeUInt32LE_cases (Z.of_nat (length (encode s)))) as [[_ ->]|[_ ->]].
    + exists id, s. split; [exact Hid|]. split; [reflexivity|].
      fw_bytes He. rewrite <- !app_assoc. repeat split.
    + split; [right; reflexivity|]. exists id. split; [exact Hid|].
      fw_bytes He. rewrite <- !app_assoc. repeat split.
  - destruct (serializeData_shadows (data r)) as [Ht Hf].
    destruct (shadows (data r)).
    + rewrite (Ht eq_refl) in Es. inversion Es; subst.
      split; [left; reflexivity|]. exists id. split; [exact Hid|].
      fw_bytes He. rewrite <- !app_assoc. repeat split.
    + destruct (Hf eq_refl) as [s E]. congruence.
Qed.

Lemma writePacket_outcomes_witness :
  let r := {| timestamp := 12; name := "constructor"; data := VObj [] |} in
  FW.ended writer_at_10 = false /\
  lookup_name PACKET_IDS (name r) = None /\
  exists w',
    FW.writePacket SampleCodec.encode r writer_at_10 = Returns w' /\
    (exists id s,
      id_byte (name r) id /\
      serializeData (data r) = Ok s /\
      FW.file_bytes w'
      = FW.file_bytes writer_at_10
          ++ encodeVarint (timestamp r - FW.lastTimestamp writer_at_10)
          ++ [id] ++ u32le (Z.of_nat (length (SampleCodec.encode s)))
          ++ SampleCodec.encode s /\
      FW.lastTimestamp w' = timestamp r /\
      FW.packetCount w' = FW.packetCount writer_at_10 + 1) /\
    firstn 2 (skipn 16 (FW.file_bytes w')) = [2; 0].
Proof.
  intros r. split; [reflexivity|]. split; [reflexivity|].
  pose proof (writePacket_outcomes SampleCodec.encode r writer_at_10 eq_refl) as H.
  destruct (FW.writePacket SampleCodec.encode r writer_at_10) as [w'|e w']
    eqn:E; [|vm_compute in E; discriminate].
  exists w'. split; [reflexivity|]. split; [exact H|].
  vm_compute in E. inversion E. reflexivity.
Defined.

Lemma writeUInt32LE_u32le n :
  0 <= n <= 0xFFFFFFFF -> writeUInt32LE n = Ok (u32le n).
Proof. intros H. apply writeUInt32LE_Ok. exact H. Qed.

(** The frame of a record that can be written, part by part. *)
Lemma frame_parts encode last r :
  known r -> writable encode r ->
  exists id s,
    lookup_name PACKET_IDS (name r) = Some id /\
    serializeData (data r) = Ok s /\
    frame encode last r
    = encodeVarint (timestamp r - last) ++ [id]
        ++ u32le (Z.of_nat (length (encode s))) ++ encode s.
Proof.
  intros Hk (s & Hs & Hl). unfold known in Hk.
  destruct (lookup_name PACKET_IDS (name r)) as [id|] eqn:En; [|congruence].
  exists id, s. split; [reflexivity|]. split; [exact Hs|].
  unfold frame. rewrite (packet_id_own _ _ En), Hs, writeUInt32LE_u32le by lia.
  reflexivity.
Qed.

(** A session after the header: every rejected call leaves the writer as it
    was, every accepted record adds its frame. *)
Lemma session_layout encode metadata calls : forall w,
  FW.headerWritten w = true -> FW.ended w = false ->
  Forall (writable encode) (accepted calls) ->
  Z.of_nat (length (encode (metadata_value metadata))) <= 0xFFFFFFFF ->
  fst (FW.session encode calls metadata w) = map verdict calls ++ [None] /\
  FW.file_bytes (snd (FW.session encode calls metadata w))
  = FW.file_bytes w ++ frames encode (FW.lastTimestamp w) (accepted calls)
      ++ encode (metadata_value metadata)
      ++ u32le (Z.of_nat (length (encode (metadata_value metadata)))).
Proof.
  induction calls as [|c calls IH]; intros w Hh He Hw Hm.
  - cbn [FW.session accepted frames map app]. unfold FW.close.
    rewrite writeUInt32LE_u32le by lia. cbn [thrown state_of fst snd].
    split; [reflexivity|]. fw_bytes He. rewrite <- app_assoc. reflexivity.
  - cbn [FW.session map app]. destruct c as [|r]; cbn [FW.perform verdict accepted].
    + unfold FW.writeHeader. rewrite Hh. cbn [thrown state_of].
      destruct (IH w Hh He Hw Hm) as [IH1 IH2].
      destruct (FW.session encode calls metadata w) as [errors wf].
      cbn [fst snd] in *. rewrite IH1, IH2. split; reflexivity.
    + cbn [accepted] in Hw.
      destruct (packet_id_of (name r)) as [id|] eqn:En.
      * inversion Hw as [|? ? (s & Hs & Hl) Hw']; subst.
        destruct (writePacket_frame_id encode r w s id Hh He En Hs Hl)
          as (w' & Ew & Hh' & He' & Ht' & Hb').
        rewrite Ew. cbn [thrown state_of].
        destruct (IH w' Hh' He' Hw' Hm) as [IH1 IH2].
        destruct (FW.session encode calls metadata w') as [errors wf].
        cbn [fst snd frames] in *. rewrite IH1, IH2, Hb', Ht'.
        rewrite <- !app_assoc. split; reflexivity.
      * unfold FW.writePacket. rewrite Hh, En. cbn [negb thrown state_of].
        destruct (IH w Hh He Hw Hm) as [IH1 IH2].
        destruct (FW.session encode calls metadata w) as [errors wf].
        cbn [fst snd] in *. rewrite IH1, IH2. split; reflexivity.
Qed.

Lemma accepted_known records :
  Forall known records -> accepted (map WritePacket records) = records.
Proof.
  induction 1 as [|r records Hk _ IH]; [reflexivity|].
  cbn [map accepted]. unfold known in Hk.
  destruct (lookup_name PACKET_IDS (name r)) as [id|] eqn:En; [|congruence].
  rewrite (packet_id_own _ _ En), IH. reflexivity.
Qed.

Lemma accepted_again calls :
  accepted (map WritePacket (accepted calls)) = accepted calls.
Proof.
  induction calls as [|[|r] calls IH]; cbn [accepted]; auto.
  destruct (packet_id_of (name r)) eqn:En; [|exact IH].
  cbn [map accepted]. rewrite En, IH. reflexivity.
Qed.

Lemma header_then encode calls metadata :
  FW.session encode (WriteHeader :: calls) metadata FW.create
  = let '(errors, w) :=
      FW.session encode calls metadata
        (FW.set_headerWritten
           (FW.add_bytesWritten 1
              (FW.stream_write [VERSION]
                 (FW.add_bytesWritten 8
                    (FW.stream_write (bytes_of_string MAGIC) FW.create))))) in
    (None :: errors, w).
Proof. reflexivity. Qed.

Lemma recording_layout encode calls metadata :
  Forall (writable encode) (accepted calls) ->
  Z.of_nat (length (encode (metadata_value metadata))) <= 0xFFFFFFFF ->
  let result := FW.session encode (WriteHeader :: calls) metadata FW.create in
  fst result = None :: map verdict calls ++ [None] /\
  FW.file_bytes (snd result)
  = bytes_of_string MAGIC ++ [VERSION] ++ frames encode 0 (accepted calls)
      ++ encode (metadata_value metadata)
      ++ u32le (Z.of_nat (length (encode (metadata_value metadata)))).
Proof.
  intros Hw Hm. cbv zeta. rewrite header_then.
  match goal with
  | |- context [FW.session encode calls metadata ?w] =>
      destruct (session_layout encode metadata calls w eq_refl eq_refl Hw Hm)
        as [H1 H2];
      destruct (FW.session encode calls metadata w) as [errors wf]
  end.
  cbn [fst snd] in *. rewrite H1, H2. split; reflexivity.
Qed.

(** X15: calls rejected for a reason of protocol leave no trace. In a session
    that starts with [writeHeader], a further [writeHeader] throws "Header
    already written" and a [writePacket] throws "Unknown packet name" when
    its packet name is neither in the table nor inherited by the table from
    [Object.prototype]; no other call throws, and the file is the one obtained
    by writing only the other records (with their own timestamps: a rejected
    record does not move [lastTimestamp]). A record named [constructor] or
    [toString] is not rejected: it is written. *)
Theorem rejected_calls_leave_no_trace encode calls metadata :
  Forall (writable encode) (accepted calls) ->
  Z.of_nat (length (encode (metadata_value metadata))) <= 0xFFFFFFFF ->
  let result := FW.session encode (WriteHeader :: calls) metadata FW.create in
  fst result = None :: map verdict calls ++ [None] /\
  FW.file_bytes (snd result) = recorded encode (accepted calls) metadata /\
  Forall (fun r => lookup_name PACKET_IDS (name r) <> None \/
                   In (name r) OBJECT_PROTOTYPE) (accepted calls).
Proof.
  intros Hw Hm.
  destruct (recording_layout encode calls metadata Hw Hm) as [H1 H2].
  split; [exact H1|]. split.
  - cbv zeta in H2. rewrite H2.
    unfold recorded, recording.
    pose proof (accepted_again calls) as Ea.
    assert (Hw' : Forall (writable encode) (accepted (map WritePacket (accepted calls))))
      by (rewrite Ea; exact Hw).
    destruct (recording_layout encode (map WritePacket (accepted calls)) metadata Hw' Hm)
      as [_ H3].
    cbv zeta in H3. rewrite H3, Ea. reflexivity.
  - clear. induction calls as [|[|r] calls IH]; cbn [accepted]; auto.
    pose proof (packet_id_of_cases (name r)) as Hid.
    destruct (packet_id_of (name r)) as [id|]; [|exact IH].
    constructor; [|exact IH].
    destruct Hid as [Hn|(_ & Hp & _)]; [left; congruence|right; exact Hp].
Qed.

Lemma rejected_calls_leave_no_trace_witness :
  let calls := [WritePacket chat_record; WriteHeader;
                WritePacket {| timestamp := 900; name := "keep_alive";
                               data := VObj [] |};
                WritePacket {| timestamp := 950; name := "toString";
                               data := VObj [] |};
                WritePacket block_record] in
  Forall (writable SampleCodec.encode) (accepted calls) /\
  Z.of_nat (length (SampleCodec.encode (metadata_value sample_metadata))) <= 0xFFFFFFFF /\
  map name (accepted calls) = ["chat"; "toString"; "block_change"]%string /\
  fst (FW.session SampleCodec.encode (WriteHeader :: calls) sample_metadata FW.create)
  = [None; None; Some HeaderAlreadyWritten; Some (UnknownPacketName "keep_alive");
     None; None; None] /\
  FW.file_bytes
    (snd (FW.session SampleCodec.encode (WriteHeader :: calls) sample_metadata FW.create))
  = recorded SampleCodec.encode (accepted calls) sample_metadata.
Proof.
  intros calls.
  assert (Hw : Forall (writable SampleCodec.encode) (accepted calls)).
  { repeat constructor; eexists; (split; [reflexivity|vm_compute; discriminate]). }
  assert (Hm : Z.of_nat (length (SampleCodec.encode (metadata_value sample_metadata)))
               <= 0xFFFFFFFF) by (vm_compute; discriminate).
  split; [exact Hw|]. split; [exact Hm|]. split; [reflexivity|].
  destruct (rejected_calls_leave_no_trace SampleCodec.encode calls sample_metadata Hw Hm)
    as (H1 & H2 & _).
  split; [exact H1|exact H2].
Defined.

(** X16: the layout of the file, as the header comment of [format.ts]
    documents it. For records whose names are in the table and whose payloads
    can be written, the file is the eight bytes of the magic, the version
    byte, one frame per record (the varint of the timestamp delta, the id
    byte, the little-endian u32 length of the data, the data), the encoded
    metadata, and the little-endian u32 length of the metadata. *)
Theorem recorded_layout encode records metadata :
  Forall known records ->
  Forall (writable encode) records ->
  Z.of_nat (length (encode (metadata_value metadata))) <= 0xFFFFFFFF ->
  recorded encode records metadata
  = bytes_of_string MAGIC ++ [VERSION] ++ frames encode 0 records
      ++ encode (metadata_value metadata)
      ++ u32le (Z.of_nat (length (encode (metadata_value metadata)))) /\
  length (bytes_of_string MAGIC) = 8%nat /\
  Forall (fun r => forall last, exists id s,
            lookup_name PACKET_IDS (name r) = Some id /\
            serializeData (data r) = Ok s /\
            frame encode last r
            = encodeVarint (timestamp r - last) ++ [id]
                ++ u32le (Z.of_nat (length (encode s))) ++ encode s) records.
Proof.
  intros Hk Hw Hm. split; [|split; [exact magic_length|]].
  - pose proof (accepted_known _ Hk) as Ea.
    assert (Hw' : Forall (writable encode) (accepted (map WritePacket records)))
      by (rewrite Ea; exact Hw).
    destruct (recording_layout encode (map WritePacket records) metadata Hw' Hm)
      as [_ H].
    cbv zeta in H. unfold recorded, recording. rewrite H, Ea. reflexivity.
  - rewrite Forall_forall in *. intros r Hr last.
    apply frame_parts; auto.
Qed.

Lemma recorded_layout_witness :
  Forall known sample_records /\
  Forall (writable SampleCodec.encode) sample_records /\
  Z.of_nat (length (SampleCodec.encode (metadata_value sample_metadata))) <= 0xFFFFFFFF /\
  recorded SampleCodec.encode sample_records sample_metadata
  = bytes_of_string MAGIC ++ [VERSION] ++ frames SampleCodec.encode 0 sample_records
      ++ SampleCodec.encode (metadata_value sample_metadata)
      ++ u32le (Z.of_nat (length (SampleCodec.encode (metadata_value sample_metadata)))).
Proof.
  assert (Hk : Forall known sample_records)
    by (repeat constructor; vm_compute; discriminate).
  assert (Hw : Forall (writable SampleCodec.encode) sample_records).
  { repeat constructor; eexists; (split; [reflexivity|vm_compute; discriminate]). }
  assert (Hm : Z.of_nat (length (SampleCodec.encode (metadata_value sample_metadata)))
               <= 0xFFFFFFFF) by (vm_compute; discriminate).
  split; [exact Hk|]. split; [exact Hw|]. split; [exact Hm|].
  exact (proj1 (recorded_layout SampleCodec.encode sample_records sample_metadata
                  Hk Hw Hm)).
Defined.

(** ** The reader *)

Import ReaderStats.

Lemma map_get_set {V : Type} (m : list (string * V)) k v k' :
  map_get (map_set k v m) k' = if String.eqb k k' then Some v else map_get m k'.
Proof.
  induction m as [|[a w] m IH]; cbn [map_set map_get].
  - destruct (String.eqb k k'); reflexivity.
  - destruct (String.eqb_spec a k) as [->|Hak]; cbn [map_get].
    + destruct (String.eqb k k'); reflexivity.
    + destruct (String.eqb_spec a k') as [->|Hak'].
      * destruct (String.eqb_spec k k') as [->|]; [congruence|reflexivity].
      * exact IH.
Qed.

Lemma count_of_count_packet acc n b k pc players chats fs :
  count_of {| fileSize := fs; packetCount := pc;
              byPacketType := count_packet n b (byPacketType acc);
              totalPlayers := players; chatMessages := chats |} k
  = count_of acc k + (if String.eqb n k then 1 else 0).
Proof.
  unfold count_of, count_packet. cbn [byPacketType].
  destruct (map_get (byPacketType acc) n) as [[count bytes]|] eqn:En;
    rewrite map_get_set;
    destruct (String.eqb_spec n k) as [->|Hne]; try rewrite En; try lia;
    destruct (map_get (byPacketType acc) k) as [[c b']|]; lia.
Qed.

Lemma named_cons n r records :
  named n (r :: records) = (if String.eqb (name r) n then 1 else 0) + named n records.
Proof.
  unfold named. cbn [filter]. destruct (String.eqb (name r) n); cbn [length]; lia.
Qed.

(** The two loops over the packet stream go in step. *)
Lemma getStats_loop_counts decode r turns : forall position ts acc records,
  RD.readPackets_loop decode r turns position ts = Ok records ->
  match getStats_loop decode r turns position acc with
  | inr stats =>
      packetCount stats = packetCount acc + Z.of_nat (length records) /\
      chatMessages stats = chatMessages acc + named "chat" records /\
      (forall n, count_of stats n = count_of acc n + named n records) /\
      fileSize stats = fileSize acc
  | inl (FailedToDecode n _) => n = "named_entity_spawn" \/ n = "player_info"
  | inl (Failed _) => False
  end.
Proof.
  assert (Base : forall acc,
    packetCount acc = packetCount acc + Z.of_nat (length (@nil PacketRecord)) /\
    chatMessages acc = chatMessages acc + named "chat" [] /\
    (forall n, count_of acc n = count_of acc n + named n []) /\
    fileSize acc = fileSize acc).
  { intros acc. unfold named. cbn. repeat split; intros; lia. }
  induction turns as [|turns IH]; intros position ts acc records;
    cbn [RD.readPackets_loop getStats_loop].
  - intros E. inversion E. apply Base.
  - destruct (position <? RD.dataEndOffset r); [|intros E; inversion E; apply Base].
    destruct (_ =? 0)%nat; [intros E; inversion E; apply Base|].
    destruct (decodeVarint _ 0) as [[delta varintBytes]|e];
      [|destruct (_ <? 5)%nat; discriminate].
    destruct (RD.read_exact (RD.file r) 1 _) as [packetIdBuf|e]; [|discriminate].
    cbn [bind].
    destruct (lookup_id ID_TO_PACKET _) as [nm|]; [|discriminate].
    destruct (RD.read_exact (RD.file r) 4 _) as [dataLengthBuf|e]; [|discriminate].
    cbn [bind].
    destruct (RD.read_exact (RD.file r) (Z.to_nat _) _) as [dataBuf|e]; [|discriminate].
    cbn [bind].
    destruct (decode dataBuf) as [decoded|]; [|discriminate].
    destruct (deserializeData decoded) as [d|e]; [|discriminate].
    cbn [bind].
    destruct (RD.readPackets_loop decode r turns _ _) as [rest|e] eqn:Er;
      [|discriminate].
    cbn [bind]. intros E. inversion E; subst records. clear E.
    cbv zeta.
    assert (Step : forall acc' : Stats,
      packetCount acc' = packetCount acc + 1 ->
      chatMessages acc'
      = chatMessages acc + (if String.eqb nm "chat" then 1 else 0) ->
      (forall n, count_of acc' n
                 = count_of acc n + (if String.eqb nm n then 1 else 0)) ->
      fileSize acc' = fileSize acc ->
      match getStats_loop decode r turns
              (position + Z.of_nat varintBytes + 1 + 4 + readUInt32LE dataLengthBuf)
              acc' with
      | inr stats =>
          packetCount stats = packetCount acc
            + Z.of_nat (length ({| timestamp := ts + delta; name := nm; data := d |}
                                :: rest)) /\
          chatMessages stats = chatMessages acc
            + named "chat" ({| timestamp := ts + delta; name := nm; data := d |} :: rest) /\
          (forall n, count_of stats n = count_of acc n
            + named n ({| timestamp := ts + delta; name := nm; data := d |} :: rest)) /\
          fileSize stats = fileSize acc
      | inl (FailedToDecode n _) => n = "named_entity_spawn" \/ n = "player_info"
      | inl (Failed _) => False
      end).
    { intros acc' Hpc Hch Hco Hfs.
      specialize (IH _ _ acc' _ Er).
      destruct (getStats_loop decode r turns _ acc') as [[n off|e]|stats];
        [exact IH|exact IH|].
      destruct IH as (I1 & I2 & I3 & I4).
      cbn [length]. rewrite !named_cons. cbn [name].
      repeat split; try lia.
      intros n. rewrite I3, Hco. rewrite named_cons. cbn [name]. lia. }
    destruct (String.eqb_spec nm "chat") as [Hchat|Hchat].
    + apply Step; cbn [packetCount chatMessages fileSize];
        [lia|lia|intros n; apply count_of_count_packet|reflexivity].
    + destruct (String.eqb nm "named_entity_spawn" || String.eqb nm "player_info")
        eqn:Hsp.
      * destruct (collect_players decoded _) as [players|e].
        -- apply Step; cbn [packetCount chatMessages fileSize];
             [lia|lia|intros n; apply count_of_count_packet|reflexivity].
        -- apply orb_true_iff in Hsp. destruct Hsp as [H|H];
             apply String.eqb_eq in H; auto.
      * apply Step; cbn [packetCount chatMessages fileSize];
          [lia|lia|intros n; apply count_of_count_packet|reflexivity].
Qed.

(** X17: [getStats()] agrees with [readAllSync()]. On an open reader whose
    packets [readAllSync] reads, [getStats] either fails on the player names
    of a [named_entity_spawn] or [player_info] packet ("Failed to decode"), or
    returns the size of the file, the number of records as [packetCount], the
    number of [chat] records as [chatMessages], and for every packet name the
    number of records of that name as its count. *)
Theorem getStats_counts decode r records :
  RD.readAllSync decode r = Ok records ->
  match getStats decode r with
  | inr stats =>
      fileSize stats = Z.of_nat (length (RD.file r)) /\
      packetCount stats = Z.of_nat (length records) /\
      chatMessages stats = named "chat" records /\
      (forall n, count_of stats n = named n records)
  | inl (FailedToDecode n _) => n = "named_entity_spawn" \/ n = "player_info"
  | inl (Failed _) => False
  end.
Proof.
  unfold RD.readAllSync, getStats. intros E.
  pose proof (getStats_loop_counts decode r _ _ _
                {| fileSize := Z.of_nat (length (RD.file r)); packetCount := 0;
                   byPacketType := []; totalPlayers := []; chatMessages := 0 |}
                _ E) as H.
  destruct (getStats_loop decode r _ _ _) as [[n off|e]|stats]; [exact H|exact H|].
  destruct H as (H1 & H2 & H3 & H4). cbn in H1, H2, H4.
  repeat split; try lia.
  intros n. rewrite H3. unfold count_of at 1. cbn. lia.
Qed.

Import MoreSamples.

Lemma getStats_counts_witness :
  exists r stats,
    RD.open SampleCodec.decode
      (recorded SampleCodec.encode player_records sample_metadata) = Ok r /\
    RD.readAllSync SampleCodec.decode r = Ok player_records /\
    getStats SampleCodec.decode r = inr stats /\
    totalPlayers stats = [VStr "alice"; VStr "bob"] /\
    fileSize stats = Z.of_nat (length (RD.file r)) /\
    packetCount stats = Z.of_nat (length player_records) /\
    chatMessages stats = named "chat" player_records /\
    (forall n, count_of stats n = named n player_records).
Proof.
  destruct (RD.open SampleCodec.decode
              (recorded SampleCodec.encode player_records sample_metadata))
    as [r|e] eqn:Eo; [|vm_compute in Eo; discriminate].
  assert (Er : RD.readAllSync SampleCodec.decode r = Ok player_records).
  { vm_compute in Eo. inversion Eo; subst r. vm_compute. reflexivity. }
  pose proof (getStats_counts SampleCodec.decode r player_records Er) as H.
  destruct (getStats SampleCodec.decode r) as [f|stats] eqn:Es.
  - exfalso. vm_compute in Eo. inversion Eo; subst r. vm_compute in Es. discriminate.
  - exists r, stats. split; [reflexivity|]. split; [exact Er|].
    split; [exact Es|]. split; [|exact H].
    vm_compute in Eo. inversion Eo; subst r. vm_compute in Es.
    inversion Es; subst stats. reflexivity.
Defined.

Lemma ascii_equals_iff bytes s :
  ascii_equals bytes s = true <-> map (fun b => b mod 128) bytes = bytes_of_string s.
Proof.
  unfold ascii_equals. destruct (list_eq_dec _ _ _); split; congruence.
Qed.

Lemma read_exact_start file n :
  RD.read_exact file n 0
  = if (n <=? length file)%nat then Ok (firstn n file) else Throw ShortRead.
Proof.
  unfold RD.read_exact, RD.readSync. change (0 <? 0) with false. cbv iota.
  change (Z.to_nat 0) with 0%nat. cbn [skipn]. rewrite length_firstn.
  destruct (Nat.leb_spec n (length file)).
  - rewrite Nat.min_l by lia. rewrite Nat.eqb_refl. reflexivity.
  - rewrite Nat.min_r by lia.
    destruct (Nat.eqb_spec (length file) n); [lia|reflexivity].
Qed.

Lemma firstn_one_skipn (file : list Z) : forall i,
  firstn 1 (skipn i file) = if (i <? length file)%nat then [nth i file 0] else [].
Proof.
  induction file as [|b file IH]; intros [|i]; try reflexivity.
  cbn [skipn nth length]. rewrite IH.
  change (S i <? S (length file))%nat with (i <? length file)%nat. reflexivity.
Qed.

Lemma read_exact_one file i :
  RD.read_exact file 1 (Z.of_nat i)
  = if (i <? length file)%nat then Ok [nth i file 0] else Throw ShortRead.
Proof.
  unfold RD.read_exact, RD.readSync.
  destruct (Z.ltb_spec (Z.of_nat i) 0); [lia|]. rewrite Nat2Z.id.
  rewrite firstn_one_skipn. destruct (i <? length file)%nat; reflexivity.
Qed.

(** X18: what [readHeader] does with a file that holds the nine bytes of a
    header (on a shorter file the reads stop short, and what the code then
    compares is memory that no read has filled). It accepts the file exactly
    when its first eight bytes, with the high bit of each cleared (as
    [toString("ascii")] decodes them), spell the magic and its ninth byte is
    the version, and the packets then start at offset 9; it throws the
    bad-magic error exactly when the eight bytes do not spell the magic, and
    the unsupported-version error, with the ninth byte, exactly when they do
    and that byte is not the version. *)
Theorem readHeader_accepts_iff file :
  (9 <= length file)%nat ->
  let magic_ok := map (fun b => b mod 128) (firstn 8 file) = bytes_of_string MAGIC in
  (RD.readHeader file = Ok 9 <-> magic_ok /\ nth 8 file 0 = VERSION) /\
  (RD.readHeader file = Throw BadMagic <-> ~ magic_ok) /\
  (forall version,
     RD.readHeader file = Throw (UnsupportedVersion version) <->
     magic_ok /\ version = nth 8 file 0 /\ version <> VERSION) /\
  (forall offset, RD.readHeader file = Ok offset -> offset = 9).
Proof.
  intros Hlen magic_ok. subst magic_ok.
  unfold RD.readHeader. rewrite read_exact_start.
  change (RD.read_exact file 1 8) with (RD.read_exact file 1 (Z.of_nat 8)).
  rewrite read_exact_one.
  destruct (Nat.leb_spec 8 (length file)) as [H8|H8]; [|lia]. cbn [bind].
  destruct (Nat.ltb_spec 8 (length file)) as [H9|H9]; [|lia].
  destruct (ascii_equals (firstn 8 file) MAGIC) eqn:Em; cbn [negb].
  - apply ascii_equals_iff in Em. cbn [bind nth].
    destruct (Z.eqb_spec (nth 8 file 0) VERSION) as [Ev|Ev]; cbn [negb].
    + split; [split; [intros _; split; assumption|reflexivity]|].
      split; [split; [discriminate|intros Hn; contradiction]|].
      split; [|intros offset E; congruence].
      intros version. split; [discriminate|intros (_ & Hx & Hv); congruence].
    + split; [split; [discriminate|intros [_ E]; congruence]|].
      split; [split; [discriminate|intros Hn; contradiction]|].
      split; [|discriminate].
      intros version. split.
      * intros E. inversion E. repeat split; [exact Em|exact Ev].
      * intros (_ & -> & _). reflexivity.
  - assert (Hm : map (fun b => b mod 128) (firstn 8 file) <> bytes_of_string MAGIC).
    { intros E. apply ascii_equals_iff in E. congruence. }
    split; [split; [discriminate|intros [E _]; contradiction]|].
    split; [split; [intros _; exact Hm|reflexivity]|].
    split; [|discriminate].
    intros version. split; [discriminate|intros (E & _); contradiction].
Qed.

(** A header with the high bit of every magic byte set is accepted; the same
    bytes before a version byte [2] are refused for the version. *)
Lemma readHeader_accepts_iff_witness :
  (9 <= length high_bit_header)%nat /\
  RD.readHeader high_bit_header = Ok 9 /\
  RD.readHeader (firstn 8 high_bit_header ++ [2; 0]%Z) = Throw (UnsupportedVersion 2).
Proof.
  assert (H1 : (9 <= length high_bit_header)%nat) by (cbn; lia).
  assert (H2 : (9 <= length (firstn 8 high_bit_header ++ [2; 0]%Z))%nat) by (cbn; lia).
  split; [exact H1|]. split.
  - apply (proj1 (readHeader_accepts_iff high_bit_header H1)).
    split; reflexivity.
  - apply (proj1 (proj2 (proj2 (readHeader_accepts_iff _ H2))) 2).
    repeat split; discriminate.
Defined.

(** As for [readPackets]: every turn of the loop of [getStats] moves
    [position] forward, so the bound on the turns never cuts it short. *)
Lemma getStats_loop_turns decode r turns : forall more position acc,
  Forall (fun b => 0 <= b) (RD.file r) ->
  (Z.to_nat (RD.dataEndOffset r - position) <= turns)%nat ->
  getStats_loop decode r (turns + more) position acc
  = getStats_loop decode r turns position acc.
Proof.
  induction turns as [|turns IH]; intros more position acc Hf Hturns.
  - destruct more as [|more]; [reflexivity|]. cbn [Nat.add getStats_loop].
    destruct (Z.ltb_spec position (RD.dataEndOffset r)); [lia|reflexivity].
  - cbn [Nat.add getStats_loop].
    destruct (Z.ltb_spec position (RD.dataEndOffset r)) as [Hlt|]; [|reflexivity].
    destruct (_ =? 0)%nat; [reflexivity|].
    destruct (decodeVarint _ 0) as [[delta varintBytes]|e] eqn:Ev; [|reflexivity].
    apply decodeVarint_loop_reads in Ev.
    destruct (RD.read_exact (RD.file r) 1 _) as [packetIdBuf|e]; [|reflexivity].
    destruct (lookup_id ID_TO_PACKET _) as [nm|]; [|reflexivity].
    destruct (RD.read_exact (RD.file r) 4 _) as [dataLengthBuf|e] eqn:El; [|reflexivity].
    pose proof (readUInt32LE_nonneg _ (read_exact_bytes _ _ _ _ Hf El)) as Hlen.
    clear El. cbv zeta.
    destruct (String.eqb nm "chat"); [apply IH; [exact Hf|lia]|].
    destruct (String.eqb nm "named_entity_spawn" || String.eqb nm "player_info");
      [|apply IH; [exact Hf|lia]].
    destruct (RD.read_exact (RD.file r) _ _) as [dataBuf|e]; [|reflexivity].
    destruct (decode dataBuf) as [decoded|]; [|reflexivity].
    destruct (collect_players decoded _) as [players|e]; [|reflexivity].
    apply IH; [exact Hf|lia].
Qed.

(** ** Viewers: playback turns and resynchronisation *)

Lemma forallb_map {A B : Type} (f : B -> bool) (g : A -> B) l :
  forallb f (map g l) = forallb (fun a => f (g a)) l.
Proof.
  induction l as [|a l IH]; cbn [map forallb]; [reflexivity|].
  rewrite IH. reflexivity.
Qed.

Lemma heard_head r batch p :
  heard p (r :: batch) = true ->
  onError p || forallb (fun c => accepts c r) (clients p) = true.
Proof.
  unfold heard. destruct (onError p); [reflexivity|]. cbn [orb].
  induction (clients p) as [|c cs IH]; cbn [forallb]; [reflexivity|].
  intros H. apply andb_true_iff in H. destruct H as [Hc H].
  apply andb_true_iff in Hc. destruct Hc as [Hr _].
  rewrite Hr, (IH H). reflexivity.
Qed.

Lemma heard_tail r batch l p :
  heard p (r :: batch) = true ->
  onError p
  || forallb (fun c => forallb (accepts c) batch) (map (receives l) (clients p)) = true.
Proof.
  unfold heard. destruct (onError p); [reflexivity|]. cbn [orb].
  rewrite forallb_map.
  induction (clients p) as [|c cs IH]; cbn [forallb]; [reflexivity|].
  intros H. apply andb_true_iff in H. destruct H as [Hc H].
  apply andb_true_iff in Hc. destruct Hc as [_ Hb].
  change (accepts (receives l c)) with (accepts c).
  rewrite Hb, (IH H). reflexivity.
Qed.

Lemma replayPacket_advanced r p :
  snd (replay_projection (maxRecentPackets p) r (projection p)) = None ->
  onError p || forallb (fun c => accepts c r) (clients p) = true ->
  exists q,
    replayPacket r p = Returns q /\
    set_packetIndex (S (packetIndex q)) q = advanced [r] p.
Proof.
  unfold replayPacket, advanced. cbn [PlayerSpec.apply_all].
  destruct (replay_projection _ r _) as [w [e|]]; [discriminate|]. intros _ Hh.
  cbn [clients onError set_projection].
  rewrite (broadcast_heard _ _ _ Hh), emit_all_emitted.
  eexists. split; [reflexivity|].
  unfold refusals. cbn [flat_map length fst]. rewrite app_nil_r.
  cbn. rewrite Nat.add_1_r. reflexivity.
Qed.

Lemma map_receives_nil cs : map (receives []) cs = cs.
Proof.
  rewrite <- (map_id cs) at 2. apply map_ext. intros c. apply receives_nil.
Qed.

Lemma advanced_nil p : advanced [] p = p.
Proof.
  unfold advanced, refusals. cbn [length flat_map PlayerSpec.apply_all fst].
  rewrite map_receives_nil, Nat.add_0_r, app_nil_r. destruct p; reflexivity.
Qed.

Lemma refusals_receives ctx batch l cs :
  refusals ctx batch (map (receives l) cs) = refusals ctx batch cs.
Proof.
  unfold refusals. apply flat_map_ext. intros r.
  induction cs as [|c cs IH]; cbn [map flat_map]; [reflexivity|].
  rewrite IH. reflexivity.
Qed.

Lemma advanced_cons r batch p :
  snd (replay_projection (maxRecentPackets p) r (projection p)) = None ->
  advanced (r :: batch) p = advanced batch (advanced [r] p).
Proof.
  intros Hr. unfold advanced.
  cbn [metadata packets clients onError playing currentTime playbackSpeed packetIndex
       maxRecentPackets projection emitted PlayerSpec.apply_all length].
  destruct (replay_projection (maxRecentPackets p) r (projection p)) as [w [e|]];
    [discriminate|].
  cbn [fst]. rewrite map_map, refusals_receives, <- app_assoc.
  f_equal.
  - apply map_ext. intros c. apply receives_cons.
  - lia.
  - f_equal. unfold refusals. cbn [flat_map]. rewrite app_nil_r. reflexivity.
Qed.

(** The [while] loop of a playback turn replays the due records. *)
Lemma playback_while_due rest : forall processed p,
  snd (apply_all (maxRecentPackets p) (due (currentTime p) rest) (projection p)) = None ->
  heard p (due (currentTime p) rest) = true ->
  playback_while rest processed p
  = Returns (processed || negb (length (due (currentTime p) rest) =? 0)%nat,
             advanced (due (currentTime p) rest) p).
Proof.
  induction rest as [|r rest IH]; intros processed p Hok Hh;
    cbn [playback_while due] in *.
  - rewrite advanced_nil, orb_false_r. reflexivity.
  - destruct (greater (timestamp r) (currentTime p)).
    + rewrite advanced_nil, orb_false_r. reflexivity.
    + cbn [apply_all] in Hok.
      assert (Hr : snd (replay_projection (maxRecentPackets p) r (projection p)) = None)
        by (destruct (replay_projection _ r _) as [w [e|]]; [discriminate|reflexivity]).
      destruct (replayPacket_advanced r p Hr (heard_head _ _ _ Hh)) as (q & Eq & Es).
      rewrite Eq, Es. rewrite IH.
      * change (currentTime (advanced [r] p)) with (currentTime p).
        rewrite (advanced_cons r (due (currentTime p) rest) p Hr).
        cbn [length Nat.eqb negb orb]. rewrite orb_true_r. reflexivity.
      * unfold advanced.
        cbn [maxRecentPackets currentTime projection PlayerSpec.apply_all].
        destruct (replay_projection _ r _) as [w [e|]]; [discriminate|exact Hok].
      * unfold heard, advanced. cbn [onError clients currentTime].
        apply (heard_tail _ _ _ _ Hh).
Qed.

Lemma playbackLoop_replayed realElapsed p :
  playing p = true ->
  snd (apply_all (maxRecentPackets p)
         (due realElapsed (skipn (packetIndex p) (packets p))) (projection p)) = None ->
  heard p (due realElapsed (skipn (packetIndex p) (packets p))) = true ->
  playbackLoop realElapsed p
  = Returns (replayed realElapsed
               (due realElapsed (skipn (packetIndex p) (packets p))) p).
Proof.
  intros Hp Hok Hh. unfold playbackLoop. rewrite Hp. cbn [negb].
  cbv zeta. cbn [packetIndex packets set_currentTime].
  rewrite playback_while_due by assumption.
  cbn [currentTime set_currentTime orb].
  set (batch := due realElapsed (skipn (packetIndex p) (packets p))).
  unfold replayed, advanced.
  cbn [metadata packets clients onError playing currentTime playbackSpeed packetIndex
       maxRecentPackets projection emitted set_currentTime].
  destruct (negb (length batch =? 0)%nat
            && ((packetIndex p + length batch) mod 100 =? 0)%nat);
    cbn [packets packetIndex emit currentTime emitted];
    destruct (length (packets p) <=? packetIndex p + length batch)%nat;
    unfold emit, set_playing; cbn; rewrite <- ?app_assoc, ?app_nil_r, ?Hp;
    reflexivity.
Qed.

(** X19: a turn of playback at virtual time [t] replays, in order, the
    records from the cursor on up to the first one with a timestamp later
    than [t]. When tracking them raises no error and the refusals of the
    viewers find a listener (one is registered for ["error"], or no viewer
    refuses any of these records), the turn returns with the cursor moved past
    them, the projection as playback applies them, every viewer sent exactly
    those of them that its encoder accepts (a refusal is reported as an
    ["error"] event and stops nothing), a progress event when the new cursor
    is a multiple of 100, and the end of playback when the cursor has reached
    the end of the list. *)
Theorem playbackLoop_turn realElapsed p :
  playing p = true ->
  snd (apply_all (maxRecentPackets p)
         (due realElapsed (skipn (packetIndex p) (packets p))) (projection p)) = None ->
  heard p (due realElapsed (skipn (packetIndex p) (packets p))) = true ->
  playbackLoop realElapsed p
  = Returns (replayed realElapsed
               (due realElapsed (skipn (packetIndex p) (packets p))) p).
Proof. apply playbackLoop_replayed. Qed.

Lemma playbackLoop_turn_witness :
  let p := set_onError true
             (set_clients [viewer 1; picky_viewer 2 "block_change"]
                (set_playing true (loaded (Some sample_metadata) sample_records))) in
  let batch := due 1500 (skipn (packetIndex p) (packets p)) in
  playing p = true /\
  snd (apply_all (maxRecentPackets p) batch (projection p)) = None /\
  heard p batch = true /\
  playbackLoop 1500 p = Returns (replayed 1500 batch p) /\
  map written (clients (replayed 1500 batch p))
  = [[frame_of chat_record; frame_of block_record; frame_of image_record];
     [frame_of chat_record; frame_of image_record]] /\
  emitted (replayed 1500 batch p)
  = [ErrorEvent SinkError "packet_replay:block_change"; PlaybackEnd].
Proof.
  intros p batch. split; [reflexivity|]. split; [reflexivity|]. split; [reflexivity|].
  split; [exact (playbackLoop_turn 1500 p eq_refl eq_refl eq_refl)|].
  split; reflexivity.
Defined.

Lemma due_all t rest :
  Forall (fun r => greater (timestamp r) t = false) rest -> due t rest = rest.
Proof.
  induction 1 as [|r rest Hr _ IH]; cbn [due]; [reflexivity|].
  rewrite Hr, IH. reflexivity.
Qed.

(** X20: playback runs to the end. When none of the records from the cursor
    on is later than the virtual time of a turn, tracking them raises no
    error and the refusals of the viewers find a listener, the turn replays
    them all, leaves the cursor at the number of packets, stops playback and
    emits ["playback:end"] last; a further turn then changes nothing. *)
Theorem playback_reaches_end realElapsed p :
  playing p = true ->
  (packetIndex p <= length (packets p))%nat ->
  Forall (fun r => greater (timestamp r) realElapsed = false)
         (skipn (packetIndex p) (packets p)) ->
  snd (apply_all (maxRecentPackets p) (skipn (packetIndex p) (packets p))
         (projection p)) = None ->
  heard p (skipn (packetIndex p) (packets p)) = true ->
  exists p',
    playbackLoop realElapsed p = Returns p' /\
    playing p' = false /\
    packetIndex p' = length (packets p') /\
    projection p'
    = fst (apply_all (maxRecentPackets p) (skipn (packetIndex p) (packets p))
             (projection p)) /\
    clients p' = map (receives (skipn (packetIndex p) (packets p))) (clients p) /\
    (exists evs, emitted p' = evs ++ [PlaybackEnd]) /\
    forall later, playbackLoop later p' = Returns p'.
Proof.
  intros Hp Hi Hall Hok Hh.
  pose proof (due_all _ _ Hall) as Ed.
  eexists.
  split; [apply playbackLoop_replayed; [exact Hp|rewrite Ed; exact Hok
                                        |rewrite Ed; exact Hh]|].
  rewrite Ed. unfold replayed.
  cbn [playing packetIndex packets projection clients emitted].
  rewrite length_skipn.
  replace (packetIndex p + (length (packets p) - packetIndex p))%nat
    with (length (packets p)) by lia.
  rewrite Nat.leb_refl. cbn [negb].
  split; [reflexivity|]. split; [reflexivity|]. split; [reflexivity|].
  split; [reflexivity|]. split.
  - eexists. rewrite !app_assoc. reflexivity.
  - intros later. unfold playbackLoop. reflexivity.
Qed.

Lemma playback_reaches_end_witness :
  let p := set_onError true
             (set_clients [viewer 1; picky_viewer 2 "map_chunk"]
                (set_packetIndex 1
                   (set_playing true (loaded (Some sample_metadata) world_records)))) in
  let rest := skipn (packetIndex p) (packets p) in
  playing p = true /\
  (packetIndex p <= length (packets p))%nat /\
  Forall (fun r => greater (timestamp r) 2000 = false) rest /\
  snd (apply_all (maxRecentPackets p) rest (projection p)) = None /\
  heard p rest = true /\
  (exists p',
    playbackLoop 2000 p = Returns p' /\
    playing p' = false /\
    packetIndex p' = length (packets p') /\
    projection p' = fst (apply_all (maxRecentPackets p) rest (projection p)) /\
    clients p' = map (receives rest) (clients p) /\
    (exists evs, emitted p' = evs ++ [PlaybackEnd]) /\
    forall later, playbackLoop later p' = Returns p') /\
  map (fun c => length (written c)) (map (receives rest) (clients p)) = [5; 4]%nat /\
  activeEntityIds (fst (apply_all (maxRecentPackets p) rest (projection p))) = [].
Proof.
  intros p rest.
  assert (Hi : (packetIndex p <= length (packets p))%nat) by (cbn; lia).
  assert (Hall : Forall (fun r => greater (timestamp r) 2000 = false) rest)
    by (repeat constructor).
  split; [reflexivity|]. split; [exact Hi|]. split; [exact Hall|].
  split; [reflexivity|]. split; [reflexivity|].
  split; [exact (playback_reaches_end 2000 p eq_refl Hi Hall eq_refl eq_refl)|].
  split; reflexivity.
Defined.

(** *** What the playback calls leave alone *)

Lemma replayPacket_fields r p :
  let q := state_of (replayPacket r p) in
  packets q = packets p /\ packetIndex q = packetIndex p /\
  playing q = playing p /\ currentTime q = currentTime p /\
  playbackSpeed q = playbackSpeed p /\ maxRecentPackets q = maxRecentPackets p /\
  onError q = onError p /\
  map write_throws (clients q) = map write_throws (clients p).
Proof.
  cbv zeta. unfold replayPacket.
  destruct (replay_projection _ r _) as [w [e|]]; cbn [state_of];
    [repeat split|].
  cbn [clients onError set_projection].
  pose proof (broadcast_encoders (onError p) r (clients p)) as E.
  destruct (broadcast (onError p) r (clients p)) as [[cs evs] [e|]];
    cbn [fst] in E; cbn [state_of]; rewrite emit_all_emitted; cbn;
    repeat split; exact E.
Qed.

Lemma playback_while_fields rest : forall processed p,
  let q := snd (state_of (playback_while rest processed p)) in
  packets q = packets p /\
  (packetIndex p <= packetIndex q <= packetIndex p + length rest)%nat /\
  playing q = playing p /\ currentTime q = currentTime p /\
  playbackSpeed q = playbackSpeed p /\ maxRecentPackets q = maxRecentPackets p /\
  onError q = onError p /\
  map write_throws (clients q) = map write_throws (clients p).
Proof.
  induction rest as [|r rest IH]; intros processed p; cbv zeta;
    cbn [playback_while length].
  - cbn. repeat split; lia.
  - destruct (greater (timestamp r) (currentTime p)); [cbn; repeat split; lia|].
    pose proof (replayPacket_fields r p) as K. cbv zeta in K.
    destruct K as (K1 & K2 & K3 & K4 & K5 & K6 & K7 & K8).
    destruct (replayPacket r p) as [q|e q]; cbn [state_of snd] in *.
    + specialize (IH true (set_packetIndex (S (packetIndex q)) q)).
      cbv zeta in IH.
      cbn [packets packetIndex playing currentTime playbackSpeed maxRecentPackets
           onError clients set_packetIndex] in IH.
      destruct IH as (I1 & I2 & I3 & I4 & I5 & I6 & I7 & I8).
      rewrite I1, I3, I4, I5, I6, I7, I8. repeat split; try assumption; lia.
    + repeat split; try assumption; lia.
Qed.

Lemma playbackLoop_fields realElapsed p :
  let q := state_of (playbackLoop realElapsed p) in
  packets q = packets p /\
  (packetIndex p <= packetIndex q <= Nat.max (packetIndex p) (length (packets p)))%nat /\
  playbackSpeed q = playbackSpeed p /\ onError q = onError p /\
  map write_throws (clients q) = map write_throws (clients p).
Proof.
  cbv zeta. unfold playbackLoop.
  destruct (playing p); cbn [negb state_of]; [|repeat split; lia].
  cbv zeta. cbn [packetIndex packets set_currentTime].
  pose proof (playback_while_fields (skipn (packetIndex p) (packets p)) false
                (set_currentTime realElapsed p)) as K.
  cbv zeta in K.
  cbn [packets packetIndex playbackSpeed onError clients set_currentTime] in K.
  rewrite length_skipn in K.
  destruct (playback_while _ false _) as [[processed q]|e [processed q]];
    cbn [state_of snd] in *;
    destruct K as (K1 & K2 & _ & _ & K5 & _ & K7 & K8).
  - destruct (processed && _); cbn [packets packetIndex emit];
      destruct (_ <=? _)%nat;
      cbn [state_of packets packetIndex playbackSpeed onError clients emit set_playing];
      (repeat split; try assumption; lia).
  - repeat split; try assumption; lia.
Qed.

Lemma startPlayback_fields realElapsed p :
  let q := state_of (startPlayback realElapsed p) in
  packets q = packets p /\
  (packetIndex p <= packetIndex q <= Nat.max (packetIndex p) (length (packets p)))%nat /\
  playbackSpeed q = playbackSpeed p /\ onError q = onError p /\
  map write_throws (clients q) = map write_throws (clients p).
Proof.
  cbv zeta. unfold startPlayback.
  destruct (playing p); cbn [state_of]; [repeat split; lia|].
  cbv zeta.
  apply (playbackLoop_fields realElapsed
           (emit (PlaybackStart (currentTime (set_playing true p)))
                 (set_playing true p))).
Qed.

Lemma pausePlayback_keeps p :
  packets (pausePlayback p) = packets p /\ packetIndex (pausePlayback p) = packetIndex p.
Proof. unfold pausePlayback. destruct (playing p); split; reflexivity. Qed.

(** *** The cursor stays inside the packet list *)

Lemma playbackLoop_keeps realElapsed p :
  (packetIndex p <= length (packets p))%nat ->
  packets (state_of (playbackLoop realElapsed p)) = packets p /\
  (packetIndex (state_of (playbackLoop realElapsed p)) <= length (packets p))%nat.
Proof.
  intros Hi. pose proof (playbackLoop_fields realElapsed p) as K. cbv zeta in K.
  destruct K as (K1 & K2 & _). split; [exact K1|lia].
Qed.

Lemma startPlayback_keeps realElapsed p :
  (packetIndex p <= length (packets p))%nat ->
  packets (state_of (startPlayback realElapsed p)) = packets p /\
  (packetIndex (state_of (startPlayback realElapsed p)) <= length (packets p))%nat.
Proof.
  intros Hi. pose proof (startPlayback_fields realElapsed p) as K. cbv zeta in K.
  destruct K as (K1 & K2 & _). split; [exact K1|lia].
Qed.

Lemma seek_scan_bound t rest : forall i w,
  (fst (fst (seek_scan t rest i w)) <= i + length rest)%nat.
Proof.
  induction rest as [|r rest IH]; intros i w; cbn [seek_scan length].
  - cbn. lia.
  - destruct (greater (timestamp r) t); [cbn; lia|].
    destruct (trackWorldStatePacket r w) as [w'|e]; [|cbn; lia].
    specialize (IH (S i) w'). lia.
Qed.

Lemma setPlaybackSpeed_keeps realElapsed speed p :
  (packetIndex p <= length (packets p))%nat ->
  packets (state_of (setPlaybackSpeed realElapsed speed p)) = packets p /\
  (packetIndex (state_of (setPlaybackSpeed realElapsed speed p))
   <= length (packets p))%nat.
Proof.
  intros Hi. destruct (pausePlayback_keeps p) as [Pp Pi].
  unfold setPlaybackSpeed. cbv zeta.
  destruct (playing p); [|split; [reflexivity|exact Hi]].
  match goal with
  | |- context [startPlayback realElapsed ?q] =>
      destruct (startPlayback_keeps realElapsed q) as [K1 K2];
      [cbn [packets packetIndex emit set_playbackSpeed]; rewrite Pp, Pi; exact Hi|]
  end.
  split; [rewrite K1; exact Pp|rewrite <- Pp; exact K2].
Qed.

Lemma seekToTime_keeps realElapsed t p :
  (packetIndex p <= length (packets p))%nat ->
  packets (state_of (seekToTime realElapsed t p)) = packets p /\
  (packetIndex (state_of (seekToTime realElapsed t p)) <= length (packets p))%nat.
Proof.
  intros Hi. unfold seekToTime. cbv zeta.
  remember (if playing p then pausePlayback p else p) as q eqn:Eq.
  assert (Hq : packets q = packets p /\ packetIndex q = packetIndex p).
  { subst q. destruct (playing p); [apply pausePlayback_keeps|split; reflexivity]. }
  destruct Hq as [Qp Qi]. clear Eq.
  cbn [packets projection set_projection set_currentTime].
  pose proof (seek_scan_bound (Math_max 0 (Math_min (maxTime q) t)) (packets q) 0 cleared)
    as B.
  destruct (seek_scan _ (packets q) 0 cleared) as [[index w] [e|]];
    cbn [fst] in B; rewrite Qp in B.
  - cbn. rewrite Qp, Qi. split; [reflexivity|exact Hi].
  - match goal with
    | |- context [sync_all ?q0 ?cs true] =>
        destruct (sync_all q0 cs true) as [[cs' evs] [e|]]
    end; rewrite emit_all_emitted.
    + cbn. rewrite Qp. split; [reflexivity|lia].
    + destruct (playing p).
      * match goal with
        | |- context [startPlayback realElapsed ?q0] =>
            destruct (startPlayback_keeps realElapsed q0) as [K1 K2];
            [cbn; rewrite Qp; lia|]
        end.
        split; [rewrite K1; exact Qp|rewrite <- Qp; exact K2].
      * cbn. rewrite Qp. split; [reflexivity|lia].
Qed.

(** X21: the packet cursor never leaves the packet list. A player whose
    cursor is at most the number of loaded packets keeps it so, and keeps its
    packet list, through [playbackLoop], [startPlayback], [pausePlayback],
    [setPlaybackSpeed] and [seekToTime], also when one of them throws; so
    [getProgress()] never reports more than the total. *)
Theorem cursor_within_packets realElapsed speed t p :
  (packetIndex p <= length (packets p))%nat ->
  Forall (fun q => packets q = packets p /\
                   (packetIndex q <= length (packets p))%nat)
    [ state_of (playbackLoop realElapsed p);
      state_of (startPlayback realElapsed p);
      pausePlayback p;
      state_of (setPlaybackSpeed realElapsed speed p);
      state_of (seekToTime realElapsed t p) ].
Proof.
  intros Hi. destruct (pausePlayback_keeps p) as [Pp Pi].
  repeat (apply Forall_cons); [| | | | |apply Forall_nil].
  - apply (playbackLoop_keeps realElapsed p Hi).
  - apply (startPlayback_keeps realElapsed p Hi).
  - split; [exact Pp|rewrite Pi; exact Hi].
  - apply (setPlaybackSpeed_keeps realElapsed speed p Hi).
  - apply (seekToTime_keeps realElapsed t p Hi).
Qed.

Lemma cursor_within_packets_witness :
  let p := set_playing true (loaded (Some sample_metadata) sample_records) in
  (packetIndex p <= length (packets p))%nat /\
  Forall (fun q => packets q = packets p /\
                   (packetIndex q <= length (packets p))%nat)
    [ state_of (playbackLoop 100 p);
      state_of (startPlayback 100 p);
      pausePlayback p;
      state_of (setPlaybackSpeed 100 2 p);
      state_of (seekToTime 100 700 p) ].
Proof.
  intros p.
  assert (Hi : (packetIndex p <= length (packets p))%nat) by (cbn; lia).
  split; [exact Hi|].
  exact (cursor_within_packets 100 2 700 p Hi).
Defined.

(** *** The speed that is stored *)

Lemma clamp_speed_cases speed :
  match speed with
  | NaN => clamp_speed speed = NaN
  | _ => exists q, clamp_speed speed = Finite q /\ (tenth <= q <= 10)%Q
  end.
Proof.
  unfold clamp_speed, Math_max, Math_min, greater.
  destruct speed as [q| | |]; cbn [is_NaN orb].
  - destruct (Qcompare_spec 10 q) as [He|Hlt|Hgt].
    + exists 10%Q. split; [reflexivity|]. split; discriminate.
    + exists 10%Q. split; [reflexivity|]. split; discriminate.
    + cbn [is_NaN orb]. destruct (Qcompare_spec q tenth) as [He'|Hlt'|Hgt'].
      * exists tenth. split; [reflexivity|]. split; discriminate.
      * exists tenth. split; [reflexivity|]. split; discriminate.
      * exists q. split; [reflexivity|]. split; apply Qlt_le_weak; assumption.
  - reflexivity.
  - exists 10%Q. split; [reflexivity|]. split; discriminate.
  - exists tenth. split; [reflexivity|]. split; discriminate.
Qed.

(** X2: the speed [setPlaybackSpeed] stores. Whether the player was
    playing or not, and whether or not the turn of playback that a playing
    player resumes with throws, [playbackSpeed] is afterwards
    [Math.max(0.1, Math.min(10, speed))]: a number between 0.1 and 10 for
    every request that is a number or an infinity (a request below 0.1 gives
    0.1, one above 10 gives 10, any other is kept), and [NaN], outside these
    bounds, when the request is [NaN]. *)
Theorem setPlaybackSpeed_stores realElapsed speed p :
  let stored := playbackSpeed (state_of (setPlaybackSpeed realElapsed speed p)) in
  stored = clamp_speed speed /\
  match speed with
  | NaN => stored = NaN
  | _ => exists q, stored = Finite q /\ (tenth <= q <= 10)%Q
  end.
Proof.
  cbv zeta.
  assert (E : playbackSpeed (state_of (setPlaybackSpeed realElapsed speed p))
              = clamp_speed speed).
  { unfold setPlaybackSpeed. cbv zeta.
    destruct (playing p); [|reflexivity].
    match goal with
    | |- context [startPlayback realElapsed ?q] =>
        pose proof (startPlayback_fields realElapsed q) as K
    end.
    cbv zeta in K. destruct K as (_ & _ & K & _). rewrite K. reflexivity. }
  split; [exact E|]. rewrite E. apply clamp_speed_cases.
Qed.

(** *** Resynchronisation *)


(** A viewer that refuses the spawn records, with and without a listener. *)
Example syncClientToCurrentState_refusal :
  let p := set_projection
             (fst (apply_all 1000 (firstn 4 world_records) cleared))
             (loaded (Some sample_metadata) world_records) in
  let c := picky_viewer 2 "named_entity_spawn" in
  map written
    [fst (fst (syncClientToCurrentState p c true));
     fst (fst (syncClientToCurrentState (set_onError true p) c true))]
  = [switch_frames (Some sample_metadata) ++ map frame_of [chunk_record; bulk_record];
     switch_frames (Some sample_metadata) ++ map frame_of [chunk_record; bulk_record]] /\
  snd (syncClientToCurrentState p c true) = Some SinkError /\
  snd (syncClientToCurrentState (set_onError true p) c true) = None /\
  snd (fst (syncClientToCurrentState p c false))
  = [ErrorEvent SinkError "sync:named_entity_spawn"] /\
  map fst (written (fst (fst (syncClientToCurrentState p c false))))
  = ["map_chunk"; "map_chunk_bulk"]%string /\
  map fst (written (fst (fst (syncClientToCurrentState (set_onError true p) c false))))
  = ["map_chunk"; "map_chunk_bulk"; "chat"; "map_chunk"; "map_chunk_bulk"]%string.
Proof.
  repeat split; vm_compute; reflexivity.
Qed.

(** X23: a seek resynchronises every viewer. On a player that is not
    playing, a [seekToTime(t)] that returns has set the current time to the
    clamped target, emitted one ["playback:seek"] event with the time before
    the seek and the clamped target, and then resynchronised each connected
    viewer, entities cleared, from the projection the seek has rebuilt. *)
Theorem seekToTime_resyncs realElapsed t p p' :
  playing p = false ->
  seekToTime realElapsed t p = Returns p' ->
  currentTime p' = clamped t p /\
  clients p' = map (synced (metadata p) (projection p') true) (clients p) /\
  emitted p'
  = emitted p ++ [PlaybackSeek (currentTime p) (clamped t p)]
      ++ flat_map (sync_events (metadata p) (projection p') true) (clients p).
Proof.
  intros Hp Hret.
  pose proof (seekToTime_paused realElapsed t p Hp) as Hs.
  destruct (seek_scan (clamped t p) (packets p) 0 cleared) as [[index w] [e|]].
  - rewrite Hret in Hs. discriminate.
  - cbv zeta in Hs. rewrite Hret in Hs. cbn [state_of thrown] in Hs.
    destruct Hs as (Hw & _ & Ht & _ & Hc). destruct (Hc eq_refl) as [Hc1 Hc2].
    rewrite Hw. repeat split; assumption.
Qed.

Lemma seekToTime_resyncs_witness :
  let p := set_onError true
             (set_clients [viewer 1; picky_viewer 2 "map_chunk"]
                (loaded (Some sample_metadata) sample_records)) in
  let p' := state_of (seekToTime 0 1500 p) in
  playing p = false /\
  seekToTime 0 1500 p = Returns p' /\
  currentTime p' = clamped 1500 p /\
  clients p' = map (synced (metadata p) (projection p') true) (clients p) /\
  emitted p'
  = emitted p ++ [PlaybackSeek (currentTime p) (clamped 1500 p)]
      ++ flat_map (sync_events (metadata p) (projection p') true) (clients p) /\
  map written (clients p')
  = [switch_frames (Some sample_metadata) ++ [frame_of image_record];
     switch_frames (Some sample_metadata)] /\
  emitted p' = [PlaybackSeek 0 1500; ErrorEvent SinkError "sync:map_chunk"].
Proof.
  intros p p'.
  assert (E : seekToTime 0 1500 p = Returns p') by (vm_compute; reflexivity).
  split; [reflexivity|]. split; [exact E|].
  destruct (seekToTime_resyncs 0 1500 p p' eq_refl E) as (H1 & H2 & H3).
  split; [exact H1|]. split; [exact H2|]. split; [exact H3|].
  split; vm_compute; reflexivity.
Defined.

(** *** The projection in closed form *)

Lemma state_list_push key r w n :
  state_list (set_worldState (push_state key r (worldState w)) w) n
  = state_list w n ++ (if String.eqb key n then [r] else []).
Proof.
  unfold state_list, push_state, map_has. cbn [worldState set_worldState].
  destruct (map_get (worldState w) key) as [l|] eqn:E.
  - rewrite E, map_get_set. destruct (String.eqb_spec key n) as [->|Hne].
    + rewrite E. reflexivity.
    + rewrite app_nil_r. reflexivity.
  - rewrite map_get_set_same, !map_get_set.
    destruct (String.eqb_spec key n) as [->|Hne].
    + rewrite E. reflexivity.
    + rewrite app_nil_r. reflexivity.
Qed.

(** What one tracked record adds to the logs and to the chunk map. *)
Lemma trackWorldStatePacket_logs r w w' :
  trackWorldStatePacket r w = Ok w' ->
  (forall n, state_list w' n
             = state_list w n ++ (if String.eqb (name r) n && logged n then [r] else [])) /\
  chunkMap w'
  = match chunk_key r with
    | Some k => map_set k r (chunkMap w)
    | None => chunkMap w
    end.
Proof.
  unfold trackWorldStatePacket. intros H.
  apply bind_Ok in H. destruct H as [w1 [H1 H]].
  apply bind_Ok in H. destruct H as [w2 [H2 H3]].
  assert (S1 : worldState w1 = worldState w /\ chunkMap w1 = chunkMap w).
  { split; finish_stage H1. }
  assert (S2 : (forall n, state_list w2 n
                  = state_list w1 n
                    ++ (if String.eqb (name r) "map_chunk_bulk"
                           && String.eqb "map_chunk_bulk" n then [r] else [])) /\
               chunkMap w2
               = match chunk_key r with
                 | Some k => map_set k r (chunkMap w1)
                 | None => chunkMap w1
                 end).
  { unfold chunk_key.
    destruct (String.eqb_spec (name r) "map_chunk") as [Hn|Hn].
    - rewrite Hn. cbn [String.eqb Ascii.eqb Bool.eqb andb].
      split; [intros n; rewrite app_nil_r|];
        repeat (first [discriminate | case_head H2]); try discriminate;
        inversion H2; reflexivity.
    - destruct (String.eqb (name r) "map_chunk_bulk"); cbn [andb]; inversion H2.
      + split; [intros n; apply state_list_push|reflexivity].
      + split; [intros n; rewrite app_nil_r|]; reflexivity. }
  assert (S3 : (forall n, state_list w' n
                  = state_list w2 n
                    ++ (if existsb (String.eqb (name r)) statePacketTypes
                           && String.eqb (name r) n then [r] else [])) /\
               chunkMap w' = chunkMap w2).
  { destruct (existsb (String.eqb (name r)) statePacketTypes); cbn [andb];
      inversion H3.
    - split; [intros n; apply state_list_push|reflexivity].
    - split; [intros n; rewrite app_nil_r|]; reflexivity. }
  destruct S1 as [W1 C1], S2 as [W2 C2], S3 as [W3 C3].
  split; [|rewrite C3, C2, C1; reflexivity].
  intros n. rewrite W3, W2. unfold state_list at 1. rewrite W1.
  fold (state_list w n). rewrite <- app_assoc. f_equal.
  unfold logged.
  destruct (String.eqb_spec (name r) n) as [<-|Hne].
  - rewrite (String.eqb_sym "map_chunk_bulk" (name r)).
    destruct (String.eqb_spec (name r) "map_chunk_bulk") as [E|E].
    + rewrite E. reflexivity.
    + cbn [andb orb app]. rewrite andb_true_r.
      destruct (existsb (String.eqb (name r)) statePacketTypes); reflexivity.
  - rewrite andb_false_r. cbn [andb]. rewrite app_nil_r.
    destruct (String.eqb_spec (name r) "map_chunk_bulk") as [E|E]; cbn [andb];
      [|reflexivity].
    destruct (String.eqb_spec "map_chunk_bulk" n) as [En|En]; [congruence|reflexivity].
Qed.

(** X24: the per-name logs in closed form. After the records of a list have
    been tracked, in order and without an error, the log kept under a name
    holds what it held before followed by exactly the records of that name,
    in the order of the list, for the five names that are logged
    ([map_chunk_bulk], [named_entity_spawn], [spawn_entity_living],
    [spawn_entity], [player_info]); under any other name nothing is added.
    No record is ever taken out of a log: an [entity_destroy] does not remove
    the spawn record of the entity. *)
Theorem logs_hold_records_by_name records : forall w0 w n,
  track_all records w0 = Ok w ->
  state_list w n
  = state_list w0 n
      ++ (if logged n then filter (fun r => String.eqb (name r) n) records else []).
Proof.
  induction records as [|r records IH]; intros w0 w n H; cbn [track_all] in H.
  - inversion H; subst. cbn [filter]. destruct (logged n); rewrite app_nil_r; reflexivity.
  - apply bind_Ok in H. destruct H as [w1 [H1 H]].
    rewrite (IH _ _ n H).
    destruct (trackWorldStatePacket_logs _ _ _ H1) as [L _].
    rewrite L, <- app_assoc. f_equal. cbn [filter].
    destruct (String.eqb (name r) n); cbn [andb]; [|reflexivity].
    destruct (logged n); reflexivity.
Qed.

Lemma logs_hold_records_by_name_witness :
  let records := [spawn_record;
                  {| timestamp := 1800; name := "entity_destroy";
                     data := VObj [("entityIds", VArr [VNum 7])] |};
                  player_info_record] in
  exists w,
    track_all records cleared = Ok w /\
    activeEntityIds w = [] /\
    state_list w "named_entity_spawn"
    = state_list cleared "named_entity_spawn"
        ++ (if logged "named_entity_spawn"
            then filter (fun r => String.eqb (name r) "named_entity_spawn") records
            else []) /\
    state_list w "named_entity_spawn" = [spawn_record].
Proof.
  intros records. eexists. split; [reflexivity|]. split; [reflexivity|].
  split; [|reflexivity].
  exact (logs_hold_records_by_name records cleared _ "named_entity_spawn" eq_refl).
Defined.

Lemma find_snoc {A : Type} (f : A -> bool) l x :
  find f (l ++ [x])
  = match find f l with
    | Some y => Some y
    | None => if f x then Some x else None
    end.
Proof.
  induction l as [|a l IH]; cbn [app find]; [reflexivity|].
  destruct (f a); [reflexivity|exact IH].
Qed.

Lemma map_set_key_in {V : Type} k (v : V) m a :
  In a (map fst (map_set k v m)) -> a = k \/ In a (map fst m).
Proof.
  induction m as [|[j w] m IH]; cbn [map_set map fst In].
  - intros [E|[]]; auto.
  - destruct (String.eqb_spec j k) as [->|Hne]; cbn [map fst In].
    + intros [E|Hi]; auto.
    + intros [E|Hi]; auto. destruct (IH Hi); auto.
Qed.

Lemma map_set_keys {V : Type} k (v : V) m :
  NoDup (map fst m) -> NoDup (map fst (map_set k v m)).
Proof.
  induction m as [|[j w] m IH]; intros Hn; cbn [map_set map fst].
  - constructor; [intros []|constructor].
  - inversion Hn as [|? ? Hj Hm]; subst.
    destruct (String.eqb_spec j k) as [->|Hne]; cbn [map fst].
    + constructor; assumption.
    + constructor; [|apply IH; exact Hm].
      intros Hi. destruct (map_set_key_in _ _ _ _ Hi) as [E|Hi']; [congruence|].
      apply Hj. exact Hi'.
Qed.

Lemma trackWorldStatePacket_chunk_keys r w w' :
  trackWorldStatePacket r w = Ok w' ->
  NoDup (map fst (chunkMap w)) -> NoDup (map fst (chunkMap w')).
Proof.
  intros H Hn. destruct (trackWorldStatePacket_logs _ _ _ H) as [_ C].
  rewrite C. destruct (chunk_key r); [apply map_set_keys|]; exact Hn.
Qed.

(** X25: the chunk map in closed form. After the records of a list have been
    tracked from the empty projection, in order and without an error, the
    chunk map holds, under each coordinate key, the last [map_chunk] record
    of the list with that key (a later chunk replaces an earlier one at the
    same coordinates) and nothing under a key no record has; no key occurs
    twice, so a resynchronisation sends one chunk record per coordinate. *)
Theorem chunkMap_keeps_latest records w k :
  track_all records cleared = Ok w ->
  map_get (chunkMap w) k = find (has_chunk_key k) (rev records) /\
  NoDup (map fst (chunkMap w)).
Proof.
  assert (G : forall records w0 w,
    track_all records w0 = Ok w ->
    map_get (chunkMap w) k
    = match find (has_chunk_key k) (rev records) with
      | Some r => Some r
      | None => map_get (chunkMap w0) k
      end /\
    (NoDup (map fst (chunkMap w0)) -> NoDup (map fst (chunkMap w)))).
  { clear. induction records as [|r records IH]; intros w0 w H; cbn [track_all] in H.
    - inversion H; subst. split; [reflexivity|auto].
    - apply bind_Ok in H. destruct H as [w1 [H1 H]].
      destruct (IH _ _ H) as [IH1 IH2].
      split; [|intros Hn; apply IH2;
                apply (trackWorldStatePacket_chunk_keys _ _ _ H1 Hn)].
      rewrite IH1. cbn [rev]. rewrite find_snoc.
      destruct (find (has_chunk_key k) (rev records)); [reflexivity|].
      destruct (trackWorldStatePacket_logs _ _ _ H1) as [_ C]. rewrite C.
      unfold has_chunk_key. destruct (chunk_key r) as [k'|]; [|reflexivity].
      rewrite map_get_set. destruct (String.eqb k' k); reflexivity. }
  intros H. destruct (G records cleared w H) as [G1 G2].
  split; [|apply G2; constructor].
  rewrite G1. destruct (find _ _); reflexivity.
Qed.

Lemma chunkMap_keeps_latest_witness :
  let older := {| timestamp := 10; name := "map_chunk";
                  data := VObj [("x", VNum 0); ("z", VNum (-1)); ("v", VNum 1)] |} in
  let records := [older; chat_record; image_record] in
  exists w,
    track_all records cleared = Ok w /\
    map_get (chunkMap w) "0,-1" = find (has_chunk_key "0,-1") (rev records) /\
    NoDup (map fst (chunkMap w)) /\
    map_get (chunkMap w) "0,-1" = Some image_record.
Proof.
  intros older records. eexists. split; [reflexivity|].
  destruct (chunkMap_keeps_latest records _ "0,-1" eq_refl) as [H1 H2].
  split; [exact H1|]. split; [exact H2|]. reflexivity.
Defined.

(** *** Turns of playback that throw *)

Import FailingSamples.

Ltac same_error := let H := fresh "H" in intros H; exact H.

Ltac chunk_stage r :=
  destruct (String.eqb (name r) "map_chunk");
    [ destruct (get_prop (data r) "x") as [?x|?e]; cbn [bind]; [|same_error];
      match goal with
      | |- context [is_undefined ?x] =>
          destruct (is_undefined x); cbn [bind];
            [destruct (existsb _ _); discriminate|]
      end;
      destruct (get_prop (data r) "z") as [?z|?e]; cbn [bind]; [|same_error];
      match goal with
      | |- context [is_undefined ?z] =>
          destruct (is_undefined z); cbn [bind];
            [destruct (existsb _ _); discriminate|]
      end;
      repeat match goal with
             | |- context [js_to_string ?v] =>
                 destruct (js_to_string v) as [?s|?e]; cbn [bind]; [|same_error]
             end;
      destruct (existsb _ _); discriminate
    | destruct (String.eqb (name r) "map_chunk_bulk"); cbn [bind];
      destruct (existsb _ _); discriminate ].

(** Whether tracking a record throws, and what, does not depend on the
    projection. *)
Lemma trackWorldStatePacket_throws_anywhere r w1 w2 err :
  trackWorldStatePacket r w1 = Throw err -> trackWorldStatePacket r w2 = Throw err.
Proof.
  unfold trackWorldStatePacket.
  destruct (is_spawn (name r)).
  - destruct (get_prop (data r) "entityId") as [entityId|e]; cbn [bind];
      [|same_error].
    destruct (is_undefined entityId); cbn [bind]; chunk_stage r.
  - destruct (String.eqb (name r) "entity_destroy"); cbn [bind]; [|chunk_stage r].
    destruct (get_prop (data r) "entityIds") as [entityIds|e]; cbn [bind];
      [|same_error].
    destruct entityIds; cbn [bind]; chunk_stage r.
Qed.

Lemma forallb_encoders r cs : forall cs',
  map write_throws cs = map write_throws cs' ->
  forallb (fun c => accepts c r) cs = forallb (fun c => accepts c r) cs'.
Proof.
  induction cs as [|c cs IH]; intros [|c' cs'] E; cbn [map] in E;
    try discriminate; [reflexivity|].
  inversion E as [[Ec Et]]. cbn [forallb]. rewrite (IH _ Et).
  unfold accepts, takes. rewrite Ec. reflexivity.
Qed.

(** Why [replayPacket] throws: tracking the record throws, or a viewer
    refuses it and nobody listens. *)
Lemma replayPacket_throws r p err q :
  replayPacket r p = Throws err q ->
  (forall w, trackWorldStatePacket r w = Throw err) \/
  (onError p = false /\ err = SinkError /\
   forallb (fun c => accepts c r) (clients p) = false /\
   forall w e, trackWorldStatePacket r w <> Throw e).
Proof.
  unfold replayPacket, replay_projection.
  destruct (trackWorldStatePacket r (push_recent (maxRecentPackets p) r (projection p)))
    as [w'|e] eqn:Et.
  - cbn [clients onError set_projection].
    pose proof (broadcast_thrown (onError p) r (clients p)) as T.
    destruct (broadcast (onError p) r (clients p)) as [[cs evs] [e|]];
      cbn [snd] in T; [|discriminate].
    intros E. inversion E; subst e q. right.
    destruct (onError p); [discriminate|]. cbn [orb] in T.
    destruct (forallb (fun c => accepts c r) (clients p)); [discriminate|].
    inversion T. repeat split.
    intros w e Hw.
    rewrite (trackWorldStatePacket_throws_anywhere _ _ _ _ Hw) in Et. discriminate.
  - intros E. inversion E; subst. left.
    intros w. apply (trackWorldStatePacket_throws_anywhere _ _ _ _ Et).
Qed.

(** The loop of a turn that throws: where it stops, and why. *)
Lemma playback_while_throws rest : forall processed p err b q,
  playback_while rest processed p = Throws err (b, q) ->
  exists r,
    nth_error rest (packetIndex q - packetIndex p) = Some r /\
    greater (timestamp r) (currentTime p) = false /\
    ((forall w, trackWorldStatePacket r w = Throw err) \/
     (onError p = false /\ err = SinkError /\
      forallb (fun c => accepts c r) (clients p) = false /\
      forall w e, trackWorldStatePacket r w <> Throw e)).
Proof.
  induction rest as [|r rest IH]; intros processed p err b q; cbn [playback_while].
  - discriminate.
  - destruct (greater (timestamp r) (currentTime p)) eqn:Hle; [discriminate|].
    pose proof (replayPacket_fields r p) as K. cbv zeta in K.
    destruct (replayPacket r p) as [p1|e p1] eqn:Er; cbn [state_of] in K;
      destruct K as (K1 & K2 & K3 & K4 & K5 & K6 & K7 & K8).
    + intros H.
      pose proof (playback_while_fields rest true (set_packetIndex (S (packetIndex p1)) p1))
        as F.
      rewrite H in F. cbv zeta in F. cbn [state_of snd packetIndex set_packetIndex] in F.
      destruct F as (_ & F2 & _).
      apply IH in H.
      cbn [currentTime onError clients packetIndex set_packetIndex] in H.
      destruct H as (r' & Hn & Ht & Hw).
      rewrite K2 in Hn, F2. rewrite K4 in Ht. rewrite K7 in Hw.
      rewrite (forallb_encoders r' _ _ K8) in Hw.
      exists r'. split; [|split; assumption].
      replace (packetIndex q - packetIndex p)%nat
        with (S (packetIndex q - S (packetIndex p))) by lia.
      exact Hn.
    + intros H. inversion H; subst e b q.
      exists r. rewrite K2, Nat.sub_diag. split; [reflexivity|]. split; [exact Hle|].
      apply (replayPacket_throws _ _ _ _ Er).
Qed.

Lemma nth_error_skipn {A : Type} (l : list A) : forall i j,
  nth_error (skipn i l) j = nth_error l (i + j).
Proof.
  induction l as [|a l IH]; intros [|i] j; cbn [skipn nth_error Nat.add];
    try reflexivity.
  - destruct j; reflexivity.
  - apply IH.
Qed.

Lemma skipn_nth_error {A : Type} (l : list A) : forall i r,
  nth_error l i = Some r -> skipn i l = r :: skipn (S i) l.
Proof.
  induction l as [|a l IH]; intros [|i] r; cbn [nth_error skipn]; try discriminate.
  - intros E. inversion E. reflexivity.
  - intros E. rewrite (IH i r E). reflexivity.
Qed.

(** X26: a turn of playback that throws blocks playback. A turn throws for
    one of two reasons, at a record that has come due: tracking the record
    throws (as it does on a spawn record whose data is [null]), or a viewer's
    encoder refuses the record while no listener is registered for ["error"],
    so that [emit] throws the error it is given. Either way the cursor is
    left on that record and [playing] stays set, so [startPlayback] does
    nothing, and every later turn throws the same error at the same record
    again: playback does not get past it. *)
Theorem thrown_turn_blocks_playback realElapsed p err q :
  playing p = true ->
  playbackLoop realElapsed p = Throws err q ->
  playing q = true /\
  (forall later, startPlayback later q = Returns q) /\
  exists r,
    nth_error (packets q) (packetIndex q) = Some r /\
    greater (timestamp r) realElapsed = false /\
    ((forall w, trackWorldStatePacket r w = Throw err) \/
     (onError p = false /\ err = SinkError /\
      forallb (fun c => accepts c r) (clients p) = false)) /\
    forall later,
      greater (timestamp r) later = false ->
      thrown (playbackLoop later q) = Some err.
Proof.
  intros Hp. unfold playbackLoop at 1. rewrite Hp. cbn [negb]. cbv zeta.
  cbn [packetIndex packets set_currentTime].
  pose proof (playback_while_fields (skipn (packetIndex p) (packets p)) false
                (set_currentTime realElapsed p)) as F.
  destruct (playback_while _ false _) as [[processed p1]|e [processed p1]] eqn:Ew.
  - destruct (processed && _); destruct (_ <=? _)%nat; discriminate.
  - intros E. inversion E; subst e p1. clear E.
    cbv zeta in F.
    cbn [state_of snd packets packetIndex playing currentTime onError clients
         set_currentTime] in F.
    destruct F as (F1 & F2 & F3 & _ & _ & _ & F7 & F8).
    apply playback_while_throws in Ew.
    cbn [currentTime onError clients packetIndex set_currentTime] in Ew.
    destruct Ew as (r & Hn & Ht & Hw).
    rewrite Hp in F3.
    rewrite nth_error_skipn in Hn.
    replace (packetIndex p + (packetIndex q - packetIndex p))%nat
      with (packetIndex q) in Hn by lia.
    rewrite <- F1 in Hn.
    split; [exact F3|].
    split; [intros later; unfold startPlayback; rewrite F3; reflexivity|].
    exists r. split; [exact Hn|]. split; [exact Ht|]. split.
    { destruct Hw as [Hw|(H1 & H2 & H3 & _)]; [left; exact Hw|right; auto]. }
    intros later Hl. unfold playbackLoop. rewrite F3. cbn [negb]. cbv zeta.
    cbn [packetIndex packets set_currentTime].
    rewrite (skipn_nth_error _ _ _ Hn).
    cbn [playback_while currentTime set_currentTime]. rewrite Hl.
    unfold replayPacket, replay_projection.
    cbn [maxRecentPackets projection set_currentTime].
    destruct Hw as [Hw|(H1 & H2 & H3 & H4)].
    + rewrite Hw. reflexivity.
    + destruct (trackWorldStatePacket r _) as [w'|e] eqn:Et;
        [|exfalso; apply (H4 _ _ Et)].
      cbn [clients onError set_projection set_currentTime].
      pose proof (broadcast_thrown (onError q) r (clients q)) as T.
      rewrite F7, H1, (forallb_encoders r _ _ F8), H3 in T. cbn [orb] in T.
      rewrite F7, H1.
      destruct (broadcast false r (clients q)) as [[cs evs] thrown].
      cbn [snd] in T. subst thrown err. reflexivity.
Qed.

Lemma thrown_turn_blocks_playback_witness :
  let p := set_clients [viewer 1; picky_viewer 2 "map_chunk"; viewer 3]
             (set_playing true (loaded (Some sample_metadata) world_records)) in
  let q := state_of (playbackLoop 2000 p) in
  let p0 := set_playing true
              (loaded (Some sample_metadata) [chat_record; null_spawn_record]) in
  playing p = true /\
  playbackLoop 2000 p = Throws SinkError q /\
  nth_error (packets q) (packetIndex q) = Some chunk_record /\
  map (fun c => map fst (written c)) (clients q)
  = [["chat"; "map_chunk"]; ["chat"]; ["chat"]]%string /\
  (playing q = true /\
   (forall later, startPlayback later q = Returns q) /\
   exists r,
     nth_error (packets q) (packetIndex q) = Some r /\
     greater (timestamp r) 2000 = false /\
     ((forall w, trackWorldStatePacket r w = Throw SinkError) \/
      (onError p = false /\ SinkError = SinkError /\
       forallb (fun c => accepts c r) (clients p) = false)) /\
     forall later,
       greater (timestamp r) later = false ->
       thrown (playbackLoop later q) = Some SinkError) /\
  playing p0 = true /\
  playbackLoop 2000 p0 = Throws TypeError (state_of (playbackLoop 2000 p0)) /\
  packetIndex (state_of (playbackLoop 2000 p0)) = 1%nat.
Proof.
  intros p q p0.
  assert (E : playbackLoop 2000 p = Throws SinkError q) by (vm_compute; reflexivity).
  split; [reflexivity|]. split; [exact E|].
  split; [vm_compute; reflexivity|]. split; [vm_compute; reflexivity|].
  split; [exact (thrown_turn_blocks_playback 2000 p SinkError q eq_refl E)|].
  split; [reflexivity|]. split; vm_compute; reflexivity.
Defined.

(** ** The recorder *)

Import ReplayRecorder RecorderSpec.

Lemma lookup_name_In table n :
  lookup_name table n <> None <-> In n (map fst table).
Proof.
  induction table as [|[a id] table IH]; cbn [lookup_name map fst In].
  - split; [intros H; apply H; reflexivity|intros []].
  - change (lookup_name ((a, id) :: table) n)
      with (if String.eqb a n then Some id else lookup_name table n).
    destruct (String.eqb_spec a n) as [->|Hne].
    + split; [auto|discriminate].
    + rewrite IH. split; [auto|intros [E|H]; [congruence|exact H]].
Qed.

Lemma captured_iff_known n :
  existsb (String.eqb n) capturedPackets = true <-> lookup_name PACKET_IDS n <> None.
Proof.
  rewrite existsb_eqb_In, lookup_name_In.
  unfold capturedPackets, PACKET_IDS. cbn [map fst In]. tauto.
Qed.

(** X27: the recorder captures exactly the packets that have an id. A packet
    name is in [capturedPackets] if and only if [PACKET_IDS] has an id for it,
    so a [writePacket] of the recorder never fails with "Unknown packet
    name". *)
Theorem captured_names_have_ids n :
  existsb (String.eqb n) capturedPackets = true <-> lookup_name PACKET_IDS n <> None.
Proof. apply captured_iff_known. Qed.

Lemma written_by_snoc encode mode callback records r :
  state_of (writer_writePacket encode r (written_by encode mode callback records))
  = written_by encode mode callback (records ++ [r]).
Proof.
  unfold written_by. rewrite map_app. cbn [map].
  destruct mode; cbn [writer_writePacket];
    rewrite app_comm_cons, fold_left_app; cbn [fold_left FW.perform MW.perform];
    match goal with
    | |- context [FW.writePacket encode r ?w] => destruct (FW.writePacket encode r w)
    | |- context [MW.writePacket encode r ?w] => destruct (MW.writePacket encode r w)
    end; reflexivity.
Qed.

Lemma push_and_write_recording encode mode callback replayName metadata records
  spawned r :
  push_and_write encode r
    (recording_state encode mode callback replayName metadata records spawned)
  = recording_state encode mode callback replayName metadata (records ++ [r]) spawned.
Proof.
  unfold push_and_write, recording_state.
  cbn [saveMode onPacketCallback recording startTime currentReplayId
       ReplayRecorder.packets binaryWriter replayMetadata spawnPositionSet
       botEntitySpawned].
  rewrite written_by_snoc. reflexivity.
Qed.

Lemma onSpawn_recording encode mode callback replayName metadata records now
  entityId uuid position :
  onSpawn encode now entityId uuid position
    (recording_state encode mode callback replayName metadata records false)
  = recording_state encode mode callback replayName (with_spawn position metadata)
      (records ++ [botSpawnPacket (now - Format.startTime metadata) entityId uuid
                     position])
      true.
Proof.
  unfold onSpawn, recording_state, push_and_write, with_spawn.
  cbn [saveMode onPacketCallback recording startTime currentReplayId
       ReplayRecorder.packets binaryWriter replayMetadata spawnPositionSet
       botEntitySpawned Format.startTime].
  rewrite written_by_snoc. reflexivity.
Qed.

(** The recorder after the inputs of a recording. *)
Lemma feed_all encode mode callback replayName inputs :
  forall metadata records spawned,
  fold_left (feed encode) inputs
    (recording_state encode mode callback replayName metadata records spawned)
  = recording_state encode mode callback replayName
      (if spawned then metadata
       else match spawn_position inputs with
            | Some position => with_spawn position metadata
            | None => metadata
            end)
      (records ++ captured (Format.startTime metadata) spawned inputs)
      (spawned || match spawn_position inputs with Some _ => true | None => false end).
Proof.
  induction inputs as [|[now n d|now entityId uuid position] inputs IH];
    intros metadata records spawned; cbn [fold_left feed captured spawn_position].
  - rewrite app_nil_r, orb_false_r. destruct spawned; reflexivity.
  - unfold onPacket. cbn [recording recording_state negb startTime].
    destruct (existsb (String.eqb n) capturedPackets); cbn [negb].
    + rewrite push_and_write_recording, IH, <- app_assoc. reflexivity.
    + apply IH.
  - destruct spawned.
    + unfold onSpawn. cbn [replayMetadata spawnPositionSet recording_state].
      rewrite IH. reflexivity.
    + rewrite onSpawn_recording, IH, <- app_assoc. cbn [orb]. reflexivity.
Qed.

Lemma startRecording_fresh (encode : Payload.value -> list Z) mode callback replayName
  now username version :
  startRecording replayName now username version (create mode callback)
  = Returns
      (recording_state encode mode callback replayName
         {| spawnPosition := (0, 0, 0); Format.startTime := now; endTime := now;
            botUsername := or_unknown username; mcVersion := or_unknown version |}
         [] false).
Proof. destruct mode; reflexivity. Qed.

Lemma fw_session_state encode metadata calls : forall w,
  snd (FW.session encode calls metadata w)
  = state_of (FW.close encode metadata
                (fold_left (fun w c => state_of (FW.perform encode c w)) calls w)).
Proof.
  induction calls as [|c calls IH]; intros w; cbn [FW.session fold_left].
  - reflexivity.
  - rewrite <- IH. destruct (FW.session encode calls metadata _). reflexivity.
Qed.

Lemma mw_session_state encode metadata calls : forall m,
  snd (MW.session encode calls metadata m)
  = state_of (MW.close encode metadata
                (fold_left (fun m c => state_of (MW.perform encode c m)) calls m)).
Proof.
  induction calls as [|c calls IH]; intros m; cbn [MW.session fold_left].
  - reflexivity.
  - rewrite <- IH. destruct (MW.session encode calls metadata _). reflexivity.
Qed.

Lemma writer_close_session encode mode callback records metadata :
  Z.of_nat (length (encode (metadata_value metadata))) <= 0xFFFFFFFF ->
  writer_close encode metadata (written_by encode mode callback records)
  = Returns (session_writer encode mode callback records metadata).
Proof.
  intros Hm. unfold written_by, session_writer.
  destruct mode; cbn [writer_close];
    rewrite ?fw_session_state, ?mw_session_state;
    unfold FW.close, MW.close; rewrite writeUInt32LE_u32le by lia; reflexivity.
Qed.

Lemma session_writer_output encode mode callback records metadata :
  output (session_writer encode mode callback records metadata)
  = recorded encode records metadata /\
  delivered (session_writer encode mode callback records metadata)
  = match mode with
    | FileMode => []
    | MemoryMode | StreamMode =>
        if callback then recorded encode records metadata else []
    end.
Proof.
  unfold recorded, recording.
  pose proof (session_same encode metadata (WriteHeader :: map WritePacket records)
                _ _ (create_same callback)) as [_ Hb].
  assert (Hs : MW.streamed
                 (snd (MW.session encode (WriteHeader :: map WritePacket records)
                         metadata (MW.create callback)))
               = if callback
                 then FW.file_bytes
                        (snd (FW.session encode (WriteHeader :: map WritePacket records)
                                metadata FW.create))
                 else []).
  { destruct callback.
    - rewrite Hb. apply session_in_step. exists []. split; reflexivity.
    - clear Hb. unfold MW.streamed.
      assert (G : forall calls m, MW.onPacketCallback m = None ->
                    MW.onPacketCallback (snd (MW.session encode calls metadata m)) = None).
      { induction calls as [|c calls IH]; intros m Hm; cbn [MW.session].
        - unfold MW.close. destruct (writeUInt32LE _); cbn; rewrite ?Hm; reflexivity.
        - specialize (IH (state_of (MW.perform encode c m))).
          destruct (MW.session encode calls metadata _) as [errors mf].
          cbn [snd] in *. apply IH.
          destruct c as [|r]; cbn [MW.perform].
          + unfold MW.writeHeader. destruct (MW.headerWritten m); cbn; rewrite ?Hm;
              reflexivity.
          + unfold MW.writePacket. destruct (MW.headerWritten m); cbn [negb];
              [|exact Hm].
            destruct (packet_id_of (name r)); [|exact Hm].
            cbv zeta. destruct (serializeData (data r)); cbn [state_of];
              [destruct (writeUInt32LE _); cbn [state_of]|];
              cbn; rewrite ?Hm; reflexivity. }
      rewrite G; reflexivity. }
  destruct mode; cbn [session_writer output delivered]; split;
    first [reflexivity | symmetry; exact Hb | exact Hs].
Qed.

Lemma recording_session encode mode callback replayName now0 username version
  inputs now1 :
  let metadata := closing_metadata now0 now1 username version inputs in
  let records := captured now0 false inputs in
  Z.of_nat (length (encode (metadata_value metadata))) <= 0xFFFFFFFF ->
  exists r1 s,
    startRecording replayName now0 username version (create mode callback)
    = Returns r1 /\
    ReplayRecorder.packets (fold_left (feed encode) inputs r1) = records /\
    stopRecording encode now1 (fold_left (feed encode) inputs r1) = Returns s /\
    closed s = Some (session_writer encode mode callback records metadata) /\
    output (session_writer encode mode callback records metadata)
    = recorded encode records metadata /\
    delivered (session_writer encode mode callback records metadata)
    = match mode with
      | FileMode => []
      | MemoryMode | StreamMode =>
          if callback then recorded encode records metadata else []
      end /\
    result s
    = match mode with
      | MemoryMode =>
          Some {| recording_metadata := metadata;
                  buffer := recorded encode records metadata |}
      | FileMode | StreamMode => None
      end /\
    recorder s
    = {| saveMode := mode; onPacketCallback := callback; recording := false;
         startTime := now0; currentReplayId := replayName;
         ReplayRecorder.packets := []; binaryWriter := None;
         replayMetadata := None; spawnPositionSet := false;
         botEntitySpawned := false |}.
Proof.
  intros metadata records Hm.
  rewrite (startRecording_fresh encode).
  eexists. eexists. split; [reflexivity|].
  rewrite feed_all. cbn [app orb Format.startTime].
  split; [reflexivity|].
  destruct (session_writer_output encode mode callback records metadata) as [Ho Hd].
  assert (Em : with_end now1
                 (match spawn_position inputs with
                  | Some position =>
                      with_spawn position
                        {| spawnPosition := (0, 0, 0); Format.startTime := now0;
                           endTime := now0; botUsername := or_unknown username;
                           mcVersion := or_unknown version |}
                  | None =>
                      {| spawnPosition := (0, 0, 0); Format.startTime := now0;
                         endTime := now0; botUsername := or_unknown username;
                         mcVersion := or_unknown version |}
                  end) = metadata).
  { subst metadata. unfold closing_metadata, with_end, with_spawn.
    destruct (spawn_position inputs); reflexivity. }
  unfold stopRecording, recording_state.
  cbn [recording negb binaryWriter replayMetadata saveMode onPacketCallback
       startTime currentReplayId].
  fold (with_end now1
          (match spawn_position inputs with
           | Some position =>
               with_spawn position
                 {| spawnPosition := (0, 0, 0); Format.startTime := now0;
                    endTime := now0; botUsername := or_unknown username;
                    mcVersion := or_unknown version |}
           | None =>
               {| spawnPosition := (0, 0, 0); Format.startTime := now0;
                  endTime := now0; botUsername := or_unknown username;
                  mcVersion := or_unknown version |}
           end)).
  rewrite Em. fold records.
  rewrite (writer_close_session encode mode callback records metadata Hm).
  split; [reflexivity|]. cbn [closed result recorder].
  split; [reflexivity|]. split; [exact Ho|]. split; [exact Hd|].
  split.
  - destruct mode; cbn [session_writer]; try reflexivity.
    cbn [output session_writer] in Ho. rewrite Ho. reflexivity.
  - f_equal. destruct (spawn_position inputs); reflexivity.
Qed.

(** X28: a recording is a writer session. From a new recorder,
    [startRecording], then any packets of the client and spawns of the bot,
    then [stopRecording]: the recorder has handed its writer [writeHeader],
    one [writePacket] for each packet with a captured name (stamped with the
    clock reading minus the start time) and for the bot's own spawn at its
    first spawn event, in the order they came, and [close] with the metadata
    (the position of the first spawn, the stop time as [endTime]). The file
    of a file-mode recording, the buffer a memory-mode recording returns and
    the chunks handed to the callback are the bytes of that session. *)
Theorem recording_is_a_session encode mode callback replayName now0 username version
  inputs now1 :
  let metadata := closing_metadata now0 now1 username version inputs in
  let records := captured now0 false inputs in
  Z.of_nat (length (encode (metadata_value metadata))) <= 0xFFFFFFFF ->
  exists r1 s,
    startRecording replayName now0 username version (create mode callback)
    = Returns r1 /\
    ReplayRecorder.packets (fold_left (feed encode) inputs r1) = records /\
    stopRecording encode now1 (fold_left (feed encode) inputs r1) = Returns s /\
    closed s = Some (session_writer encode mode callback records metadata) /\
    output (session_writer encode mode callback records metadata)
    = recorded encode records metadata /\
    delivered (session_writer encode mode callback records metadata)
    = match mode with
      | FileMode => []
      | MemoryMode | StreamMode =>
          if callback then recorded encode records metadata else []
      end /\
    result s
    = match mode with
      | MemoryMode =>
          Some {| recording_metadata := metadata;
                  buffer := recorded encode records metadata |}
      | FileMode | StreamMode => None
      end /\
    recorder s
    = {| saveMode := mode; onPacketCallback := callback; recording := false;
         startTime := now0; currentReplayId := replayName;
         ReplayRecorder.packets := []; binaryWriter := None;
         replayMetadata := None; spawnPositionSet := false;
         botEntitySpawned := false |}.
Proof. apply recording_session. Qed.

Lemma recording_is_a_session_witness :
  let inputs :=
    [Packet 1000 "chat" (VObj [("msg", VStr "hi")]);
     Packet 1100 "keep_alive" (VObj []);
     Spawn 1200 7 "uuid" (1, 64, -3);
     Packet 2500 "block_change" (VObj [("x", VNum 1)]);
     Spawn 2600 7 "uuid" (8, 8, 8)] in
  let metadata := closing_metadata 1000 3000 (Some "bot") None inputs in
  let records := captured 1000 false inputs in
  Z.of_nat (length (SampleCodec.encode (metadata_value metadata))) <= 0xFFFFFFFF /\
  exists r1 s,
    startRecording "demo" 1000 (Some "bot") None (create MemoryMode true)
    = Returns r1 /\
    ReplayRecorder.packets (fold_left (feed SampleCodec.encode) inputs r1) = records /\
    stopRecording SampleCodec.encode 3000
      (fold_left (feed SampleCodec.encode) inputs r1) = Returns s /\
    closed s = Some (session_writer SampleCodec.encode MemoryMode true records metadata) /\
    output (session_writer SampleCodec.encode MemoryMode true records metadata)
    = recorded SampleCodec.encode records metadata /\
    delivered (session_writer SampleCodec.encode MemoryMode true records metadata)
    = recorded SampleCodec.encode records metadata /\
    result s
    = Some {| recording_metadata := metadata;
              buffer := recorded SampleCodec.encode records metadata |} /\
    recorder s
    = {| saveMode := MemoryMode; onPacketCallback := true; recording := false;
         startTime := 1000; currentReplayId := "demo";
         ReplayRecorder.packets := []; binaryWriter := None;
         replayMetadata := None; spawnPositionSet := false;
         botEntitySpawned := false |}.
Proof.
  intros inputs metadata records.
  assert (H : Z.of_nat (length (SampleCodec.encode (metadata_value metadata)))
              <= 0xFFFFFFFF) by (vm_compute; discriminate).
  split; [exact H|].
  exact (recording_is_a_session SampleCodec.encode MemoryMode true "demo" 1000
           (Some "bot") None inputs 3000 H).
Defined.

Lemma captured_deltas startTime inputs : forall spawned prev last,
  startTime <= prev <= last ->
  steady startTime last inputs ->
  deltas_ok (prev - startTime) (captured startTime spawned inputs).
Proof.
  induction inputs as [|[now n d|now entityId uuid position] inputs IH];
    intros spawned prev last Hp Hs; cbn [captured]; [exact I| |];
    cbn [steady clock] in Hs; destruct Hs as (H1 & H2 & Hs).
  - destruct (existsb (String.eqb n) capturedPackets).
    + cbn [deltas_ok timestamp]. split; [lia|].
      apply (IH spawned now now); [lia|exact Hs].
    + apply (IH spawned prev now); [lia|exact Hs].
  - destruct spawned.
    + apply (IH true prev now); [lia|exact Hs].
    + cbn [deltas_ok].
      assert (Et : timestamp (botSpawnPacket (now - startTime) entityId uuid position)
                   = now - startTime) by (destruct position as [[x y] z]; reflexivity).
      rewrite Et. split; [lia|].
      apply (IH true now now); [lia|exact Hs].
Qed.

Lemma captured_known startTime inputs : forall spawned,
  Forall known (captured startTime spawned inputs).
Proof.
  induction inputs as [|[now n d|now entityId uuid position] inputs IH];
    intros spawned; cbn [captured]; [constructor| |].
  - destruct (existsb (String.eqb n) capturedPackets) eqn:E; [|apply IH].
    constructor; [|apply IH]. unfold known. cbn [name].
    apply captured_iff_known. exact E.
  - destruct spawned; [apply IH|].
    constructor; [|apply IH]. unfold known.
    destruct position as [[x y] z]. cbn [botSpawnPacket name].
    apply captured_iff_known. reflexivity.
Qed.

(** X29: what the recorder hands to the writer can be written and read back.
    Every record it captures has a name of the packet-id table; and when the
    clock readings never go back and stay less than [2^31] ms after the start
    of the recording, every timestamp delta is between [0] and [2^31 - 1], the
    range in which the varint of the delta is read back as it was written. *)
Theorem captured_records_fit startTime inputs :
  Forall known (captured startTime false inputs) /\
  (steady startTime startTime inputs ->
   deltas_ok 0 (captured startTime false inputs)).
Proof.
  split; [apply captured_known|].
  intros Hs. replace 0 with (startTime - startTime) by lia.
  apply (captured_deltas startTime inputs false startTime startTime); [lia|exact Hs].
Qed.

Lemma captured_records_fit_witness :
  let inputs :=
    [Packet 1000 "chat" (VObj [("msg", VStr "hi")]);
     Packet 1100 "keep_alive" (VObj []);
     Spawn 1200 7 "uuid" (1, 64, -3);
     Packet 2500 "map_chunk" (VObj [("x", VNum 0); ("z", VNum 1)])] in
  steady 1000 1000 inputs /\
  map name (captured 1000 false inputs) = ["chat"; "named_entity_spawn"; "map_chunk"] /\
  Forall known (captured 1000 false inputs) /\
  deltas_ok 0 (captured 1000 false inputs).
Proof.
  intros inputs.
  assert (Hs : steady 1000 1000 inputs) by (cbn; lia).
  split; [exact Hs|]. split; [reflexivity|].
  split; [exact (proj1 (captured_records_fit 1000 inputs))
         |exact (proj2 (captured_records_fit 1000 inputs) Hs)].
Defined.

(** ** From the recorder to the reader *)

(** Loading a file that has the layout of a recording of well-formed
    records. *)
Lemma load_layout encode decode records metadata lenBuf file :
  file = bytes_of_string MAGIC ++ [VERSION] ++ frames encode 0 records
           ++ encode (metadata_value metadata) ++ lenBuf ->
  writeUInt32LE (Z.of_nat (length (encode (metadata_value metadata)))) = Ok lenBuf ->
  Forall known records ->
  deltas_ok 0 records ->
  Forall (fun r => Faithful.faithful (data r) = true) records ->
  Forall (fun r => carries_payload encode decode (data r)) records ->
  decode (encode (metadata_value metadata)) = Some (metadata_value metadata) ->
  RD.load decode file = Ok (Some (metadata_value metadata), records).
Proof.
  intros Hfile El Hk Hd Hf Hc Hdec.
  destruct (readUInt32LE_writeUInt32LE _ _ El) as [Hr Hl4].
  set (fr := frames encode 0 records) in *.
  set (metaBuf := encode (metadata_value metadata)) in *.
  pose proof magic_length as Hml.
  unfold RD.load, RD.open.
  assert (Hh : RD.readHeader file = Ok 9).
  { unfold RD.readHeader.
    rewrite (read_exact_at file [] (bytes_of_string MAGIC)
               ([VERSION] ++ fr ++ metaBuf ++ lenBuf))
      by (rewrite ?Hfile, ?Hml; reflexivity).
    cbn [bind]. rewrite magic_accepted. cbn [negb].
    rewrite (read_exact_at file (bytes_of_string MAGIC) [VERSION]
               (fr ++ metaBuf ++ lenBuf))
      by (rewrite ?Hfile, ?Hml; reflexivity).
    reflexivity. }
  rewrite Hh. cbn [bind].
  assert (Hsize : Z.of_nat (length file)
                  = 9 + Z.of_nat (length fr) + Z.of_nat (length metaBuf) + 4).
  { rewrite Hfile. lengths. rewrite Hml, Hl4. lia. }
  assert (Hmd : RD.readMetadata decode file
                = Ok (metadata_value metadata, 9 + Z.of_nat (length fr))).
  { unfold RD.readMetadata.
    rewrite (read_exact_at file (bytes_of_string MAGIC ++ [VERSION] ++ fr ++ metaBuf)
               lenBuf [])
      by (rewrite ?Hfile, ?app_nil_r, <- ?app_assoc, ?Hsize; lengths;
          rewrite ?Hml; try reflexivity; lia).
    cbn [bind]. rewrite Hr. fold metaBuf. rewrite Nat2Z.id.
    rewrite (read_exact_at file (bytes_of_string MAGIC ++ [VERSION] ++ fr)
               metaBuf lenBuf)
      by (rewrite ?Hfile, <- ?app_assoc, ?Hsize; lengths;
          rewrite ?Hml; try reflexivity; lia).
    cbn [bind]. rewrite Hdec, mapToObject_metadata.
    do 2 f_equal. lia. }
  rewrite Hmd. cbn [bind fst snd].
  unfold RD.readAllSync.
  cbn [RD.dataEndOffset RD.dataStartOffset RD.metadata].
  replace (Z.to_nat (9 + Z.of_nat (length fr) - 9)) with (length fr) by lia.
  match goal with
  | |- context [RD.readPackets_loop decode ?r0 _ _ _] =>
      pose proof (readPackets_frames encode decode records r0
                    (bytes_of_string MAGIC ++ [VERSION]) 0 (metaBuf ++ lenBuf)
                    (length fr)) as Hloop
  end.
  change (Z.of_nat (length (bytes_of_string MAGIC ++ [VERSION]))) with 9 in Hloop.
  rewrite Hloop; try assumption; try reflexivity.
  - cbn [RD.dataEndOffset]. lengths. rewrite Hml. fold fr. lia.
  - lengths. lia.
Qed.

(** X30: what the recorder records, the reader reads. A recording made with
    a clock that never goes back and stays less than [2^31] ms after its
    start, of payloads the normalizer reproduces and the codec carries, is
    closed without an error; and loading its output (the file, or the buffer
    of a memory-mode recording) gives back the metadata of the recording and
    exactly the records the recorder captured, with their timestamps. *)
Theorem recording_loads encode decode mode callback replayName now0 username version
  inputs now1 :
  let metadata := closing_metadata now0 now1 username version inputs in
  let records := captured now0 false inputs in
  steady now0 now0 inputs ->
  Forall (fun r => Faithful.faithful (data r) = true) records ->
  Forall (fun r => carries_payload encode decode (data r)) records ->
  codec_carries encode decode (metadata_value metadata) ->
  exists r1 s w,
    startRecording replayName now0 username version (create mode callback)
    = Returns r1 /\
    stopRecording encode now1 (fold_left (feed encode) inputs r1) = Returns s /\
    closed s = Some w /\
    RD.load decode (output w) = Ok (Some (metadata_value metadata), records).
Proof.
  intros metadata records Hs Hf Hc Hm.
  destruct (recording_session encode mode callback replayName now0 username version
              inputs now1 (proj2 Hm))
    as (r1 & s & E1 & _ & E2 & E3 & E4 & _).
  fold metadata records in E2, E3, E4.
  exists r1, s, (session_writer encode mode callback records metadata).
  split; [exact E1|]. split; [exact E2|]. split; [exact E3|].
  rewrite E4.
  pose proof (captured_known now0 inputs false) as Hk. fold records in Hk.
  destruct (recorded_bytes encode decode metadata records Hk Hf Hc Hm)
    as (lenBuf & El & _ & Hfile).
  apply (load_layout encode decode records metadata lenBuf _ Hfile El Hk);
    [|exact Hf|exact Hc|exact (proj1 Hm)].
  replace 0 with (now0 - now0) by lia.
  apply (captured_deltas now0 inputs false now0 now0); [lia|exact Hs].
Qed.

Lemma recording_loads_witness :
  let inputs :=
    [Packet 1000 "chat" (VObj [("msg", VStr "hi")]);
     Packet 1100 "keep_alive" (VObj []);
     Spawn 1200 7 "uuid" (1, 64, -3);
     Packet 2500 "map_chunk" (VObj [("x", VNum 0); ("z", VNum 1);
                                    ("img", VBuf [0; 255; 16])])] in
  let metadata := closing_metadata 1000 3000 (Some "bot") None inputs in
  let records := captured 1000 false inputs in
  steady 1000 1000 inputs /\
  Forall (fun r => Faithful.faithful (data r) = true) records /\
  Forall (fun r => carries_payload SampleCodec.encode SampleCodec.decode (data r))
         records /\
  codec_carries SampleCodec.encode SampleCodec.decode (metadata_value metadata) /\
  exists r1 s w,
    startRecording "demo" 1000 (Some "bot") None (create FileMode false)
    = Returns r1 /\
    stopRecording SampleCodec.encode 3000
      (fold_left (feed SampleCodec.encode) inputs r1) = Returns s /\
    closed s = Some w /\
    RD.load SampleCodec.decode (output w)
    = Ok (Some (metadata_value metadata), records).
Proof.
  intros inputs metadata records.
  assert (Hs : steady 1000 1000 inputs) by (cbn; lia).
  assert (Hf : Forall (fun r => Faithful.faithful (data r) = true) records)
    by (repeat constructor).
  assert (Hc : Forall (fun r => carries_payload SampleCodec.encode SampleCodec.decode
                                  (data r)) records)
    by (repeat constructor; vm_compute; discriminate).
  assert (Hm : codec_carries SampleCodec.encode SampleCodec.decode
                 (metadata_value metadata))
    by (split; vm_compute; [reflexivity|discriminate]).
  split; [exact Hs|]. split; [exact Hf|]. split; [exact Hc|]. split; [exact Hm|].
  exact (recording_loads SampleCodec.encode SampleCodec.decode FileMode false "demo"
           1000 (Some "bot") None inputs 3000 Hs Hf Hc Hm).
Defined.
